(** * Webhook notification service of the Sorosave SDK

    A shallow embedding of [webhook/index.ts] (class [WebhookService]) and
    the properties of its signature service, registry, dispatcher,
    delivery engine and delivery store.

    Conventions of the embedding.
    - A JavaScript string is represented by its UTF-8 encoding, a Rocq
      [string] (a sequence of bytes).  Every string that reaches Node's
      [crypto] module here goes through [Buffer.from(s)] or
      [hmac.update(s)], both of which encode as UTF-8.
    - A [Map] is an association list in insertion order; the objects a
      [Map] holds live in a heap and the [Map] holds references, because
      the service mutates stored objects in place.
    - [Date.now()], [Math.random()] and the HTTP transport are inputs of
      the environment. *)

From Stdlib Require Import ZArith List String Ascii Bool Lia.
From stdpp Require Import base tactics option list strings pretty relations.

Local Open Scope string_scope.
Local Open Scope Z_scope.
Local Open Scope list_scope.

(** ** Node's [crypto]: SHA-256 (FIPS 180-4) and HMAC (RFC 2104) *)

Module SHA256.

(** 32-bit words are [Z] values reduced modulo [2^32]. *)
Definition wrap (x : Z) : Z := x mod 4294967296.

Definition add (x y : Z) : Z := wrap (x + y).

Definition rotr (n x : Z) : Z :=
  Z.lor (Z.shiftr x n) (wrap (Z.shiftl x (32 - n))).

Definition neg (x : Z) : Z := Z.lxor x 4294967295.

Definition choose (x y z : Z) : Z :=
  Z.lxor (Z.land x y) (Z.land (neg x) z).

Definition majority (x y z : Z) : Z :=
  Z.lxor (Z.lxor (Z.land x y) (Z.land x z)) (Z.land y z).

Definition big_sigma0 (x : Z) : Z :=
  Z.lxor (Z.lxor (rotr 2 x) (rotr 13 x)) (rotr 22 x).

Definition big_sigma1 (x : Z) : Z :=
  Z.lxor (Z.lxor (rotr 6 x) (rotr 11 x)) (rotr 25 x).

Definition small_sigma0 (x : Z) : Z :=
  Z.lxor (Z.lxor (rotr 7 x) (rotr 18 x)) (Z.shiftr x 3).

Definition small_sigma1 (x : Z) : Z :=
  Z.lxor (Z.lxor (rotr 17 x) (rotr 19 x)) (Z.shiftr x 10).

(** Value of one hexadecimal digit. *)
Definition digit_value (c : ascii) : Z :=
  let n := Z.of_N (N_of_ascii c) in
  if n <? 58 then n - 48 else n - 87.

Fixpoint hex_value (acc : Z) (s : string) : Z :=
  match s with
  | EmptyString => acc
  | String c rest => hex_value (16 * acc + digit_value c) rest
  end.

(** Reads a table of 32-bit words written as eight hex digits each. *)
Fixpoint read_table (count : nat) (s : string) : list Z :=
  match count with
  | O => []
  | S k => hex_value 0 (substring 0 8 s)
             :: read_table k (substring 8 (String.length s - 8) s)
  end.

(** Round constants: the fractional parts of the cube roots of the
    first sixty-four primes. *)
Definition round_constants : list Z := Eval vm_compute in
  read_table 64
    ("428a2f9871374491b5c0fbcfe9b5dba53956c25b59f111f1923f82a4ab1c5ed5" +:+
     "d807aa9812835b01243185be550c7dc372be5d7480deb1fe9bdc06a7c19bf174" +:+
     "e49b69c1efbe47860fc19dc6240ca1cc2de92c6f4a7484aa5cb0a9dc76f988da" +:+
     "983e5152a831c66db00327c8bf597fc7c6e00bf3d5a7914706ca635114292967" +:+
     "27b70a852e1b21384d2c6dfc53380d13650a7354766a0abb81c2c92e92722c85" +:+
     "a2bfe8a1a81a664bc24b8b70c76c51a3d192e819d6990624f40e3585106aa070" +:+
     "19a4c1161e376c082748774c34b0bcb5391c0cb34ed8aa4a5b9cca4f682e6ff3" +:+
     "748f82ee78a5636f84c878148cc7020890befffaa4506cebbef9a3f7c67178f2").

(** The eight working registers, also the shape of a hash value. *)
Definition registers : Type := Z * Z * Z * Z * Z * Z * Z * Z.

Definition initial_hash : registers :=
  (1779033703, 3144134277, 1013904242, 2773480762,
   1359893119, 2600822924, 528734635, 1541459225).

(** Message schedule: the sixteen words of the block followed by
    forty-eight derived words.  [rev_sched] is kept newest first. *)
Fixpoint extend_schedule (steps : nat) (rev_sched : list Z) : list Z :=
  match steps with
  | O => rev_sched
  | S k =>
      let at_back i := nth i rev_sched 0 in
      let next := add (add (small_sigma1 (at_back 1%nat)) (at_back 6%nat))
                      (add (small_sigma0 (at_back 14%nat)) (at_back 15%nat)) in
      extend_schedule k (next :: rev_sched)
  end.

Definition schedule (block : list Z) : list Z :=
  rev (extend_schedule 48 (rev block)).

Definition round (r : registers) (kw : Z * Z) : registers :=
  let '(a, b, c, d, e, f, g, h) := r in
  let t1 := add (add (add h (big_sigma1 e)) (add (choose e f g) (fst kw))) (snd kw) in
  let t2 := add (big_sigma0 a) (majority a b c) in
  (add t1 t2, a, b, c, add d t1, e, f, g).

Definition compress (hash : registers) (block : list Z) : registers :=
  let '(a, b, c, d, e, f, g, h) :=
    fold_left round (combine round_constants (schedule block)) hash in
  let '(a0, b0, c0, d0, e0, f0, g0, h0) := hash in
  (add a0 a, add b0 b, add c0 c, add d0 d,
   add e0 e, add f0 f, add g0 g, add h0 h).

(** Big-endian bytes of a value, [n] bytes wide. *)
Fixpoint be_bytes (n : nat) (x : Z) : list Z :=
  match n with
  | O => []
  | S k => (Z.shiftr x (8 * Z.of_nat k)) mod 256 :: be_bytes k x
  end.

Definition pad (msg : list Z) : list Z :=
  let len := Z.of_nat (length msg) in
  msg ++ [128] ++ repeat 0 (Z.to_nat ((55 - len) mod 64)) ++ be_bytes 8 (8 * len).

Fixpoint be_words (fuel : nat) (bytes : list Z) : list Z :=
  match fuel, bytes with
  | S k, b0 :: b1 :: b2 :: b3 :: rest =>
      (b0 * 16777216 + b1 * 65536 + b2 * 256 + b3) :: be_words k rest
  | _, _ => []
  end.

Fixpoint blocks (fuel : nat) (words : list Z) : list (list Z) :=
  match fuel, words with
  | O, _ | _, [] => []
  | S k, _ => firstn 16 words :: blocks k (skipn 16 words)
  end.

Definition hash (msg : list Z) : registers :=
  let words := be_words (length msg + 72) (pad msg) in
  fold_left compress (blocks (length words) words) initial_hash.

Definition digest_bytes (r : registers) : list Z :=
  let '(a, b, c, d, e, f, g, h) := r in
  be_bytes 4 a ++ be_bytes 4 b ++ be_bytes 4 c ++ be_bytes 4 d ++
  be_bytes 4 e ++ be_bytes 4 f ++ be_bytes 4 g ++ be_bytes 4 h.

End SHA256.

Module Hex.

Definition digit (n : Z) : ascii :=
  ascii_of_N (Z.to_N (if n <? 10 then 48 + n else 87 + n)).

Definition nibble (x : Z) (i : Z) : ascii :=
  digit (Z.land (Z.shiftr x (4 * i)) 15).

(** Eight lower-case hex digits of a 32-bit word, then the rest. *)
Definition word (x : Z) (rest : string) : string :=
  String (nibble x 7) (String (nibble x 6) (String (nibble x 5)
 (String (nibble x 4) (String (nibble x 3) (String (nibble x 2)
 (String (nibble x 1) (String (nibble x 0) rest))))))).

(** [digest("hex")] of a SHA-256 value: sixty-four hex digits. *)
Definition of_hash (r : SHA256.registers) : string :=
  let '(a, b, c, d, e, f, g, h) := r in
  word a (word b (word c (word d (word e (word f (word g (word h ""))))))).

End Hex.

(** UTF-8 bytes of a string in this embedding. *)
Fixpoint bytes_of (s : string) : list Z :=
  match s with
  | EmptyString => []
  | String c rest => Z.of_N (N_of_ascii c) :: bytes_of rest
  end.

Module HMAC.

Definition block_size : nat := 64.

(** Keys longer than a block are hashed; every key is then filled
    with zero bytes up to the block size. *)
Definition block_key (key : list Z) : list Z :=
  let k := if (block_size <? length key)%nat
           then SHA256.digest_bytes (SHA256.hash key) else key in
  k ++ repeat 0 (block_size - length k)%nat.

Definition sha256 (key msg : list Z) : SHA256.registers :=
  let k := block_key key in
  let inner := SHA256.hash (map (Z.lxor 54) k ++ msg) in
  SHA256.hash (map (Z.lxor 92) k ++ SHA256.digest_bytes inner).

End HMAC.

(** [crypto.createHmac("sha256", secret).update(payload).digest("hex")] *)
Definition hmac_sha256_hex (secret payload : string) : string :=
  Hex.of_hash (HMAC.sha256 (bytes_of secret) (bytes_of payload)).

(** ** Thrown values and completions *)

Module Exception.
(** An instance of [Error] (or of a subclass), by constructor name. *)
Record t : Type := mk { name : string; message : string }.
End Exception.

Definition Error (message : string) : Exception.t :=
  Exception.mk "Error" message.
Definition RangeError (message : string) : Exception.t :=
  Exception.mk "RangeError" message.
Definition TypeError (message : string) : Exception.t :=
  Exception.mk "TypeError" message.
Definition ReferenceError (message : string) : Exception.t :=
  Exception.mk "ReferenceError" message.

(** How a call ends: with a value, or by throwing.  For an [async]
    function without a pending [await] this is how its promise settles. *)
Inductive Completion (A : Type) : Type :=
  | Normal (value : A)
  | Throw (thrown : Exception.t).
Arguments Normal {A} value.
Arguments Throw {A} thrown.

(** ** Signature service *)

(** [private generateSignature(payload, secret)] *)
Definition generateSignature (payload secret : string) : string :=
  "sha256=" +:+ hmac_sha256_hex secret payload.

(** [crypto.timingSafeEqual(a, b)]: Node throws a [RangeError] when the
    two buffers differ in byte length and compares them otherwise. *)
Definition timingSafeEqual (a b : list Z) : Completion bool :=
  if bool_decide (length a = length b)
  then Normal (bool_decide (a = b))
  else Throw (RangeError "Input buffers must have the same byte length").

(** [verifySignature(payload, signature, secret)]; [Buffer.from(s)] is
    [bytes_of s]. *)
Definition verifySignature (payload signature secret : string) : Completion bool :=
  let expected := generateSignature payload secret in
  timingSafeEqual (bytes_of signature) (bytes_of expected).

(** ** Data model *)

(** A reference to an object in a heap. *)
Definition ref : Type := nat.

Module WebhookConfig.
Record t : Type := mk {
  id : string;
  url : string;
  events : list string;
  secret : option string;
  active : bool;
  createdAt : Z;
  retryCount : Z
}.

Definition with_active (a : bool) (w : t) : t :=
  mk (id w) (url w) (events w) (secret w) a (createdAt w) (retryCount w).
End WebhookConfig.

Module WebhookEvent.
Record t (any : Type) : Type := mk {
  type : string;
  data : any;
  timestamp : Z;
  id : string
}.
Arguments mk {any}.
Arguments type {any}.
Arguments data {any}.
Arguments timestamp {any}.
Arguments id {any}.
End WebhookEvent.

Inductive Status : Type := pending | success | failed.

Module WebhookDelivery.
Record t : Type := mk {
  id : string;
  webhookId : string;
  eventId : string;
  status : Status;
  attempts : nat;
  responseStatus : option Z;
  responseBody : option string;
  error : option string;
  createdAt : Z;
  completedAt : option Z
}.

Definition with_attempts (n : nat) (d : t) : t :=
  mk (id d) (webhookId d) (eventId d) (status d) n (responseStatus d)
     (responseBody d) (error d) (createdAt d) (completedAt d).
Definition with_status (s : Status) (d : t) : t :=
  mk (id d) (webhookId d) (eventId d) s (attempts d) (responseStatus d)
     (responseBody d) (error d) (createdAt d) (completedAt d).
Definition with_responseStatus (c : Z) (d : t) : t :=
  mk (id d) (webhookId d) (eventId d) (status d) (attempts d) (Some c)
     (responseBody d) (error d) (createdAt d) (completedAt d).
Definition with_error (e : string) (d : t) : t :=
  mk (id d) (webhookId d) (eventId d) (status d) (attempts d)
     (responseStatus d) (responseBody d) (Some e) (createdAt d) (completedAt d).
Definition with_completedAt (at_ : Z) (d : t) : t :=
  mk (id d) (webhookId d) (eventId d) (status d) (attempts d)
     (responseStatus d) (responseBody d) (error d) (createdAt d) (Some at_).
End WebhookDelivery.

(** ** [Map<string, V>]: entries in insertion order, one per key *)

Module JSMap.
Section Ops.
Context {V : Type}.

Definition t : Type := list (string * V).

Fixpoint get (k : string) (m : t) : option V :=
  match m with
  | [] => None
  | (k', v) :: rest => if decide (k = k') then Some v else get k rest
  end.

Definition has (k : string) (m : t) : bool :=
  bool_decide (is_Some (get k m)).

(** [set] keeps the position of a key that is already present. *)
Fixpoint set (k : string) (v : V) (m : t) : t :=
  match m with
  | [] => [(k, v)]
  | (k', v') :: rest =>
      if decide (k = k') then (k, v) :: rest else (k', v') :: set k v rest
  end.

Fixpoint delete (k : string) (m : t) : t :=
  match m with
  | [] => []
  | (k', v') :: rest =>
      if decide (k = k') then delete k rest else (k', v') :: delete k rest
  end.

Definition keys (m : t) : list string := fst <$> m.
Definition values (m : t) : list V := snd <$> m.
End Ops.
Arguments t V : clear implicits.
End JSMap.

(** ** What the service does to the outside *)

Module Request.
(** The argument of [fetch(url, init)]. *)
Record t : Type := mk {
  url : string;
  method : string;
  headers : list (string * string);
  body : string;
  timeout : Z
}.
End Request.

(** Events of the [EventEmitter], with their payload. *)
Inductive Notification (any : Type) : Type :=
  | webhook_registered (webhook : ref)
  | webhook_deleted (id : string)
  | webhook_updated (webhook : ref)
  | event_triggered (event : WebhookEvent.t any)
  | delivery_success (delivery webhook : ref) (event : WebhookEvent.t any)
  | delivery_failed (delivery webhook : ref) (event : WebhookEvent.t any).
Arguments webhook_registered {any}.
Arguments webhook_deleted {any}.
Arguments webhook_updated {any}.
Arguments event_triggered {any}.
Arguments delivery_success {any}.
Arguments delivery_failed {any}.

Inductive Effect (any : Type) : Type :=
  | Emit (n : Notification any)
  | Fetch (request : Request.t)
  | SetTimeout (ms : option Z).
Arguments Emit {any}.
Arguments Fetch {any}.
Arguments SetTimeout {any}.

(** How one delivery attempt ends at the transport: [fetch] and
    [response.text()] both resolve, or one of them rejects.  The two
    suspensions of [executeDelivery] are taken together: nothing is
    written between them. *)
Inductive FetchOutcome : Type :=
  | Responded (status : Z) (body : string)
  | Rejected (reason : Exception.t).

(** ** The service *)

Section Service.

(** The type of event data ([any] in the source). *)
Context {any : Type}.
(** Whether [new URL(url)] returns (it throws otherwise). *)
Context (URL_parses : string → bool).
(** [JSON.stringify] of the envelope [{event, data, timestamp, id}]
    that [executeDelivery] builds from an event.  Event data are taken
    to be serialisable: the call returns. *)
Context (JSON_stringify : WebhookEvent.t any → string).
(** The [k]-th reading of the clock, and the [k]-th draw of
    [Math.random()] as [toString(36)] prints it. *)
Context (Date_now : nat → Z) (Math_random : nat → string).

(** The fields of the class, the two object heaps behind its maps,
    what it has done to the outside so far, and how many times it has
    consulted the environment. *)
Record World : Type := mkWorld {
  webhooks : JSMap.t ref;
  deliveries : JSMap.t ref;
  webhook_heap : list WebhookConfig.t;
  delivery_heap : list WebhookDelivery.t;
  trace : list (Effect any);
  tick : nat
}.

Definition maxRetries : nat := 3.
Definition retryDelays : list Z := [1000; 5000; 15000].

(** [new WebhookService()] *)
Definition initial : World := mkWorld [] [] [] [] [] 0.

(** *** State and exceptions *)

Definition M (A : Type) : Type := World → Completion A * World.

#[local] Instance M_ret : MRet M := λ A a w, (Normal a, w).
#[local] Instance M_bind : MBind M := λ A B f c w,
  match c w with
  | (Normal a, w') => f a w'
  | (Throw e, w') => (Throw e, w')
  end.

Definition throw {A : Type} (e : Exception.t) : M A := λ w, (Throw e, w).

Definition try_catch {A : Type} (body : M A) (handler : Exception.t → M A) : M A :=
  λ w, match body w with
       | (Normal a, w') => (Normal a, w')
       | (Throw e, w') => handler e w'
       end.

Definition gets {A : Type} (f : World → A) : M A := λ w, (Normal (f w), w).
Definition modify (f : World → World) : M unit := λ w, (Normal tt, f w).

Fixpoint mapM {A B : Type} (f : A → M B) (l : list A) : M (list B) :=
  match l with
  | [] => mret []
  | a :: rest => b ← f a; bs ← mapM f rest; mret (b :: bs)
  end.

(** *** Environment *)

(** [Date.now()], also the time value of [new Date()]. *)
Definition now : M Z := λ w,
  (Normal (Date_now (tick w)),
   mkWorld (webhooks w) (deliveries w) (webhook_heap w) (delivery_heap w)
           (trace w) (S (tick w))).

(** [Math.random().toString(36)] *)
Definition random36 : M string := λ w,
  (Normal (Math_random (tick w)),
   mkWorld (webhooks w) (deliveries w) (webhook_heap w) (delivery_heap w)
           (trace w) (S (tick w))).

Definition effect (e : Effect any) : M unit :=
  modify (λ w, mkWorld (webhooks w) (deliveries w) (webhook_heap w)
                       (delivery_heap w) (trace w ++ [e]) (tick w)).

(** [this.emit(name, payload)] *)
Definition emit (n : Notification any) : M unit := effect (Emit n).

(** [fetch(url, init)], up to the promise it returns. *)
Definition fetch (request : Request.t) : M unit := effect (Fetch request).

(** [this.delay(ms)], up to the promise it returns. *)
Definition delay (ms : option Z) : M unit := effect (SetTimeout ms).

(** [new URL(url)] *)
Definition new_URL (url : string) : M unit :=
  if URL_parses url then mret tt else throw (TypeError "Invalid URL").

(** *** Objects *)

Definition new_webhook (o : WebhookConfig.t) : M ref := λ w,
  (Normal (length (webhook_heap w)),
   mkWorld (webhooks w) (deliveries w) (webhook_heap w ++ [o])
           (delivery_heap w) (trace w) (tick w)).

Definition new_delivery (o : WebhookDelivery.t) : M ref := λ w,
  (Normal (length (delivery_heap w)),
   mkWorld (webhooks w) (deliveries w) (webhook_heap w)
           (delivery_heap w ++ [o]) (trace w) (tick w)).

(** Field reads and writes go through the reference.  A reference
    that was never allocated does not occur in a running service; the
    embedding makes such an access throw. *)
Definition read_webhook (r : ref) : M WebhookConfig.t := λ w,
  match webhook_heap w !! r with
  | Some o => (Normal o, w)
  | None => (Throw (ReferenceError "webhook"), w)
  end.

Definition write_webhook (r : ref) (f : WebhookConfig.t → WebhookConfig.t) : M unit := λ w,
  match webhook_heap w !! r with
  | Some o =>
      (Normal tt,
       mkWorld (webhooks w) (deliveries w) (<[r := f o]> (webhook_heap w))
               (delivery_heap w) (trace w) (tick w))
  | None => (Throw (ReferenceError "webhook"), w)
  end.

Definition write_delivery (r : ref) (f : WebhookDelivery.t → WebhookDelivery.t) : M unit := λ w,
  match delivery_heap w !! r with
  | Some o =>
      (Normal tt,
       mkWorld (webhooks w) (deliveries w) (webhook_heap w)
               (<[r := f o]> (delivery_heap w)) (trace w) (tick w))
  | None => (Throw (ReferenceError "delivery"), w)
  end.

Definition webhooks_set (k : string) (r : ref) : M unit :=
  modify (λ w, mkWorld (JSMap.set k r (webhooks w)) (deliveries w)
                       (webhook_heap w) (delivery_heap w) (trace w) (tick w)).

Definition deliveries_set (k : string) (r : ref) : M unit :=
  modify (λ w, mkWorld (webhooks w) (JSMap.set k r (deliveries w))
                       (webhook_heap w) (delivery_heap w) (trace w) (tick w)).

(** [this.webhooks.delete(id)] *)
Definition webhooks_delete (k : string) : M bool := λ w,
  (Normal (JSMap.has k (webhooks w)),
   mkWorld (JSMap.delete k (webhooks w)) (deliveries w)
           (webhook_heap w) (delivery_heap w) (trace w) (tick w)).

(** *** Helpers of the class *)

(** [private generateId()]:
    [`${Date.now()}-${Math.random().toString(36).substr(2, 9)}`] *)
Definition generateId : M string :=
  t ← now;
  r ← random36;
  mret (pretty t +:+ "-" +:+ substring 2 9 r).

(** *** Registry *)

(** [async registerWebhook(url, events, secret?)].  The body has no
    [await]: the completion is how the returned promise settles. *)
Definition registerWebhook (url : string) (events : list string)
    (secret : option string) : M ref :=
  try_catch (new_URL url) (λ _, throw (Error "Invalid webhook URL"));;
  (if bool_decide (length events = 0%nat)
   then throw (Error "At least one event type is required")
   else mret tt);;
  id ← generateId;
  createdAt ← now;
  webhook ← new_webhook
    (WebhookConfig.mk id url events secret true createdAt 0);
  webhooks_set id webhook;;
  emit (webhook_registered webhook);;
  mret webhook.

(** [listWebhooks()] *)
Definition listWebhooks (w : World) : list ref := JSMap.values (webhooks w).

(** [getWebhook(id)] *)
Definition getWebhook (id : string) (w : World) : option ref :=
  JSMap.get id (webhooks w).

(** [deleteWebhook(id)] *)
Definition deleteWebhook (id : string) : M bool :=
  deleted ← webhooks_delete id;
  (if deleted : bool then emit (webhook_deleted id) else mret tt);;
  mret deleted.

(** [updateWebhookStatus(id, active)] *)
Definition updateWebhookStatus (id : string) (active : bool) : M (option ref) :=
  found ← gets (getWebhook id);
  match found with
  | Some webhook =>
      write_webhook webhook (WebhookConfig.with_active active);;
      emit (webhook_updated webhook);;
      mret (Some webhook)
  | None => mret None
  end.

(** *** Delivery store *)

(** [getDeliveries(webhookId?)]: an absent or empty [webhookId] is
    falsy and selects every delivery. *)
Definition getDeliveries (webhookId : option string) (w : World) : list ref :=
  let all := JSMap.values (deliveries w) in
  match webhookId with
  | Some wid =>
      if decide (wid = "") then all
      else filter (λ r, WebhookDelivery.webhookId <$> delivery_heap w !! r = Some wid) all
  | None => all
  end.

(** [getDelivery(id)] *)
Definition getDelivery (id : string) (w : World) : option ref :=
  JSMap.get id (deliveries w).

(** *** Delivery engine *)

(** Where a delivery unit is suspended. *)
Inductive Awaited : Type :=
  | on_executeDelivery   (* [await this.executeDelivery(webhook, event)] *)
  | on_delay.            (* [await this.delay(this.retryDelays[attempt])] *)

(** The local variables of a suspended call of [sendWebhook]. *)
Record DeliveryUnit : Type := mkUnit {
  of_webhook : ref;
  of_event : WebhookEvent.t any;
  of_delivery : ref;
  attempt : nat;
  awaited : Awaited
}.

(** A call of [sendWebhook] is suspended at an [await] or has
    returned its delivery. *)
Inductive Progress : Type :=
  | Suspended (u : DeliveryUnit)
  | Returned (delivery : ref).

(** [private async executeDelivery(webhook, event)], up to its first
    [await]: the request is built and handed to [fetch]. *)
Definition executeDelivery (webhook : ref) (event : WebhookEvent.t any) : M unit :=
  let payload := JSON_stringify event in
  config ← read_webhook webhook;
  deliveryId ← generateId;
  let headers :=
    [("Content-Type", "application/json");
     ("User-Agent", "Sorosave-Webhook/1.0");
     ("X-Webhook-ID", WebhookConfig.id config);
     ("X-Event-ID", WebhookEvent.id event);
     ("X-Delivery-ID", deliveryId)] in
  let headers :=
    match WebhookConfig.secret config with
    | Some secret =>
        if decide (secret = "") then headers
        else headers ++ [("X-Webhook-Signature", generateSignature payload secret)]
    | None => headers
    end in
  fetch (Request.mk (WebhookConfig.url config) "POST" headers payload 30000).

(** [response.ok] *)
Definition ok (status : Z) : bool := (200 <=? status) && (status <? 300).

(** The rest of [executeDelivery], once the transport has answered. *)
Definition executeDelivery_settled (o : FetchOutcome) : Completion (Z * string) :=
  match o with
  | Responded status body =>
      if ok status then Normal (status, body)
      else Throw (Error ("HTTP " +:+ pretty status +:+ ": " +:+ body))
  | Rejected reason => Throw reason
  end.

(** The head of the loop
    [for (let attempt = 0; attempt <= this.maxRetries; attempt++)],
    entered with the given value of [attempt], up to the [await]. *)
Definition sendWebhook_loop (webhook : ref) (event : WebhookEvent.t any)
    (delivery : ref) (attempt : nat) : M Progress :=
  if (attempt <=? maxRetries)%nat then
    write_delivery delivery (WebhookDelivery.with_attempts (attempt + 1));;
    executeDelivery webhook event;;
    mret (Suspended (mkUnit webhook event delivery attempt on_executeDelivery))
  else
    mret (Returned delivery).

(** [private async sendWebhook(webhook, event)], up to its first
    [await]. *)
Definition sendWebhook (webhook : ref) (event : WebhookEvent.t any) : M Progress :=
  id ← generateId;
  config ← read_webhook webhook;
  createdAt ← now;
  delivery ← new_delivery
    (WebhookDelivery.mk id (WebhookConfig.id config) (WebhookEvent.id event)
       pending 0 None None None createdAt None);
  deliveries_set id delivery;;
  sendWebhook_loop webhook event delivery 0.

(** [sendWebhook] resumed after [await this.executeDelivery(...)].
    What the [catch] block receives is an [Error] object, of which it
    records the message. *)
Definition sendWebhook_settled (u : DeliveryUnit) (o : FetchOutcome) : M Progress :=
  let delivery := of_delivery u in
  match executeDelivery_settled o with
  | Normal (status, _) =>
      write_delivery delivery (WebhookDelivery.with_status success);;
      write_delivery delivery (WebhookDelivery.with_responseStatus status);;
      at_ ← now;
      write_delivery delivery (WebhookDelivery.with_completedAt at_);;
      emit (delivery_success delivery (of_webhook u) (of_event u));;
      mret (Returned delivery)
  | Throw error =>
      write_delivery delivery (WebhookDelivery.with_error (Exception.message error));;
      if (attempt u <? maxRetries)%nat then
        delay (retryDelays !! attempt u);;
        mret (Suspended (mkUnit (of_webhook u) (of_event u) delivery (attempt u) on_delay))
      else
        write_delivery delivery (WebhookDelivery.with_status failed);;
        at_ ← now;
        write_delivery delivery (WebhookDelivery.with_completedAt at_);;
        emit (delivery_failed delivery (of_webhook u) (of_event u));;
        sendWebhook_loop (of_webhook u) (of_event u) delivery (attempt u + 1)
  end.

(** [sendWebhook] resumed after [await this.delay(...)]: [attempt++]
    and back to the head of the loop. *)
Definition sendWebhook_delayed (u : DeliveryUnit) : M Progress :=
  sendWebhook_loop (of_webhook u) (of_event u) (of_delivery u) (attempt u + 1).

(** *** Event dispatcher *)

(** [webhook.active && webhook.events.includes(type)] *)
Definition matches (type : string) (w : World) (webhook : ref) : bool :=
  match webhook_heap w !! webhook with
  | Some config =>
      WebhookConfig.active config && bool_decide (type ∈ WebhookConfig.events config)
  | None => false
  end.

(** [async triggerEvent(type, data)], up to [await Promise.all(...)]:
    the result lists the calls of [sendWebhook] it has started. *)
Definition triggerEvent (type : string) (data : any) : M (list Progress) :=
  timestamp ← now;
  id ← generateId;
  let event := WebhookEvent.mk type data timestamp id in
  emit (event_triggered event);;
  matchingWebhooks ← gets (λ w, filter (λ r, matches type w r) (JSMap.values (webhooks w)));
  mapM (λ webhook, sendWebhook webhook event) matchingWebhooks.

(** *** One delivery, run on its own *)

(** One attempt is answered; if the unit then waits for its backoff
    timer, the timer fires. *)
Definition answer (u : DeliveryUnit) (o : FetchOutcome) : M Progress :=
  p ← sendWebhook_settled u o;
  match p with
  | Suspended u' => sendWebhook_delayed u'
  | Returned _ => mret p
  end.

(** The unit is driven by the outcomes of its attempts, in order. *)
Fixpoint drive (p : Progress) (outcomes : list FetchOutcome) : M Progress :=
  match p, outcomes with
  | Suspended u, o :: rest => p' ← answer u o; drive p' rest
  | _, _ => mret p
  end.

Definition deliver (webhook : ref) (event : WebhookEvent.t any)
    (outcomes : list FetchOutcome) : M Progress :=
  p ← sendWebhook webhook event;
  drive p outcomes.

(** *** The running service *)

(** The state of the object and the delivery units in flight. *)
Record Config : Type := mkConfig {
  world : World;
  units : list DeliveryUnit
}.

Definition suspended (ps : list Progress) : list DeliveryUnit :=
  omap (λ p, match p with Suspended u => Some u | Returned _ => None end) ps.

Definition started (c : Completion (list Progress)) : list DeliveryUnit :=
  match c with
  | Normal ps => suspended ps
  | Throw _ => []
  end.

Definition continued (c : Completion Progress) : list DeliveryUnit :=
  match c with
  | Normal p => suspended [p]
  | Throw _ => []
  end.

(** One turn of the event loop: a caller invokes a method, the
    transport answers a unit, or a unit's timer fires. *)
Inductive step : Config → Config → Prop :=
  | step_registerWebhook w us url events secret :
      step (mkConfig w us)
           (mkConfig (registerWebhook url events secret w).2 us)
  | step_deleteWebhook w us id :
      step (mkConfig w us) (mkConfig (deleteWebhook id w).2 us)
  | step_updateWebhookStatus w us id active :
      step (mkConfig w us) (mkConfig (updateWebhookStatus id active w).2 us)
  | step_triggerEvent w us type data :
      step (mkConfig w us)
           (mkConfig (triggerEvent type data w).2
                     (us ++ started (triggerEvent type data w).1))
  | step_settled w us i u o :
      us !! i = Some u →
      awaited u = on_executeDelivery →
      step (mkConfig w us)
           (mkConfig (sendWebhook_settled u o w).2
                     (delete i us ++ continued (sendWebhook_settled u o w).1))
  | step_delayed w us i u :
      us !! i = Some u →
      awaited u = on_delay →
      step (mkConfig w us)
           (mkConfig (sendWebhook_delayed u w).2
                     (delete i us ++ continued (sendWebhook_delayed u w).1)).

(** Every configuration the service can be in, from construction. *)
Inductive reachable : Config → Prop :=
  | reachable_initial : reachable (mkConfig initial [])
  | reachable_step c c' : reachable c → step c c' → reachable c'.

End Service.


(** ** A delivery attempt on data that may not serialise

    [JSON.stringify] throws a [TypeError] on data that it cannot
    serialise, a [BigInt] or a cyclic object.  The service above is
    given a serialiser that returns; here is [executeDelivery] with
    the call as the source has it, one that may throw before anything
    else is done.  What it throws rejects the promise of
    [executeDelivery]. *)

Module Serialising.
Section Attempt.

Context {any : Type}.
(** [JSON.stringify] of the envelope [{event, data, timestamp, id}]. *)
Context (JSON_stringify : WebhookEvent.t any → Completion string).
Context (Date_now : nat → Z) (Math_random : nat → string).

#[local] Existing Instance M_ret.
#[local] Existing Instance M_bind.

(** [private async executeDelivery(webhook, event)], up to its first
    [await]. *)
Definition executeDelivery (webhook : ref) (event : WebhookEvent.t any) :
    M (any := any) unit :=
  payload ← (λ w, (JSON_stringify event, w));
  config ← read_webhook webhook;
  deliveryId ← generateId Date_now Math_random;
  let headers :=
    [("Content-Type", "application/json");
     ("User-Agent", "Sorosave-Webhook/1.0");
     ("X-Webhook-ID", WebhookConfig.id config);
     ("X-Event-ID", WebhookEvent.id event);
     ("X-Delivery-ID", deliveryId)] in
  let headers :=
    match WebhookConfig.secret config with
    | Some secret =>
        if decide (secret = "") then headers
        else headers ++ [("X-Webhook-Signature", generateSignature payload secret)]
    | None => headers
    end in
  fetch (Request.mk (WebhookConfig.url config) "POST" headers payload 30000).

End Attempt.
End Serialising.

(** ** The management API ([express] router over the service)

    The handlers of the router, as functions of what they read from
    the request.  The fields of a request body are taken at the types
    the service declares for them: [url] and [secret] are a string or
    are missing, [events] is an array of strings or is not an array at
    all (missing included), [active] is a boolean or is not one.  A
    handler that throws leaves the answer to [express]. *)

(** The JSON that a handler answers with. *)
Inductive Answer : Type :=
  | success_webhook (data : ref)            (* [{success: true, data: webhook}] *)
  | success_webhooks (data : list ref)      (* [{success: true, data: webhooks}] *)
  | success_deliveries (data : list ref)    (* [{success: true, data: deliveries}] *)
  | success_message (message : string)      (* [{success: true, message}] *)
  | failure (error : string)                (* [{success: false, error}] *)
  | error_only (error : string).            (* [{error}] *)

Module Response.
(** [res.status(code).json(body)]; [res.json(body)] answers 200. *)
Record t : Type := mk { status : Z; json : Answer }.
End Response.

Section Router.

Context {any : Type}.
Context (URL_parses : string → bool).
Context (JSON_stringify : WebhookEvent.t any → string).
Context (Date_now : nat → Z) (Math_random : nat → string).
(** The data of the test event, [{message: "This is a test event"}]. *)
Context (test_data : any).

#[local] Existing Instance M_ret.
#[local] Existing Instance M_bind.

(** [!s] on a string that may be missing. *)
Definition falsy (s : option string) : bool :=
  match s with
  | Some s => bool_decide (s = "")
  | None => true
  end.

(** [error instanceof Error ? error.message : "Unknown error"] *)
Definition error_message (e : Exception.t) : string := Exception.message e.

(** [POST /]: register a new webhook.  [events] is [None] when the
    field is falsy or not an array. *)
Definition post_webhook (url : option string) (events : option (list string))
    (secret : option string) : M (any := any) Response.t :=
  try_catch
    (match url, events with
     | Some u, Some evs =>
         if falsy url
         then mret (Response.mk 400 (error_only "Missing required fields: url, events"))
         else
           webhook ← registerWebhook URL_parses Date_now Math_random u evs secret;
           mret (Response.mk 201 (success_webhook webhook))
     | _, _ =>
         mret (Response.mk 400 (error_only "Missing required fields: url, events"))
     end)
    (λ error, mret (Response.mk 400 (failure (error_message error)))).

(** [GET /]: list all webhooks. *)
Definition get_webhooks : M (any := any) Response.t :=
  webhooks ← gets listWebhooks;
  mret (Response.mk 200 (success_webhooks webhooks)).

(** [GET /:id]: get a specific webhook. *)
Definition get_webhook (id : string) : M (any := any) Response.t :=
  webhook ← gets (getWebhook id);
  match webhook with
  | None => mret (Response.mk 404 (failure "Webhook not found"))
  | Some webhook => mret (Response.mk 200 (success_webhook webhook))
  end.

(** [DELETE /:id]: delete a webhook. *)
Definition delete_webhook (id : string) : M (any := any) Response.t :=
  deleted ← deleteWebhook id;
  if deleted : bool
  then mret (Response.mk 200 (success_message "Webhook deleted successfully"))
  else mret (Response.mk 404 (failure "Webhook not found")).

(** [PATCH /:id]: update webhook status.  The handler reads
    [req.body] outside any [try]: on a request without a parsed body,
    where [req.body] is [undefined], the destructuring throws and the
    handler throws with it.  [body] is [None] on such a request, and
    else holds [active], which is [None] when
    [typeof active !== "boolean"]. *)
Definition patch_webhook (id : string) (body : option (option bool)) :
    M (any := any) Response.t :=
  match body with
  | None =>
      throw (TypeError
               "Cannot destructure property 'active' of 'req.body' as it is undefined.")
  | Some None =>
      mret (Response.mk 400 (failure "Missing required field: active (boolean)"))
  | Some (Some active) =>
      webhook ← updateWebhookStatus id active;
      match webhook with
      | None => mret (Response.mk 404 (failure "Webhook not found"))
      | Some webhook => mret (Response.mk 200 (success_webhook webhook))
      end
  end.

(** [GET /:id/deliveries]: delivery history of a webhook. *)
Definition get_deliveries (id : string) : M (any := any) Response.t :=
  webhook ← gets (getWebhook id);
  match webhook with
  | None => mret (Response.mk 404 (failure "Webhook not found"))
  | Some _ =>
      deliveries ← gets (getDeliveries (Some id));
      mret (Response.mk 200 (success_deliveries deliveries))
  end.

(** [POST /test], up to [await webhookService.triggerEvent(...)]: the
    answer when the request is refused, or else the temporary webhook
    and the deliveries that the test event has started. *)
Definition post_test (url secret : option string) :
    M (any := any) (Response.t + ref * list Progress) :=
  try_catch
    (match url with
     | Some u =>
         if falsy url
         then mret (inl (Response.mk 400 (failure "Missing required field: url")))
         else
           timestamp ← now Date_now;
           stamp ← now Date_now;
           let testEvent :=
             WebhookEvent.mk "test" test_data timestamp ("test-" +:+ pretty stamp) in
           webhook ← registerWebhook URL_parses Date_now Math_random u ["test"] secret;
           started ← triggerEvent JSON_stringify Date_now Math_random
                       "test" (WebhookEvent.data testEvent);
           mret (inr (webhook, started))
     | None => mret (inl (Response.mk 400 (failure "Missing required field: url")))
     end)
    (λ error, mret (inl (Response.mk 400 (failure (error_message error))))).

(** The rest of [POST /test], once the deliveries have settled: the
    temporary webhook is deleted and the handler answers. *)
Definition post_test_done (webhook : ref) : M (any := any) Response.t :=
  try_catch
    (config ← read_webhook webhook;
     deleteWebhook (WebhookConfig.id config);;
     mret (Response.mk 200 (success_message "Test event sent successfully")))
    (λ error, mret (Response.mk 400 (failure (error_message error)))).

(** The requests that a handler serves in one go, by method and
    path, with what the handler reads from the body.  [POST /] reads
    the body inside its [try]: without a body it ends in its [catch]
    and answers 400, as it does on missing fields. *)
Inductive Call : Type :=
  | POST_root (url : option string) (events : option (list string))
              (secret : option string)
  | GET_root
  | GET_id (id : string)
  | DELETE_id (id : string)
  | PATCH_id (id : string) (body : option (option bool))
  | GET_id_deliveries (id : string).

(** The routing table. *)
Definition serve (call : Call) : M (any := any) Response.t :=
  match call with
  | POST_root url events secret => post_webhook url events secret
  | GET_root => get_webhooks
  | GET_id id => get_webhook id
  | DELETE_id id => delete_webhook id
  | PATCH_id id body => patch_webhook id body
  | GET_id_deliveries id => get_deliveries id
  end.

Definition is_GET (call : Call) : bool :=
  match call with
  | GET_root | GET_id _ | GET_id_deliveries _ => true
  | _ => false
  end.

End Router.
(** ** A sample environment, for the examples *)

Module Sample.

(** Stands for the URL parser on the inputs of the examples: it takes
    what starts with [http://] or [https://] and goes on. *)
Definition URL_parses (url : string) : bool :=
  bool_decide (substring 0 7 url = "http://" ∧ (7 < String.length url)%nat) ||
  bool_decide (substring 0 8 url = "https://" ∧ (8 < String.length url)%nat).

Definition quoted (s : string) : string :=
  String "034"%char (s +:+ String "034"%char "").

(** Stands for [JSON.stringify] of the envelope; event data are given
    as JSON text. *)
Definition JSON_stringify (e : WebhookEvent.t string) : string :=
  "{" +:+ quoted "event" +:+ ":" +:+ quoted (WebhookEvent.type e) +:+
  "," +:+ quoted "data" +:+ ":" +:+ WebhookEvent.data e +:+
  "," +:+ quoted "timestamp" +:+ ":" +:+ pretty (WebhookEvent.timestamp e) +:+
  "," +:+ quoted "id" +:+ ":" +:+ quoted (WebhookEvent.id e) +:+ "}".

(** A clock that advances by a millisecond at every reading, and
    draws that all differ. *)
Definition Date_now (k : nat) : Z := 1700000000000 + Z.of_nat k.
Definition Math_random (k : nat) : string :=
  "0." +:+ pretty (Z.of_nat k) +:+ "k4fzyo82mvyr".

(** Two calls within one millisecond that draw the same number:
    [Math.random()] is [0.5], which [toString(36)] prints as [0.i]. *)
Definition frozen_now (k : nat) : Z := 1700000000000.
Definition frozen_random (k : nat) : string := "0.i".

Definition event : WebhookEvent.t string :=
  WebhookEvent.mk "payout" "{}" 1700000000000 "1700000000000-evt000001".

(** A service with one subscription to [payout]. *)
Definition one_webhook : World (any := string) :=
  (registerWebhook URL_parses Date_now Math_random
     "https://example.org/hook" ["payout"] (Some "s3cret") initial).2.

(** That service once a [payout] event has been triggered. *)
Definition dispatched : Config (any := string) :=
  mkConfig
    (triggerEvent JSON_stringify Date_now Math_random "payout" "{}" one_webhook).2
    ([] ++ started
       (triggerEvent JSON_stringify Date_now Math_random "payout" "{}" one_webhook).1).

(** The byte 0. *)
Definition NUL : string := String "000"%char "".

End Sample.

(** The errors with which registration refuses its input (the
    validation errors of the design); the source throws them as plain
    [Error] objects with these messages. *)
Definition ValidationError (e : Exception.t) : Prop :=
  e = Error "Invalid webhook URL" ∨
  e = Error "At least one event type is required".


(** ** Vocabulary of the properties *)

(** A lower-case hexadecimal digit. *)
Definition hex_digit (c : ascii) : Prop :=
  In c (list_ascii_of_string "0123456789abcdef").

(** An attempt succeeds when the transport answers and [response.ok]
    holds; every other outcome makes [executeDelivery] throw. *)
Definition succeeds (o : FetchOutcome) : bool :=
  match o with
  | Responded status _ => ok status
  | Rejected _ => false
  end.

(** The message of what [executeDelivery] throws on a failed attempt. *)
Definition detail (o : FetchOutcome) : string :=
  match o with
  | Responded status body => "HTTP " +:+ pretty status +:+ ": " +:+ body
  | Rejected reason => Exception.message reason
  end.

(** What the transport rejects with says what went wrong: the errors
    of [node-fetch] all carry a message. *)
Definition described (o : FetchOutcome) : Prop :=
  match o with
  | Responded _ _ => True
  | Rejected reason => Exception.message reason ≠ ""
  end.

(** A delivery is terminal when it has succeeded or failed. *)
Definition terminal (d : WebhookDelivery.t) : Prop :=
  WebhookDelivery.status d = success ∨ WebhookDelivery.status d = failed.

(** The completed timestamp is there exactly on terminal deliveries. *)
Definition consistent (d : WebhookDelivery.t) : Prop :=
  is_Some (WebhookDelivery.completedAt d) ↔ terminal d.

Section Invariants.

Context {any : Type}.
Implicit Types (w : World (any := any)) (c : Config (any := any)).

(** Every stored subscription is an object of the heap, stored once. *)
Definition registry_sound w : Prop :=
  NoDup (listWebhooks w) ∧
  Forall (λ r, r < length (webhook_heap w))%nat (listWebhooks w).

(** Every stored delivery is an object of the heap. *)
Definition store_sound w : Prop :=
  Forall (λ r, r < length (delivery_heap w))%nat (JSMap.values (deliveries w)).

(** A unit in flight holds references to objects of the heaps. *)
Definition unit_sound w (u : DeliveryUnit (any := any)) : Prop :=
  (of_webhook u < length (webhook_heap w))%nat ∧
  (of_delivery u < length (delivery_heap w))%nat.

Definition sound c : Prop :=
  registry_sound (world c) ∧
  store_sound (world c) ∧
  Forall (unit_sound (world c)) (units c) ∧
  Forall consistent (delivery_heap (world c)).

(** A unit in flight owns a pending record that counts the attempts
    the unit has started; while it waits for its backoff timer a retry
    is left and the failure is recorded. *)
Definition unit_owns w (u : DeliveryUnit (any := any)) : Prop :=
  ∃ d, delivery_heap w !! of_delivery u = Some d ∧
       WebhookDelivery.status d = pending ∧
       WebhookDelivery.attempts d = (attempt u + 1)%nat ∧
       (attempt u ≤ maxRetries)%nat ∧
       (awaited u = on_delay →
        (attempt u < maxRetries)%nat ∧ is_Some (WebhookDelivery.error d)).

(** What the attempt counter, the error and the response status of a
    record say about its status. *)
Definition accounted (d : WebhookDelivery.t) : Prop :=
  (1 ≤ WebhookDelivery.attempts d ≤ maxRetries + 1)%nat ∧
  (WebhookDelivery.status d = failed →
   WebhookDelivery.attempts d = (maxRetries + 1)%nat ∧
   is_Some (WebhookDelivery.error d)) ∧
  (WebhookDelivery.status d = success →
   is_Some (WebhookDelivery.responseStatus d)) ∧
  (WebhookDelivery.error d = None → WebhookDelivery.attempts d = 1%nat).

(** No two units in flight share a record. *)
Definition engaged c : Prop :=
  NoDup (of_delivery <$> units c) ∧
  Forall (unit_owns (world c)) (units c) ∧
  Forall accounted (delivery_heap (world c)).

End Invariants.

(** ** The life of a delivery record *)

(** A record as [sendWebhook] leaves it at its first [await]. *)
Definition fresh_record (d : WebhookDelivery.t) : Prop :=
  WebhookDelivery.status d = pending ∧
  WebhookDelivery.attempts d = 1%nat ∧
  WebhookDelivery.responseStatus d = None ∧
  WebhookDelivery.responseBody d = None ∧
  WebhookDelivery.error d = None ∧
  WebhookDelivery.completedAt d = None.

(** What one turn of the event loop can do to a record. *)
Inductive record_step : WebhookDelivery.t → WebhookDelivery.t → Prop :=
  | retry_scheduled d (e : string) :
      WebhookDelivery.status d = pending →
      (WebhookDelivery.attempts d ≤ maxRetries)%nat →
      record_step d (WebhookDelivery.with_error e d)
  | attempt_started d :
      WebhookDelivery.status d = pending →
      is_Some (WebhookDelivery.error d) →
      (WebhookDelivery.attempts d ≤ maxRetries)%nat →
      record_step d (WebhookDelivery.with_attempts (WebhookDelivery.attempts d + 1) d)
  | delivery_succeeded d (status at_ : Z) :
      WebhookDelivery.status d = pending →
      ok status = true →
      record_step d
        (WebhookDelivery.with_completedAt at_
           (WebhookDelivery.with_responseStatus status
              (WebhookDelivery.with_status success d)))
  | delivery_exhausted d (e : string) (at_ : Z) :
      WebhookDelivery.status d = pending →
      WebhookDelivery.attempts d = (maxRetries + 1)%nat →
      record_step d
        (WebhookDelivery.with_completedAt at_
           (WebhookDelivery.with_status failed
              (WebhookDelivery.with_error e d))).

(** A webhook that passed the validation of [registerWebhook]. *)
Definition validated (URL_parses : string → bool) (o : WebhookConfig.t) : Prop :=
  URL_parses (WebhookConfig.url o) = true ∧
  WebhookConfig.events o ≠ [] ∧
  WebhookConfig.id o ≠ "" ∧
  WebhookConfig.retryCount o = 0.

(** The value of a header of a request, if it is there. *)
Definition header (name : string) (q : Request.t) : option string :=
  JSMap.get name (Request.headers q).

(** What the response fields of a record say. *)
Definition answered (d : WebhookDelivery.t) : Prop :=
  WebhookDelivery.responseBody d = None ∧
  (is_Some (WebhookDelivery.responseStatus d) ↔ WebhookDelivery.status d = success) ∧
  (∀ s, WebhookDelivery.responseStatus d = Some s → ok s = true).

(** The timers set and the requests sent, in a trace. *)
Definition timers {any : Type} (t : list (Effect any)) : list (option Z) :=
  omap (λ e, match e with SetTimeout ms => Some ms | _ => None end) t.

Definition requests {any : Type} (t : list (Effect any)) : list Request.t :=
  omap (λ e, match e with Fetch q => Some q | _ => None end) t.

(** A registration request that passes both the check of the handler
    and the validation of the service: a URL that is a non-empty
    string and parses, and an array of events that is not empty. *)
Definition acceptable (URL_parses : string → bool)
    (url : option string) (events : option (list string)) : bool :=
  match url, events with
  | Some u, Some (_ :: _) => negb (bool_decide (u = "")) && URL_parses u
  | _, _ => false
  end.

(** Every entry of the registry holds an object that carries the id
    it is stored under. *)
Definition entries_keyed {any : Type} (w : World (any := any)) : Prop :=
  ∀ k r, (k, r) ∈ webhooks w →
         ∃ o, webhook_heap w !! r = Some o ∧ WebhookConfig.id o = k.

(** The deliveries that [POST /test] waits for at its [await]. *)
Definition awaited_by {any : Type}
    (begun : Completion (Response.t + ref * list (Progress (any := any)))) :
    list DeliveryUnit :=
  match begun with
  | Normal (inr (_, ps)) => suspended ps
  | _ => []
  end.

(** ** The sample service at work *)

Module Scenario.

(** The id of the sample subscription and of the delivery that the
    sample event starts. *)
Definition hook : string := "1700000000000-1k4fzyo82".
Definition delivery : string := "1700000000006-7k4fzyo82".

(** The sample service with its subscription, nothing in flight. *)
Definition registered : Config (any := string) := mkConfig Sample.one_webhook [].

Definition subscription : WebhookConfig.t :=
  WebhookConfig.mk hook "https://example.org/hook" ["payout"] (Some "s3cret")
    true 1700000000002 0.

(** The unit in flight once the sample event is dispatched, and the
    record it owns. *)
Definition in_flight : DeliveryUnit (any := string) :=
  mkUnit 0%nat
    (WebhookEvent.mk "payout" "{}" 1700000000003 "1700000000004-5k4fzyo82")
    0%nat 0%nat on_executeDelivery.

Definition record : WebhookDelivery.t :=
  WebhookDelivery.mk delivery hook "1700000000004-5k4fzyo82" pending 1%nat
    None None None 1700000000008 None.

(** The endpoint answers that unit with 204. *)
Definition delivered : Config (any := string) :=
  let dispatch :=
    triggerEvent Sample.JSON_stringify Sample.Date_now Sample.Math_random
      "payout" "{}" Sample.one_webhook in
  let result :=
    sendWebhook_settled Sample.JSON_stringify Sample.Date_now Sample.Math_random
      in_flight (Responded 204 "") dispatch.2 in
  mkConfig result.2 (delete 0%nat ([] ++ started dispatch.1) ++ continued result.1).

Definition delivered_record : WebhookDelivery.t :=
  WebhookDelivery.mk delivery hook "1700000000004-5k4fzyo82" success 1%nat
    (Some 204) None None 1700000000008 (Some 1700000000011).

(** The subscription is deleted while the delivery is in flight. *)
Definition unsubscribed : Config (any := string) :=
  let dispatch :=
    triggerEvent Sample.JSON_stringify Sample.Date_now Sample.Math_random
      "payout" "{}" Sample.one_webhook in
  mkConfig (deleteWebhook hook dispatch.2).2 ([] ++ started dispatch.1).

(** The data of the test event of the API, as JSON text. *)
Definition test_data : string :=
  "{" +:+ Sample.quoted "message" +:+ ":" +:+ Sample.quoted "This is a test event" +:+ "}".

(** The subscription is deleted and another endpoint subscribes to
    [payout]. *)
Definition resubscribed : Config (any := string) :=
  mkConfig
    ((registerWebhook Sample.URL_parses Sample.Date_now Sample.Math_random
        "https://example.org/other" ["payout"] None
        ((deleteWebhook hook (world registered)).2)).2)
    (units registered).

(** A serialiser that, like [JSON.stringify], throws on a [BigInt],
    here the data [12n]. *)
Definition stringify (e : WebhookEvent.t string) : Completion string :=
  if decide (WebhookEvent.data e = "12n")
  then Throw (TypeError "Do not know how to serialize a BigInt")
  else Normal (Sample.JSON_stringify e).

(** The delivery that [POST /test] for the endpoint [probe] starts
    on the sample service, and the service once that endpoint has
    answered it. *)
Definition probe : DeliveryUnit (any := string) :=
  mkUnit 1%nat
    (WebhookEvent.mk "test" test_data 1700000000008 "1700000000009-10k4fzyo8")
    0%nat 0%nat on_executeDelivery.

Definition probed : Config (any := string) :=
  let begun :=
    post_test Sample.URL_parses Sample.JSON_stringify Sample.Date_now Sample.Math_random
      test_data (Some "https://example.org/probe") None (world registered) in
  let result :=
    sendWebhook_settled Sample.JSON_stringify Sample.Date_now Sample.Math_random
      probe (Responded 200 "ok") (begun.2) in
  mkConfig (result.2)
    (delete 0%nat (units registered ++ awaited_by (begun.1)) ++ continued (result.1)).

End Scenario.
(** * Properties *)

(** ** Signature service *)

(** The model of [crypto] on published test vectors: FIPS 180-2
    appendix B.1, and RFC 4231 test cases 2 and 6 (a key longer than
    the block). *)
Example sha256_abc :
  Hex.of_hash (SHA256.hash (bytes_of "abc")) =
    "ba7816bf8f01cfea414140de5dae2223b00361a396177a9cb410ff61f20015ad".
Proof. vm_compute. reflexivity. Qed.

Example hmac_sha256_rfc4231_case2 :
  hmac_sha256_hex "Jefe" "what do ya want for nothing?" =
    "5bdcc146bf60754e6a042426089575c75a003f089d2739839dec58b964ec3843".
Proof. vm_compute. reflexivity. Qed.

Example hmac_sha256_rfc4231_case6 :
  Hex.of_hash
    (HMAC.sha256 (repeat 170 131)
       (bytes_of "Test Using Larger Than Block-Size Key - Hash Key First")) =
    "60e431591ee0b67f0d8a26aacbf5b77f8e0bc6213728c5140546040f0ee37f54".
Proof. vm_compute. reflexivity. Qed.

Lemma bytes_of_length (s : string) : length (bytes_of s) = String.length s.
Proof. induction s as [|c s IH]; simpl; [reflexivity | now rewrite IH]. Qed.

Lemma N_of_ascii_inj (a b : ascii) : N_of_ascii a = N_of_ascii b → a = b.
Proof.
  intros H. rewrite <- (ascii_N_embedding a), <- (ascii_N_embedding b).
  now rewrite H.
Qed.

Lemma bytes_of_inj (s1 s2 : string) : bytes_of s1 = bytes_of s2 → s1 = s2.
Proof.
  revert s2. induction s1 as [|c s1 IH]; intros [|c' s2]; simpl; try discriminate.
  - reflexivity.
  - intros H. injection H as Hc Hs. f_equal.
    + apply N_of_ascii_inj. lia.
    + now apply IH.
Qed.

Lemma append_length (s1 s2 : string) :
  String.length (s1 +:+ s2) = (String.length s1 + String.length s2)%nat.
Proof. induction s1 as [|c s1 IH]; simpl; [reflexivity | now rewrite IH]. Qed.

Lemma of_hash_length (r : SHA256.registers) : String.length (Hex.of_hash r) = 64%nat.
Proof. destruct r as [[[[[[[a b] c] d] e] f] g] h]. reflexivity. Qed.

Lemma nibble_hex_digit (x i : Z) : hex_digit (Hex.nibble x i).
Proof.
  unfold Hex.nibble. change 15 with (Z.ones 4). rewrite Z.land_ones by lia.
  set (n := Z.shiftr x (4 * i) mod 2 ^ 4).
  assert (Hn : 0 <= n < 16) by (apply Z.mod_pos_bound; lia).
  assert (Hcases : n = 0 ∨ n = 1 ∨ n = 2 ∨ n = 3 ∨ n = 4 ∨ n = 5 ∨ n = 6 ∨ n = 7 ∨
                   n = 8 ∨ n = 9 ∨ n = 10 ∨ n = 11 ∨ n = 12 ∨ n = 13 ∨ n = 14 ∨
                   n = 15) by lia.
  unfold hex_digit.
  repeat (destruct Hcases as [-> | Hcases]; [simpl; tauto |]).
  subst n. rewrite Hcases. simpl. tauto.
Qed.

Lemma word_hex_digits (x : Z) (rest : string) :
  Forall hex_digit (list_ascii_of_string rest) →
  Forall hex_digit (list_ascii_of_string (Hex.word x rest)).
Proof.
  intros Hrest. unfold Hex.word. simpl.
  repeat (apply Forall_cons; split; [apply nibble_hex_digit |]). exact Hrest.
Qed.

Lemma of_hash_hex_digits (r : SHA256.registers) :
  Forall hex_digit (list_ascii_of_string (Hex.of_hash r)).
Proof.
  destruct r as [[[[[[[a b] c] d] e] f] g] h]. unfold Hex.of_hash.
  repeat apply word_hex_digits. apply Forall_nil_2.
Qed.

Lemma hmac_sha256_hex_length (secret payload : string) :
  String.length (hmac_sha256_hex secret payload) = 64%nat.
Proof. apply of_hash_length. Qed.

Lemma generateSignature_length (payload secret : string) :
  String.length (generateSignature payload secret) = 71%nat.
Proof.
  unfold generateSignature. rewrite append_length, hmac_sha256_hex_length.
  reflexivity.
Qed.

(** A signature of any other byte length makes the comparison throw. *)
Lemma verifySignature_other_length (payload signature secret : string) :
  String.length signature ≠ 71%nat →
  verifySignature payload signature secret =
    Throw (RangeError "Input buffers must have the same byte length").
Proof.
  intros Hlen. unfold verifySignature, timingSafeEqual.
  rewrite !bytes_of_length, generateSignature_length.
  rewrite bool_decide_eq_false_2 by exact Hlen. reflexivity.
Qed.

(** A signature of the right byte length is compared. *)
Lemma verifySignature_same_length (payload signature secret : string) :
  String.length signature = 71%nat →
  verifySignature payload signature secret =
    Normal (bool_decide (signature = generateSignature payload secret)).
Proof.
  intros Hlen. unfold verifySignature, timingSafeEqual.
  rewrite !bytes_of_length, generateSignature_length.
  rewrite bool_decide_eq_true_2 by exact Hlen. f_equal.
  apply bool_decide_ext. split; [apply bytes_of_inj | congruence].
Qed.

Lemma append_inj_r (p s1 s2 : string) : p +:+ s1 = p +:+ s2 → s1 = s2.
Proof. induction p as [|c p IH]; simpl; [tauto | intros H; injection H; auto]. Qed.

(** C1.  [verifySignature] does not return [false] on a signature
    string of the wrong length: whatever the payload and the secret,
    the malformed signature [sha256=abc] makes it throw a
    [RangeError], because [crypto.timingSafeEqual] refuses buffers of
    different byte lengths. *)
Theorem verifySignature_throws_on_malformed_signature (payload secret : string) :
  verifySignature payload "sha256=abc" secret =
    Throw (RangeError "Input buffers must have the same byte length").
Proof. apply verifySignature_other_length. simpl. lia. Qed.

(** C2, as stated, fails: the secrets [k] and [k] followed by a zero
    byte differ, the signature made with the first has the expected
    length, and it verifies under the second.  HMAC fills a short key
    with zero bytes up to the block size. *)
Lemma verifySignature_accepts_zero_extended_secret :
  "k" ≠ "k" +:+ Sample.NUL ∧
  String.length (generateSignature "p" "k") =
    String.length (generateSignature "p" ("k" +:+ Sample.NUL)) ∧
  verifySignature "p" (generateSignature "p" "k") ("k" +:+ Sample.NUL) = Normal true.
Proof.
  split; [discriminate | split].
  - now rewrite !generateSignature_length.
  - vm_compute. reflexivity.
Qed.

(** C2, amended.  A signature is [sha256=] followed by the sixty-four
    hex digits of the HMAC-SHA256 of the payload under the secret, a
    function of its two arguments alone; it verifies against the
    payload and secret it was made from; against any payload and
    secret, verification returns (it does not throw) and returns
    [true] exactly when the two digests are the same. *)
Theorem sign_then_verify (payload secret payload' secret' : string) :
  generateSignature payload secret = "sha256=" +:+ hmac_sha256_hex secret payload ∧
  String.length (hmac_sha256_hex secret payload) = 64%nat ∧
  Forall hex_digit (list_ascii_of_string (hmac_sha256_hex secret payload)) ∧
  verifySignature payload (generateSignature payload secret) secret = Normal true ∧
  verifySignature payload' (generateSignature payload secret) secret' =
    Normal (bool_decide
              (hmac_sha256_hex secret payload = hmac_sha256_hex secret' payload')).
Proof.
  split; [reflexivity | split; [apply hmac_sha256_hex_length | split; [| split]]].
  - apply of_hash_hex_digits.
  - rewrite verifySignature_same_length by apply generateSignature_length.
    now rewrite bool_decide_eq_true_2.
  - rewrite verifySignature_same_length by apply generateSignature_length.
    f_equal. apply bool_decide_ext. unfold generateSignature. split.
    + apply append_inj_r.
    + congruence.
Qed.

(** ** Maps *)

Section JSMapFacts.
Context {V : Type}.
Implicit Types (m : JSMap.t V) (k : string) (v : V).

Lemma get_delete_eq k m : JSMap.get k (JSMap.delete k m) = None.
Proof.
  induction m as [|[k' v'] m IH]; simpl; [reflexivity |].
  destruct (decide (k = k')) as [->|Hne]; simpl; [exact IH |].
  destruct (decide (k = k')); [contradiction | exact IH].
Qed.

Lemma get_delete_ne k k' m :
  k ≠ k' → JSMap.get k' (JSMap.delete k m) = JSMap.get k' m.
Proof.
  intros Hne. induction m as [|[k0 v0] m IH]; simpl; [reflexivity |].
  destruct (decide (k = k0)) as [->|Hk]; simpl.
  - destruct (decide (k' = k0)); [congruence | exact IH].
  - destruct (decide (k' = k0)); [reflexivity | exact IH].
Qed.

Lemma delete_absent k m : JSMap.get k m = None → JSMap.delete k m = m.
Proof.
  induction m as [|[k' v'] m IH]; simpl; [reflexivity |].
  destruct (decide (k = k')); [discriminate | intros H; now rewrite IH].
Qed.

Lemma delete_sublist k m : JSMap.delete k m `sublist_of` m.
Proof.
  induction m as [|[k' v'] m IH]; simpl; [constructor |].
  destruct (decide (k = k')); [now apply sublist_cons | now apply sublist_skip].
Qed.

Lemma get_set_eq k v m : JSMap.get k (JSMap.set k v m) = Some v.
Proof.
  induction m as [|[k' v'] m IH]; simpl.
  - now destruct (decide (k = k)).
  - destruct (decide (k = k')) as [->|Hne]; simpl.
    + now destruct (decide (k' = k')).
    + destruct (decide (k = k')); [contradiction | exact IH].
Qed.

Lemma get_set_ne k k' v m :
  k ≠ k' → JSMap.get k' (JSMap.set k v m) = JSMap.get k' m.
Proof.
  intros Hne. induction m as [|[k0 v0] m IH]; simpl.
  - destruct (decide (k' = k)); [congruence | reflexivity].
  - destruct (decide (k = k0)) as [->|Hk]; simpl.
    + destruct (decide (k' = k0)); [congruence | reflexivity].
    + destruct (decide (k' = k0)); [reflexivity | exact IH].
Qed.

Lemma get_Some_values k v m : JSMap.get k m = Some v → v ∈ JSMap.values m.
Proof.
  unfold JSMap.values. induction m as [|[k' v'] m IH]; simpl; [discriminate |].
  destruct (decide (k = k')); intros H.
  - injection H as ->. apply list_elem_of_here.
  - apply list_elem_of_further, IH, H.
Qed.

Lemma values_set_elem k v m x :
  x ∈ JSMap.values (JSMap.set k v m) → x = v ∨ x ∈ JSMap.values m.
Proof.
  unfold JSMap.values. induction m as [|[k' v'] m IH]; simpl.
  - intros H%list_elem_of_singleton. now left.
  - destruct (decide (k = k')); simpl; intros H%elem_of_cons.
    + destruct H as [-> | H]; [now left | right; now apply list_elem_of_further].
    + destruct H as [-> | H]; [right; apply list_elem_of_here |].
      destruct (IH H) as [-> | Hin]; [now left |].
      right. now apply list_elem_of_further.
Qed.

Lemma values_set_NoDup k v m :
  NoDup (JSMap.values m) → v ∉ JSMap.values m →
  NoDup (JSMap.values (JSMap.set k v m)).
Proof.
  unfold JSMap.values. induction m as [|[k' v'] m IH]; simpl; intros Hnd Hv.
  - apply NoDup_singleton.
  - apply NoDup_cons in Hnd as [Hv' Hnd].
    apply not_elem_of_cons in Hv as [Hne Hv].
    destruct (decide (k = k')); simpl; apply NoDup_cons; split; auto.
    intros [-> | Hin]%values_set_elem; [congruence | contradiction].
Qed.

Lemma values_delete_sublist k m :
  JSMap.values (JSMap.delete k m) `sublist_of` JSMap.values m.
Proof. apply fmap_sublist, delete_sublist. Qed.

End JSMapFacts.

(** ** Registry, dispatcher and delivery store *)

Section Properties.

Context {any : Type}.
Context (URL_parses : string → bool).
Context (JSON_stringify : WebhookEvent.t any → string).
Context (Date_now : nat → Z) (Math_random : nat → string).

Implicit Types (w : World (any := any)).

(** What a refused registration does: it throws before it reads
    the clock or touches the registry. *)
Lemma registerWebhook_refuses
    (url : string) (events : list string) (secret : option string) w :
  URL_parses url = false ∨ events = [] →
  registerWebhook URL_parses Date_now Math_random url events secret w =
    (Throw (Error (if URL_parses url
                   then "At least one event type is required"
                   else "Invalid webhook URL")), w).
Proof.
  intros Hbad. unfold registerWebhook, try_catch, new_URL, mbind, M_bind, throw.
  destruct (URL_parses url) eqn:Hurl; simpl; [| reflexivity].
  destruct Hbad as [Hbad | ->]; [discriminate | reflexivity].
Qed.

(** C3.  When the URL does not parse, or the list of events is
    empty, [registerWebhook] throws a validation error as its
    completion and leaves the whole state of the service, the
    registry in particular, as it was. *)
Theorem registerWebhook_rejects_invalid_input
    (url : string) (events : list string) (secret : option string) w :
  URL_parses url = false ∨ events = [] →
  let result := registerWebhook URL_parses Date_now Math_random url events secret w in
  ∃ e, result.1 = Throw e ∧
       ValidationError e ∧
       (URL_parses url = false → e = Error "Invalid webhook URL") ∧
       result.2 = w ∧
       listWebhooks result.2 = listWebhooks w.
Proof.
  intros Hbad result. subst result. rewrite registerWebhook_refuses by exact Hbad.
  simpl. eexists. split; [reflexivity |]. split; [| split; [| split; reflexivity]].
  - destruct (URL_parses url); [now right | now left].
  - now intros ->.
Qed.

(** C9.  [deleteWebhook(id)] returns whether [id] was registered,
    after it [id] is not registered and every other id maps to what
    it did, and the delivery store with its records is untouched,
    so [getDeliveries] answers every query as before. *)
Theorem deleteWebhook_keeps_deliveries (id : string) w :
  let w' := (deleteWebhook id w).2 in
  (deleteWebhook id w).1 = Normal (bool_decide (is_Some (getWebhook id w))) ∧
  getWebhook id w' = None ∧
  (∀ id', id' ≠ id → getWebhook id' w' = getWebhook id' w) ∧
  listWebhooks w' `sublist_of` listWebhooks w ∧
  deliveries w' = deliveries w ∧
  delivery_heap w' = delivery_heap w ∧
  (∀ webhookId, getDeliveries webhookId w' = getDeliveries webhookId w).
Proof.
  unfold deleteWebhook, webhooks_delete, mbind, M_bind, JSMap.has, getWebhook.
  simpl. destruct (bool_decide (is_Some (JSMap.get id (webhooks w)))); simpl.
  all: repeat split; auto using get_delete_eq, get_delete_ne.
  all: unfold listWebhooks, JSMap.values; simpl;
    apply fmap_sublist, delete_sublist.
Qed.

(** C10.  When no stored subscription is both active and subscribed
    to the type, [triggerEvent] starts no delivery, leaves the
    registry, the delivery store and both heaps as they were, and
    its only effect is the [event:triggered] notification. *)
Theorem triggerEvent_without_match (type : string) (data : any) w :
  filter (λ r, matches type w r) (listWebhooks w) = [] →
  let w' := (triggerEvent JSON_stringify Date_now Math_random type data w).2 in
  (triggerEvent JSON_stringify Date_now Math_random type data w).1 = Normal [] ∧
  webhooks w' = webhooks w ∧
  webhook_heap w' = webhook_heap w ∧
  deliveries w' = deliveries w ∧
  delivery_heap w' = delivery_heap w ∧
  ∃ event, WebhookEvent.type event = type ∧ WebhookEvent.data event = data ∧
           trace w' = trace w ++ [Emit (event_triggered event)].
Proof.
  intros Hnone. unfold triggerEvent, mbind, M_bind, gets. simpl.
  unfold listWebhooks in Hnone.
  change (filter _ (JSMap.values (webhooks w)))
    with (filter (λ r, matches type w r) (JSMap.values (webhooks w))).
  rewrite Hnone. simpl. repeat split; try reflexivity.
  eexists. repeat split; reflexivity.
Qed.

End Properties.

(** ** Delivery engine, step by step *)

Lemma executeDelivery_settled_failure (o : FetchOutcome) :
  succeeds o = false →
  ∃ e, executeDelivery_settled o = Throw e ∧ Exception.message e = detail o.
Proof.
  destruct o as [status body | reason]; simpl; intros H.
  - unfold executeDelivery_settled. rewrite H. eexists; split; reflexivity.
  - eexists; split; reflexivity.
Qed.

Lemma executeDelivery_settled_success (o : FetchOutcome) :
  succeeds o = true →
  ∃ status body, o = Responded status body ∧
                 executeDelivery_settled o = Normal (status, body).
Proof.
  destruct o as [status body | reason]; simpl; intros H; [| discriminate].
  exists status, body. unfold executeDelivery_settled. now rewrite H.
Qed.

Section Engine.

Context {any : Type}.
Context (JSON_stringify : WebhookEvent.t any → string).
Context (Date_now : nat → Z) (Math_random : nat → string).

Implicit Types (w : World (any := any)) (event : WebhookEvent.t any).

Ltac run := unfold mbind, M_bind, mret, M_ret, gets, modify, effect; simpl.

(** The head of the loop, while attempts remain. *)
Lemma sendWebhook_loop_enters (webhook delivery : ref) event (k : nat) w config o :
  webhook_heap w !! webhook = Some config →
  delivery_heap w !! delivery = Some o →
  (k ≤ maxRetries)%nat →
  ∃ q,
    sendWebhook_loop JSON_stringify Date_now Math_random webhook event delivery k w =
      (Normal (Suspended (mkUnit webhook event delivery k on_executeDelivery)),
       mkWorld (webhooks w) (deliveries w) (webhook_heap w)
         (<[delivery := WebhookDelivery.with_attempts (k + 1) o]> (delivery_heap w))
         (trace w ++ [Fetch q]) (S (S (tick w)))).
Proof.
  intros Hw Hd Hk. unfold sendWebhook_loop.
  destruct (Nat.leb_spec k maxRetries) as [_ | Hlt]; [| lia].
  unfold write_delivery, executeDelivery, read_webhook, generateId, now,
    random36, fetch. run.
  rewrite Hd. simpl. rewrite Hw. simpl. eexists. reflexivity.
Qed.

(** The head of the loop, once the attempts are used up. *)
Lemma sendWebhook_loop_leaves (webhook delivery : ref) event (k : nat) w :
  (maxRetries < k)%nat →
  sendWebhook_loop JSON_stringify Date_now Math_random webhook event delivery k w =
    (Normal (Returned delivery), w).
Proof.
  intros Hk. unfold sendWebhook_loop.
  destruct (Nat.leb_spec k maxRetries) as [Hle | _]; [lia | reflexivity].
Qed.

(** [sendWebhook] up to its first [await]: the record is created
    pending, stored under its id, the first attempt is counted and
    its request is sent. *)
Lemma sendWebhook_starts (webhook : ref) event w config :
  webhook_heap w !! webhook = Some config →
  let id := pretty (Date_now (tick w)) +:+ "-" +:+
            substring 2 9 (Math_random (S (tick w))) in
  let delivery := length (delivery_heap w) in
  ∃ q,
    sendWebhook JSON_stringify Date_now Math_random webhook event w =
      (Normal (Suspended (mkUnit webhook event delivery 0 on_executeDelivery)),
       mkWorld (webhooks w) (JSMap.set id delivery (deliveries w)) (webhook_heap w)
         (delivery_heap w ++
            [WebhookDelivery.mk id (WebhookConfig.id config) (WebhookEvent.id event)
               pending 1 None None None (Date_now (S (S (tick w)))) None])
         (trace w ++ [Fetch q]) (5 + tick w)).
Proof.
  intros Hw id delivery. unfold sendWebhook.
  unfold generateId, now, random36, read_webhook, new_delivery, deliveries_set.
  run. rewrite Hw. simpl.
  match goal with
  | |- context [sendWebhook_loop _ _ _ ?a ?b ?c ?k ?w'] =>
      edestruct (sendWebhook_loop_enters a c b k w' config) as [q Hq];
        [exact Hw | apply list_lookup_middle; reflexivity
        | unfold maxRetries; lia |]
  end.
  simpl in Hq. rewrite Hq. exists q.
  rewrite insert_app_r_alt, Nat.sub_diag by lia. reflexivity.
Qed.

Ltac rewrite_heap Hd :=
  repeat (first [ rewrite list_lookup_insert_eq by (eapply lookup_lt_Some, Hd)
                | rewrite list_insert_insert_eq ]; simpl).

(** A 2xx answer: the record becomes [success], with the status code
    and the completed timestamp, and the unit returns. *)
Lemma sendWebhook_settled_success (u : DeliveryUnit) (status : Z) (body : string) w o :
  delivery_heap w !! of_delivery u = Some o →
  ok status = true →
  sendWebhook_settled JSON_stringify Date_now Math_random u (Responded status body) w =
    (Normal (Returned (of_delivery u)),
     mkWorld (webhooks w) (deliveries w) (webhook_heap w)
       (<[of_delivery u :=
            WebhookDelivery.with_completedAt (Date_now (tick w))
              (WebhookDelivery.with_responseStatus status
                 (WebhookDelivery.with_status success o))]> (delivery_heap w))
       (trace w ++ [Emit (delivery_success (of_delivery u) (of_webhook u) (of_event u))])
       (S (tick w))).
Proof.
  intros Hd Hok. unfold sendWebhook_settled, executeDelivery_settled.
  rewrite Hok. unfold write_delivery, now, emit. run.
  rewrite Hd. simpl. rewrite_heap Hd. reflexivity.
Qed.

(** A failed attempt with retries left: the error is recorded and
    the backoff timer is set. *)
Lemma sendWebhook_settled_retry (u : DeliveryUnit) (outcome : FetchOutcome) w o :
  delivery_heap w !! of_delivery u = Some o →
  succeeds outcome = false →
  (attempt u < maxRetries)%nat →
  sendWebhook_settled JSON_stringify Date_now Math_random u outcome w =
    (Normal (Suspended (mkUnit (of_webhook u) (of_event u) (of_delivery u)
                               (attempt u) on_delay)),
     mkWorld (webhooks w) (deliveries w) (webhook_heap w)
       (<[of_delivery u := WebhookDelivery.with_error (detail outcome) o]>
          (delivery_heap w))
       (trace w ++ [SetTimeout (retryDelays !! attempt u)])
       (tick w)).
Proof.
  intros Hd Hfail Hk. unfold sendWebhook_settled.
  destruct (executeDelivery_settled_failure outcome Hfail) as (e & -> & <-).
  destruct (Nat.ltb_spec (attempt u) maxRetries) as [_ | Hge]; [| lia].
  unfold write_delivery, delay. run. rewrite Hd. reflexivity.
Qed.

(** A failed attempt with no retry left: the record becomes
    [failed], with the error and the completed timestamp, no timer
    is set, and the unit returns. *)
Lemma sendWebhook_settled_exhausted (u : DeliveryUnit) (outcome : FetchOutcome) w o :
  delivery_heap w !! of_delivery u = Some o →
  succeeds outcome = false →
  (maxRetries ≤ attempt u)%nat →
  sendWebhook_settled JSON_stringify Date_now Math_random u outcome w =
    (Normal (Returned (of_delivery u)),
     mkWorld (webhooks w) (deliveries w) (webhook_heap w)
       (<[of_delivery u :=
            WebhookDelivery.with_completedAt (Date_now (tick w))
              (WebhookDelivery.with_status failed
                 (WebhookDelivery.with_error (detail outcome) o))]> (delivery_heap w))
       (trace w ++ [Emit (delivery_failed (of_delivery u) (of_webhook u) (of_event u))])
       (S (tick w))).
Proof.
  intros Hd Hfail Hk. unfold sendWebhook_settled.
  destruct (executeDelivery_settled_failure outcome Hfail) as (e & -> & <-).
  destruct (Nat.ltb_spec (attempt u) maxRetries) as [Hlt | _]; [lia |].
  unfold write_delivery, now, emit. run. rewrite Hd. simpl. rewrite_heap Hd.
  rewrite sendWebhook_loop_leaves by lia. reflexivity.
Qed.

(** *** A unit run on its own *)

(** A failed attempt with retries left, then the timer: the next
    attempt is counted and its request is sent. *)
Lemma answer_retry (u : DeliveryUnit) (outcome : FetchOutcome) w config o :
  webhook_heap w !! of_webhook u = Some config →
  delivery_heap w !! of_delivery u = Some o →
  succeeds outcome = false →
  (attempt u < maxRetries)%nat →
  ∃ q,
    answer JSON_stringify Date_now Math_random u outcome w =
      (Normal (Suspended (mkUnit (of_webhook u) (of_event u) (of_delivery u)
                                 (attempt u + 1) on_executeDelivery)),
       mkWorld (webhooks w) (deliveries w) (webhook_heap w)
         (<[of_delivery u :=
              WebhookDelivery.with_attempts (attempt u + 1 + 1)
                (WebhookDelivery.with_error (detail outcome) o)]> (delivery_heap w))
         (trace w ++ [SetTimeout (retryDelays !! attempt u); Fetch q])
         (S (S (tick w)))).
Proof.
  intros Hw Hd Hfail Hk. unfold answer, mbind, M_bind.
  rewrite (sendWebhook_settled_retry u outcome w o Hd Hfail Hk).
  unfold sendWebhook_delayed. simpl.
  match goal with
  | |- context [sendWebhook_loop _ _ _ ?a ?b ?c ?k ?w'] =>
      edestruct (sendWebhook_loop_enters a c b k w' config) as [q Hq];
        [exact Hw
        | simpl; apply list_lookup_insert_eq; eapply lookup_lt_Some, Hd
        | lia |]
  end.
  rewrite Hq. simpl. exists q.
  rewrite list_insert_insert_eq, <- app_assoc. reflexivity.
Qed.

Lemma answer_exhausted (u : DeliveryUnit) (outcome : FetchOutcome) w o :
  delivery_heap w !! of_delivery u = Some o →
  succeeds outcome = false →
  (maxRetries ≤ attempt u)%nat →
  answer JSON_stringify Date_now Math_random u outcome w =
    sendWebhook_settled JSON_stringify Date_now Math_random u outcome w.
Proof.
  intros Hd Hfail Hk. unfold answer, mbind, M_bind.
  now rewrite (sendWebhook_settled_exhausted u outcome w o Hd Hfail Hk).
Qed.

Lemma answer_success (u : DeliveryUnit) (status : Z) (body : string) w o :
  delivery_heap w !! of_delivery u = Some o →
  ok status = true →
  answer JSON_stringify Date_now Math_random u (Responded status body) w =
    sendWebhook_settled JSON_stringify Date_now Math_random u (Responded status body) w.
Proof.
  intros Hd Hok. unfold answer, mbind, M_bind.
  now rewrite (sendWebhook_settled_success u status body w o Hd Hok).
Qed.

Lemma detail_nonempty (o : FetchOutcome) : described o → detail o ≠ "".
Proof. destruct o; simpl; [discriminate | auto]. Qed.

Lemma drive_returned (d : ref) (outcomes : list FetchOutcome) w :
  drive JSON_stringify Date_now Math_random (Returned d) outcomes w =
    (Normal (Returned d), w).
Proof. now destruct outcomes. Qed.

(** Rewrites the next answer of a unit that retries. *)
Ltac retry Hw q :=
  match goal with
  | |- context [answer _ _ _ ?u ?o ?w'] =>
      let H := fresh "Hstep" in
      edestruct (answer_retry u o w') as [q H];
        [ exact Hw
        | simpl;
          first [ apply list_lookup_middle; reflexivity
                | apply list_lookup_insert_eq; rewrite length_app; simpl; lia ]
        | assumption
        | simpl; unfold maxRetries; lia
        | rewrite H; clear H; simpl; rewrite ?list_insert_insert_eq ]
  end.

(** C6.  When the first four attempts of a delivery all fail, four
    requests are sent and no more, whatever the transport would
    answer next; the timers set between them are of 1000, 5000 and
    15000 milliseconds, in this order, and none is set after the
    fourth failure; the unit returns its record with [status]
    [failed], [attempts] 4, the detail of the last failure as
    [error], which is not empty, and a completed timestamp.  (An
    error thrown by the transport is taken to carry a message.) *)
Theorem delivery_fails_after_four_attempts
    (webhook : ref) event (o1 o2 o3 o4 : FetchOutcome)
    (more : list FetchOutcome) w config :
  webhook_heap w !! webhook = Some config →
  succeeds o1 = false → succeeds o2 = false →
  succeeds o3 = false → succeeds o4 = false →
  described o4 →
  let result := deliver JSON_stringify Date_now Math_random webhook event
                  (o1 :: o2 :: o3 :: o4 :: more) w in
  let delivery := length (delivery_heap w) in
  result.1 = Normal (Returned delivery) ∧
  ∃ record q1 q2 q3 q4,
    delivery_heap result.2 !! delivery = Some record ∧
    WebhookDelivery.status record = failed ∧
    WebhookDelivery.attempts record = 4%nat ∧
    WebhookDelivery.error record = Some (detail o4) ∧
    detail o4 ≠ "" ∧
    is_Some (WebhookDelivery.completedAt record) ∧
    trace result.2 =
      trace w ++ [Fetch q1; SetTimeout (Some 1000);
                  Fetch q2; SetTimeout (Some 5000);
                  Fetch q3; SetTimeout (Some 15000);
                  Fetch q4; Emit (delivery_failed delivery webhook event)].
Proof.
  intros Hw H1 H2 H3 H4 Hmsg result delivery. subst result.
  unfold deliver, mbind, M_bind.
  destruct (sendWebhook_starts webhook event w config Hw) as [q1 ->].
  cbn [drive]. unfold mbind, M_bind.
  retry Hw q2. retry Hw q3. retry Hw q4.
  match goal with
  | |- context [answer _ _ _ ?u ?o ?w'] =>
      erewrite (answer_exhausted u o w'), (sendWebhook_settled_exhausted u o w');
        [ | simpl; apply list_lookup_insert_eq; rewrite length_app; simpl; lia
          | assumption | simpl; unfold maxRetries; lia
          | simpl; apply list_lookup_insert_eq; rewrite length_app; simpl; lia
          | assumption | simpl; unfold maxRetries; lia ]
  end.
  rewrite drive_returned. simpl. split; [reflexivity |].
  rewrite list_insert_insert_eq.
  eexists _, q1, q2, q3, q4.
  split; [apply list_lookup_insert_eq; rewrite length_app; simpl; lia |].
  simpl. repeat split; eauto using detail_nonempty.
  rewrite <- !app_assoc. reflexivity.
Qed.

(** C7, amended.  When the first attempt fails and the second gets
    a 2xx answer, two requests are sent, the unit returns its record
    with [status] [success], [attempts] 2, the status code of the
    answer and a completed timestamp, and nothing writes [error]
    after the success: the record still carries the detail of the
    first attempt's failure. *)
Theorem delivery_succeeds_on_second_attempt
    (webhook : ref) event (o1 : FetchOutcome) (status : Z) (body : string)
    (more : list FetchOutcome) w config :
  webhook_heap w !! webhook = Some config →
  succeeds o1 = false →
  ok status = true →
  let result := deliver JSON_stringify Date_now Math_random webhook event
                  (o1 :: Responded status body :: more) w in
  let delivery := length (delivery_heap w) in
  result.1 = Normal (Returned delivery) ∧
  ∃ record q1 q2,
    delivery_heap result.2 !! delivery = Some record ∧
    WebhookDelivery.status record = success ∧
    WebhookDelivery.attempts record = 2%nat ∧
    WebhookDelivery.responseStatus record = Some status ∧
    WebhookDelivery.error record = Some (detail o1) ∧
    is_Some (WebhookDelivery.completedAt record) ∧
    trace result.2 =
      trace w ++ [Fetch q1; SetTimeout (Some 1000); Fetch q2;
                  Emit (delivery_success delivery webhook event)].
Proof.
  intros Hw H1 Hok result delivery. subst result.
  unfold deliver, mbind, M_bind.
  destruct (sendWebhook_starts webhook event w config Hw) as [q1 ->].
  cbn [drive]. unfold mbind, M_bind.
  retry Hw q2.
  match goal with
  | |- context [answer _ _ _ ?u ?o ?w'] =>
      erewrite (answer_success u _ _ w'), (sendWebhook_settled_success u _ _ w');
        [ | simpl; apply list_lookup_insert_eq; rewrite length_app; simpl; lia
          | assumption
          | simpl; apply list_lookup_insert_eq; rewrite length_app; simpl; lia
          | assumption ]
  end.
  rewrite drive_returned. simpl. split; [reflexivity |].
  rewrite list_insert_insert_eq.
  eexists _, q1, q2.
  split; [apply list_lookup_insert_eq; rewrite length_app; simpl; lia |].
  simpl. repeat split; eauto.
  rewrite <- !app_assoc. reflexivity.
Qed.

End Engine.

(** C7, as stated, fails: the first attempt is answered 500 and the
    second 200; the delivery ends in [success] after two attempts and
    its record carries the error message of the first. *)
Lemma success_record_carries_error :
  let result := deliver Sample.JSON_stringify Sample.Date_now Sample.Math_random
                  0%nat Sample.event
                  [Responded 500 "down"; Responded 200 "ok"] Sample.one_webhook in
  ∃ record,
    delivery_heap result.2 !! 0%nat = Some record ∧
    WebhookDelivery.status record = success ∧
    WebhookDelivery.attempts record = 2%nat ∧
    WebhookDelivery.error record = Some "HTTP 500: down" ∧
    WebhookDelivery.error record ≠ None.
Proof.
  vm_compute. eexists. split; [reflexivity |]. repeat split. discriminate.
Qed.

(** Four failures on the sample service, a fifth answer unused. *)
Lemma delivery_fails_after_four_attempts_witness :
  let result := deliver Sample.JSON_stringify Sample.Date_now Sample.Math_random
                  0%nat Sample.event
                  [Responded 500 "a"; Responded 503 "b"; Rejected (Error "timeout");
                   Responded 500 "d"; Responded 200 "ok"] Sample.one_webhook in
  let delivery := length (delivery_heap Sample.one_webhook) in
  result.1 = Normal (Returned delivery) ∧
  ∃ record q1 q2 q3 q4,
    delivery_heap result.2 !! delivery = Some record ∧
    WebhookDelivery.status record = failed ∧
    WebhookDelivery.attempts record = 4%nat ∧
    WebhookDelivery.error record = Some (detail (Responded 500 "d")) ∧
    detail (Responded 500 "d") ≠ "" ∧
    is_Some (WebhookDelivery.completedAt record) ∧
    trace result.2 =
      trace Sample.one_webhook ++
        [Fetch q1; SetTimeout (Some 1000);
         Fetch q2; SetTimeout (Some 5000);
         Fetch q3; SetTimeout (Some 15000);
         Fetch q4; Emit (delivery_failed delivery 0%nat Sample.event)].
Proof.
  eapply (delivery_fails_after_four_attempts Sample.JSON_stringify
            Sample.Date_now Sample.Math_random 0%nat Sample.event
            (Responded 500 "a") (Responded 503 "b") (Rejected (Error "timeout"))
            (Responded 500 "d") [Responded 200 "ok"] Sample.one_webhook).
  - vm_compute. reflexivity.
  - reflexivity.
  - reflexivity.
  - reflexivity.
  - reflexivity.
  - exact I.
Defined.

(** A failure then a success on the sample service. *)
Lemma delivery_succeeds_on_second_attempt_witness :
  let result := deliver Sample.JSON_stringify Sample.Date_now Sample.Math_random
                  0%nat Sample.event
                  [Responded 500 "down"; Responded 200 "ok"] Sample.one_webhook in
  let delivery := length (delivery_heap Sample.one_webhook) in
  result.1 = Normal (Returned delivery) ∧
  ∃ record q1 q2,
    delivery_heap result.2 !! delivery = Some record ∧
    WebhookDelivery.status record = success ∧
    WebhookDelivery.attempts record = 2%nat ∧
    WebhookDelivery.responseStatus record = Some 200 ∧
    WebhookDelivery.error record = Some (detail (Responded 500 "down")) ∧
    is_Some (WebhookDelivery.completedAt record) ∧
    trace result.2 =
      trace Sample.one_webhook ++
        [Fetch q1; SetTimeout (Some 1000); Fetch q2;
         Emit (delivery_success delivery 0%nat Sample.event)].
Proof.
  eapply (delivery_succeeds_on_second_attempt Sample.JSON_stringify
            Sample.Date_now Sample.Math_random 0%nat Sample.event
            (Responded 500 "down") 200 "ok" [] Sample.one_webhook).
  - vm_compute. reflexivity.
  - reflexivity.
  - reflexivity.
Defined.

(** ** The running service *)

Section Running.

Context {any : Type}.
Context (URL_parses : string → bool).
Context (JSON_stringify : WebhookEvent.t any → string).
Context (Date_now : nat → Z) (Math_random : nat → string).

Implicit Types (w : World (any := any)) (event : WebhookEvent.t any).
Implicit Types (c : Config (any := any)).

Ltac run := unfold mbind, M_bind, mret, M_ret, gets, modify, effect; simpl.

(** A registration that passes validation allocates the subscription,
    active, stores it under its generated id and announces it. *)
Lemma registerWebhook_stores (url : string) (events : list string)
    (secret : option string) w :
  URL_parses url = true → events ≠ [] →
  let id := pretty (Date_now (tick w)) +:+ "-" +:+
            substring 2 9 (Math_random (S (tick w))) in
  let webhook := length (webhook_heap w) in
  registerWebhook URL_parses Date_now Math_random url events secret w =
    (Normal webhook,
     mkWorld (JSMap.set id webhook (webhooks w)) (deliveries w)
       (webhook_heap w ++
          [WebhookConfig.mk id url events secret true (Date_now (S (S (tick w)))) 0])
       (delivery_heap w)
       (trace w ++ [Emit (webhook_registered webhook)])
       (3 + tick w)).
Proof.
  intros Hurl Hev. unfold registerWebhook, try_catch, new_URL.
  run. rewrite Hurl. simpl.
  destruct events as [|e events]; [contradiction |]. reflexivity.
Qed.

(** A registration either is refused and changes nothing, or stores. *)
Lemma registerWebhook_cases (url : string) (events : list string)
    (secret : option string) w :
  (registerWebhook URL_parses Date_now Math_random url events secret w).2 = w ∨
  (URL_parses url = true ∧ events ≠ []).
Proof.
  destruct (URL_parses url) eqn:Hurl; [destruct events as [|e events] |].
  - left. rewrite registerWebhook_refuses; [reflexivity | now right].
  - now right.
  - left. rewrite registerWebhook_refuses; [reflexivity | now left].
Qed.

(** [updateWebhookStatus] writes the flag of the stored object, if
    there is one, and touches neither map nor a delivery. *)
Lemma updateWebhookStatus_frame (id : string) (active : bool) w :
  let w' := (updateWebhookStatus id active w).2 in
  webhooks w' = webhooks w ∧
  deliveries w' = deliveries w ∧
  delivery_heap w' = delivery_heap w ∧
  length (webhook_heap w') = length (webhook_heap w).
Proof.
  unfold updateWebhookStatus, write_webhook, emit. run.
  destruct (getWebhook id w) as [r|]; simpl; [| auto].
  destruct (webhook_heap w !! r); simpl; auto using length_insert.
Qed.

(** The fan-out of [triggerEvent]: one call of [sendWebhook] for
    each webhook of the list, each with a record of its own. *)
Lemma sendWebhook_fan_out event (rs : list ref) w :
  Forall (λ r, is_Some (webhook_heap w !! r)) rs →
  ∃ (news : list WebhookDelivery.t) (qs : list Request.t),
    let w' := (mapM (λ r, sendWebhook JSON_stringify Date_now Math_random r event) rs w).2 in
    (mapM (λ r, sendWebhook JSON_stringify Date_now Math_random r event) rs w).1 =
      Normal (imap (λ i r, Suspended (mkUnit r event (length (delivery_heap w) + i)%nat
                                             0 on_executeDelivery)) rs) ∧
    webhooks w' = webhooks w ∧
    webhook_heap w' = webhook_heap w ∧
    delivery_heap w' = delivery_heap w ++ news ∧
    Forall2 (λ r d, ∃ config,
               webhook_heap w !! r = Some config ∧
               WebhookDelivery.webhookId d = WebhookConfig.id config ∧
               WebhookDelivery.eventId d = WebhookEvent.id event ∧
               WebhookDelivery.status d = pending ∧
               WebhookDelivery.attempts d = 1%nat ∧
               WebhookDelivery.completedAt d = None) rs news ∧
    trace w' = trace w ++ (Fetch <$> qs) ∧
    length qs = length rs ∧
    (∀ x, x ∈ JSMap.values (deliveries w') →
          x ∈ JSMap.values (deliveries w) ∨
          (length (delivery_heap w) ≤ x < length (delivery_heap w'))%nat).
Proof.
  revert w. induction rs as [|r rs IH]; intros w Hrs.
  - exists [], []. simpl. rewrite !app_nil_r. repeat split; auto.
  - apply Forall_cons in Hrs as [[config Hr] Hrs].
    destruct (sendWebhook_starts JSON_stringify Date_now Math_random
                r event w config Hr) as [q Hq].
    simpl in Hq.
    set (f := λ r, sendWebhook JSON_stringify Date_now Math_random r event) in *.
    match type of Hq with
    | _ = (_, ?w1) =>
        destruct (IH w1) as (news & qs & Hres & Hwh & Hheap & Hdh & Hnew & Htr & Hlen & Hst);
          [exact Hrs |];
        assert (Hcons : mapM f (r :: rs) w =
                        match mapM f rs w1 with
                        | (Normal bs, w2) =>
                            (Normal (Suspended (mkUnit r event (length (delivery_heap w))
                                                       0 on_executeDelivery) :: bs), w2)
                        | (Throw e, w2) => (Throw e, w2)
                        end)
          by (cbn [mapM]; unfold mbind, M_bind, mret, M_ret; subst f; simpl;
              rewrite Hq; reflexivity);
        destruct (mapM f rs w1) as [res w2] eqn:Hrun
    end.
    simpl in Hres, Hwh, Hheap, Hdh, Hnew, Htr, Hst. subst res.
    eexists (_ :: news), (q :: qs). rewrite Hcons. simpl.
    rewrite Hwh, Hheap, Hdh, Htr, <- !app_assoc. simpl.
    split; [| repeat split].
    + f_equal. f_equal.
      * now rewrite Nat.add_0_r.
      * apply imap_ext. intros i x _. simpl. rewrite length_app. simpl.
        do 2 f_equal. lia.
    + constructor; [eauto 10 | exact Hnew].
    + simpl. now rewrite Hlen.
    + intros x Hx. rewrite Hdh in Hst. destruct (Hst x Hx) as [Hin | Hrange].
      * apply values_set_elem in Hin as [-> | Hin]; [right | now left].
        rewrite !length_app. simpl. lia.
      * right. rewrite !length_app in *. simpl in *. lia.
Qed.

Lemma matches_allocated (type : string) w (r : ref) :
  matches type w r → is_Some (webhook_heap w !! r).
Proof.
  unfold matches. destruct (webhook_heap w !! r); [intros _; now eexists | intros []].
Qed.

(** [triggerEvent] up to its [await]: the notification, then the
    fan-out over the stored subscriptions that match. *)
Lemma triggerEvent_fans_out (type : string) (data : any) w :
  let event :=
    WebhookEvent.mk type data (Date_now (tick w))
      (pretty (Date_now (S (tick w))) +:+ "-" +:+
       substring 2 9 (Math_random (S (S (tick w))))) in
  let matching := filter (λ r, matches type w r) (listWebhooks w) in
  let result := triggerEvent JSON_stringify Date_now Math_random type data w in
  ∃ (news : list WebhookDelivery.t) (qs : list Request.t),
    result.1 =
      Normal (imap (λ i r, Suspended (mkUnit r event (length (delivery_heap w) + i)%nat
                                             0 on_executeDelivery)) matching) ∧
    webhooks result.2 = webhooks w ∧
    webhook_heap result.2 = webhook_heap w ∧
    delivery_heap result.2 = delivery_heap w ++ news ∧
    Forall2 (λ r d, ∃ config,
               webhook_heap w !! r = Some config ∧
               WebhookDelivery.webhookId d = WebhookConfig.id config ∧
               WebhookDelivery.eventId d = WebhookEvent.id event ∧
               WebhookDelivery.status d = pending ∧
               WebhookDelivery.attempts d = 1%nat ∧
               WebhookDelivery.completedAt d = None) matching news ∧
    trace result.2 = trace w ++ Emit (event_triggered event) :: (Fetch <$> qs) ∧
    length qs = length matching ∧
    (∀ x, x ∈ JSMap.values (deliveries result.2) →
          x ∈ JSMap.values (deliveries w) ∨
          (length (delivery_heap w) ≤ x < length (delivery_heap result.2))%nat).
Proof.
  intros event matching result. subst result event matching.
  unfold triggerEvent, now, generateId, random36, emit, listWebhooks. run.
  match goal with
  | |- context [mapM (λ r, sendWebhook _ _ _ r ?event) ?l ?w0] =>
      destruct (sendWebhook_fan_out event l w0)
        as (news & qs & Hres & Hwh & Hheap & Hdh & Hnew & Htr & Hlen & Hst);
        [| revert Hres Hwh Hheap Hdh Htr Hst;
           destruct (mapM (λ r, sendWebhook JSON_stringify Date_now Math_random r event)
                       l w0) as [res w2];
           intros Hres Hwh Hheap Hdh Htr Hst ]
  end.
  { apply Forall_forall. intros r [Hr _]%list_elem_of_filter.
    now apply matches_allocated in Hr. }
  simpl in Hres, Hwh, Hheap, Hdh, Hnew, Htr, Hst. subst res.
  exists news, qs. simpl.
  rewrite Hwh, Hheap, Hdh, Htr, <- app_assoc. simpl.
  repeat split; auto.
  intros x Hx. rewrite <- Hdh. now apply Hst.
Qed.

(** *** What every reachable configuration satisfies *)

Lemma consistent_pending (d : WebhookDelivery.t) :
  WebhookDelivery.status d = pending → WebhookDelivery.completedAt d = None →
  consistent d.
Proof.
  unfold consistent, terminal. intros -> ->. split.
  - intros [x Hx]. discriminate.
  - intros [H | H]; discriminate.
Qed.

Lemma consistent_with_attempts (n : nat) (d : WebhookDelivery.t) :
  consistent d → consistent (WebhookDelivery.with_attempts n d).
Proof. auto. Qed.

Lemma consistent_with_error (e : string) (d : WebhookDelivery.t) :
  consistent d → consistent (WebhookDelivery.with_error e d).
Proof. auto. Qed.

Lemma consistent_success (at_ status : Z) (d : WebhookDelivery.t) :
  consistent (WebhookDelivery.with_completedAt at_
                (WebhookDelivery.with_responseStatus status
                   (WebhookDelivery.with_status success d))).
Proof. unfold consistent, terminal. simpl. split; eauto. Qed.

Lemma consistent_failed (at_ : Z) (e : string) (d : WebhookDelivery.t) :
  consistent (WebhookDelivery.with_completedAt at_
                (WebhookDelivery.with_status failed
                   (WebhookDelivery.with_error e d))).
Proof. unfold consistent, terminal. simpl. split; eauto. Qed.

Lemma sound_intro w (us : list DeliveryUnit) :
  NoDup (JSMap.values (webhooks w)) →
  (∀ r, r ∈ JSMap.values (webhooks w) → (r < length (webhook_heap w))%nat) →
  (∀ r, r ∈ JSMap.values (deliveries w) → (r < length (delivery_heap w))%nat) →
  (∀ u, u ∈ us → (of_webhook u < length (webhook_heap w))%nat ∧
                 (of_delivery u < length (delivery_heap w))%nat) →
  Forall consistent (delivery_heap w) →
  sound (mkConfig w us).
Proof.
  intros Hnd Hreg Hst Hus Hc. unfold sound, registry_sound, store_sound, listWebhooks.
  simpl. split; [split | split; [| split]]; auto.
  all: apply Forall_forall; auto.
Qed.

Lemma sound_elim w (us : list DeliveryUnit) :
  sound (mkConfig w us) →
  NoDup (JSMap.values (webhooks w)) ∧
  (∀ r, r ∈ JSMap.values (webhooks w) → (r < length (webhook_heap w))%nat) ∧
  (∀ r, r ∈ JSMap.values (deliveries w) → (r < length (delivery_heap w))%nat) ∧
  (∀ u, u ∈ us → (of_webhook u < length (webhook_heap w))%nat ∧
                 (of_delivery u < length (delivery_heap w))%nat) ∧
  Forall consistent (delivery_heap w).
Proof.
  unfold sound, registry_sound, store_sound, listWebhooks. simpl.
  intros ((Hnd & Hreg) & Hst & Hus & Hc).
  split; [| split; [| split; [| split]]]; auto.
  all: now apply Forall_forall.
Qed.

Lemma sound_initial : sound (mkConfig (any := any) initial []).
Proof.
  apply sound_intro; simpl.
  - apply NoDup_nil_2.
  - intros x Hx. inversion Hx.
  - intros x Hx. inversion Hx.
  - intros x Hx. inversion Hx.
  - apply Forall_nil_2.
Qed.

Lemma deleteWebhook_frame (id : string) w :
  let w' := (deleteWebhook id w).2 in
  webhooks w' = JSMap.delete id (webhooks w) ∧
  deliveries w' = deliveries w ∧
  webhook_heap w' = webhook_heap w ∧
  delivery_heap w' = delivery_heap w.
Proof.
  unfold deleteWebhook, webhooks_delete, emit. run.
  destruct (JSMap.has id (webhooks w)); simpl; auto.
Qed.

Lemma step_sound c c' : sound c → step URL_parses JSON_stringify Date_now Math_random c c' → sound c'.
Proof.
  intros Hs Hstep. destruct Hstep as
    [ w us url events secret | w us id | w us id active | w us type data
    | w us i u o Hu Haw | w us i u Hu Haw ];
    apply sound_elim in Hs as (Hnd & Hreg & Hst & Hus & Hc).
  - (* registerWebhook *)
    destruct (registerWebhook_cases url events secret w) as [-> | [Hurl Hev]];
      [now apply sound_intro |].
    rewrite registerWebhook_stores by assumption.
    apply sound_intro; simpl; auto.
    + apply values_set_NoDup; [exact Hnd |]. intros Hin%Hreg. lia.
    + intros r [-> | Hin]%values_set_elem; rewrite length_app; simpl; [lia |].
      apply Hreg in Hin. lia.
    + intros u Hin%Hus. rewrite length_app. simpl. lia.
  - (* deleteWebhook *)
    destruct (deleteWebhook_frame id w) as (Hw & Hd & Hwh & Hdh).
    destruct (deleteWebhook id w) as [res w']. simpl in *.
    apply sound_intro; rewrite ?Hw, ?Hd, ?Hwh, ?Hdh; auto.
    + eapply sublist_NoDup; [exact Hnd | apply values_delete_sublist].
    + intros r Hin. apply Hreg. eapply elem_of_sublist;
        [exact Hin | apply values_delete_sublist].
  - (* updateWebhookStatus *)
    destruct (updateWebhookStatus_frame id active w) as (Hw & Hd & Hdh & Hlen).
    destruct (updateWebhookStatus id active w) as [res w']. simpl in *.
    apply sound_intro; rewrite ?Hw, ?Hd, ?Hdh, ?Hlen; auto.
  - (* triggerEvent *)
    destruct (triggerEvent_fans_out type data w)
      as (news & qs & Hres & Hw & Hwh & Hdh & Hnew & Htr & Hlen & Hstore).
    destruct (triggerEvent JSON_stringify Date_now Math_random type data w)
      as [res w']. simpl in *. subst res.
    apply sound_intro; rewrite ?Hw, ?Hwh, ?Hdh; auto.
    + intros r Hin. rewrite <- Hdh. destruct (Hstore r Hin) as [Hold | Hrange];
        [| lia]. apply Hst in Hold. rewrite Hdh, length_app. lia.
    + intros u [Hin | Hin]%elem_of_app.
      * apply Hus in Hin. rewrite length_app. lia.
      * unfold suspended in Hin. apply list_elem_of_omap in Hin as (p & Hp & Hsome).
        apply elem_of_lookup_imap in Hp as (k & r & -> & Hk).
        injection Hsome as <-. simpl.
        apply list_elem_of_lookup_2 in Hk as Hr.
        apply list_elem_of_filter in Hr as [Hm Hr].
        split; [now apply Hreg |].
        apply Forall2_length in Hnew. apply lookup_lt_Some in Hk.
        rewrite length_app. lia.
    + apply Forall_app. split; [exact Hc |].
      eapply Forall2_Forall_r; [exact Hnew |].
      apply Forall_forall. intros r _ d (config & _ & _ & _ & Hp & _ & Hn).
      now apply consistent_pending.
  - (* the transport answers a unit *)
    apply list_elem_of_lookup_2 in Hu as Hin. destruct (Hus u Hin) as [Hwr Hdr].
    destruct (lookup_lt_is_Some_2 _ _ Hdr) as [d Hd].
    assert (Hrest : ∀ u', u' ∈ delete i us →
              (of_webhook u' < length (webhook_heap w))%nat ∧
              (of_delivery u' < length (delivery_heap w))%nat).
    { intros u' Hu'. apply Hus. eapply elem_of_sublist; [exact Hu' | apply sublist_delete]. }
    destruct (succeeds o) eqn:Ho.
    + destruct (executeDelivery_settled_success o Ho) as (status & body & -> & _).
      rewrite (sendWebhook_settled_success JSON_stringify Date_now Math_random
                 u status body w d Hd Ho).
      apply sound_intro; simpl; rewrite ?length_insert, ?app_nil_r; auto.
      apply Forall_insert; [exact Hc | apply consistent_success].
    + destruct (Nat.lt_ge_cases (attempt u) maxRetries) as [Hk | Hk].
      * rewrite (sendWebhook_settled_retry JSON_stringify Date_now Math_random
                   u o w d Hd Ho Hk).
        apply sound_intro; simpl; rewrite ?length_insert; auto.
        -- intros u' [Hu' | ->%list_elem_of_singleton]%elem_of_app; auto.
        -- apply Forall_insert; [exact Hc |]. apply consistent_with_error.
           eapply Forall_lookup_1; [exact Hc | exact Hd].
      * rewrite (sendWebhook_settled_exhausted JSON_stringify Date_now Math_random
                   u o w d Hd Ho Hk).
        apply sound_intro; simpl; rewrite ?length_insert, ?app_nil_r; auto.
        apply Forall_insert; [exact Hc | apply consistent_failed].
  - (* the timer of a unit fires *)
    apply list_elem_of_lookup_2 in Hu as Hin. destruct (Hus u Hin) as [Hwr Hdr].
    destruct (lookup_lt_is_Some_2 _ _ Hdr) as [d Hd].
    destruct (lookup_lt_is_Some_2 _ _ Hwr) as [config Hw].
    assert (Hrest : ∀ u', u' ∈ delete i us →
              (of_webhook u' < length (webhook_heap w))%nat ∧
              (of_delivery u' < length (delivery_heap w))%nat).
    { intros u' Hu'. apply Hus. eapply elem_of_sublist; [exact Hu' | apply sublist_delete]. }
    unfold sendWebhook_delayed.
    destruct (Nat.le_gt_cases (attempt u + 1) maxRetries) as [Hk | Hk].
    + destruct (sendWebhook_loop_enters JSON_stringify Date_now Math_random
                  (of_webhook u) (of_delivery u) (of_event u) (attempt u + 1)
                  w config d Hw Hd Hk) as [q ->].
      apply sound_intro; simpl; rewrite ?length_insert; auto.
      * intros u' [Hu' | ->%list_elem_of_singleton]%elem_of_app; auto.
      * apply Forall_insert; [exact Hc |]. apply consistent_with_attempts.
        eapply Forall_lookup_1; [exact Hc | exact Hd].
    + rewrite sendWebhook_loop_leaves by exact Hk. simpl. rewrite app_nil_r.
      now apply sound_intro.
Qed.

(** The invariants of the running service. *)
Lemma reachable_sound c :
  reachable URL_parses JSON_stringify Date_now Math_random c → sound c.
Proof.
  induction 1 as [| c c' _ IH Hstep]; [apply sound_initial |].
  eapply step_sound; eassumption.
Qed.

(** *** Dispatch *)

Lemma suspended_imap (g : nat → ref → DeliveryUnit (any := any)) (l : list ref) :
  suspended (imap (λ i r, Suspended (g i r)) l) = imap g l.
Proof.
  revert g. induction l as [|x l IH]; intros g; [reflexivity |].
  simpl. f_equal. apply (IH (g ∘ S)).
Qed.

Lemma of_webhook_imap (g : nat → ref → DeliveryUnit (any := any)) (l : list ref) :
  (∀ i x, of_webhook (g i x) = x) → of_webhook <$> imap g l = l.
Proof.
  intros Hg. revert g Hg. induction l as [|x l IH]; intros g Hg; [reflexivity |].
  simpl. rewrite Hg. f_equal. apply IH. intros i y. apply Hg.
Qed.

Lemma filter_fmap_length {A B : Type} (f : A → B) (b : B) `{EqDecision B} (l : list A) :
  length (filter (λ a, f a = b) l) = length (filter (λ x, x = b) (f <$> l)).
Proof.
  induction l as [|a l IH]; [reflexivity |].
  rewrite fmap_cons, !filter_cons. destruct (decide (f a = b)); simpl; now rewrite IH.
Qed.

Lemma NoDup_count (l : list ref) (r : ref) :
  NoDup l →
  length (filter (λ x, x = r) l) = if decide (r ∈ l) then 1%nat else 0%nat.
Proof.
  induction 1 as [|x l Hx Hnd IH]; [reflexivity |].
  rewrite filter_cons. destruct (decide (x = r)) as [-> | Hne]; simpl.
  - rewrite IH. destruct (decide (r ∈ l)); [contradiction |].
    destruct (decide (r ∈ r :: l)) as [_ | Hn]; [reflexivity |].
    destruct Hn. apply list_elem_of_here.
  - rewrite IH. destruct (decide (r ∈ l)) as [Hin | Hnin].
    + destruct (decide (r ∈ x :: l)) as [_ | Hn]; [reflexivity |].
      destruct Hn. now apply list_elem_of_further.
    + destruct (decide (r ∈ x :: l)) as [Hin | _]; [| reflexivity].
      apply elem_of_cons in Hin as [-> | Hin]; congruence.
Qed.

(** *** Ownership of the delivery records *)

Lemma NoDup_fmap_delete {A B : Type} (f : A → B) (l : list A) (i : nat) (x : A) :
  NoDup (f <$> l) → l !! i = Some x →
  NoDup (f <$> delete i l) ∧ f x ∉ f <$> delete i l.
Proof.
  intros Hnd Hi. rewrite delete_take_drop.
  rewrite <- (take_drop_middle l i x Hi), fmap_app, fmap_cons in Hnd.
  apply NoDup_app in Hnd as (H1 & H2 & H3). apply NoDup_cons in H3 as [H4 H5].
  rewrite fmap_app. split.
  - apply NoDup_app. split; [exact H1 | split; [| exact H5]].
    intros y Hy Hy'. apply (H2 y Hy). now apply list_elem_of_further.
  - intros [Hin | Hin]%elem_of_app; [| contradiction].
    apply (H2 _ Hin). apply list_elem_of_here.
Qed.

Lemma of_delivery_imap event (n : nat) (l : list ref) :
  of_delivery <$> imap (λ i r, mkUnit r event (n + i)%nat 0 on_executeDelivery) l =
    seq n (length l).
Proof.
  revert n. induction l as [|x l IH]; intros n; [reflexivity |].
  simpl. rewrite Nat.add_0_r. f_equal. rewrite <- IH. f_equal.
  apply imap_ext. intros i y _. simpl. f_equal. lia.
Qed.

Lemma unit_owns_heap w w' (u : DeliveryUnit) :
  delivery_heap w' = delivery_heap w → unit_owns w u → unit_owns w' u.
Proof. unfold unit_owns. now intros ->. Qed.

Lemma unit_owns_other w (u : DeliveryUnit) (r : ref) (d : WebhookDelivery.t) heap' :
  of_delivery u ≠ r →
  heap' = <[r := d]> (delivery_heap w) →
  unit_owns w u →
  unit_owns (mkWorld (webhooks w) (deliveries w) (webhook_heap w) heap'
               (trace w) (tick w)) u.
Proof.
  intros Hne -> (d0 & Hd0 & Hrest). exists d0. simpl.
  rewrite list_lookup_insert_ne by congruence. auto.
Qed.

Lemma engaged_frame w w' (us : list DeliveryUnit) :
  delivery_heap w' = delivery_heap w →
  engaged (mkConfig w us) → engaged (mkConfig w' us).
Proof.
  intros Hh (Hnd & Hown & Hacc). unfold engaged. simpl in *. rewrite Hh.
  repeat split; auto.
  eapply Forall_impl; [exact Hown |]. intros u. now apply unit_owns_heap.
Qed.

Lemma engaged_initial : engaged (mkConfig (any := any) initial []).
Proof. repeat split; simpl; constructor. Qed.

(** A unit in flight is the only writer of its record. *)
Lemma step_engaged c c' :
  sound c → engaged c →
  step URL_parses JSON_stringify Date_now Math_random c c' → engaged c'.
Proof.
  intros Hs He Hstep. destruct Hstep as
    [ w us url events secret | w us id | w us id active | w us type data
    | w us i u o Hu Haw | w us i u Hu Haw ].
  - (* registerWebhook *)
    apply (engaged_frame w); [| exact He].
    destruct (registerWebhook_cases url events secret w) as [-> | [Hurl Hev]];
      [reflexivity |].
    now rewrite registerWebhook_stores.
  - apply (engaged_frame w); [| exact He]. apply deleteWebhook_frame.
  - apply (engaged_frame w); [| exact He]. apply updateWebhookStatus_frame.
  - (* triggerEvent *)
    apply sound_elim in Hs as (_ & _ & _ & Hus & _).
    destruct He as (Hnd & Hown & Hacc). simpl in Hnd, Hown, Hacc.
    destruct (triggerEvent_fans_out type data w)
      as (news & qs & Hres & _ & _ & Hdh & Hnew & _ & _ & _).
    destruct (triggerEvent JSON_stringify Date_now Math_random type data w)
      as [res w']. simpl in Hres, Hdh. subst res.
    unfold engaged, started. simpl. rewrite suspended_imap, Hdh.
    split; [| split].
    + rewrite fmap_app, of_delivery_imap. apply NoDup_app.
      split; [exact Hnd | split; [| apply NoDup_seq]].
      intros r (u & -> & Hin)%list_elem_of_fmap Hseq%elem_of_seq.
      apply Hus in Hin. lia.
    + apply Forall_app. split.
      * apply Forall_forall. intros u Hin.
        destruct (proj1 (Forall_forall (unit_owns w) us) Hown u Hin)
          as (d & Hd & Hrest).
        exists d. simpl. rewrite Hdh.
        rewrite lookup_app_l by (eapply lookup_lt_Some, Hd). auto.
      * apply Forall_forall. intros u (k & r & -> & Hk)%elem_of_lookup_imap.
        destruct (Forall2_lookup_l _ _ _ _ _ Hnew Hk)
          as (d & Hd & config & _ & _ & _ & Hp & Hn & _).
        exists d. simpl. rewrite Hdh, lookup_app_r by lia.
        replace (length (delivery_heap w) + k - length (delivery_heap w))%nat
          with k by lia.
        repeat split; auto; unfold maxRetries; try lia. discriminate.
    + apply Forall_app. split; [exact Hacc |].
      eapply Forall2_Forall_r; [exact Hnew |].
      apply Forall_forall. intros r _ d (config & _ & _ & _ & Hp & Hn & _).
      unfold accounted, maxRetries. rewrite Hp, Hn.
      repeat split; try lia; discriminate.
  - (* the transport answers a unit *)
    destruct He as (Hnd & Hown & Hacc). simpl in Hnd, Hown, Hacc.
    destruct (NoDup_fmap_delete of_delivery us i u Hnd Hu) as [Hnd' Hfresh].
    assert (Hu_owns := Forall_lookup_1 _ _ _ _ Hown Hu).
    destruct Hu_owns as (d & Hd & Hp & Hn & Hk & _).
    assert (Hothers : ∀ d', Forall
              (unit_owns (mkWorld (webhooks w) (deliveries w) (webhook_heap w)
                            (<[of_delivery u := d']> (delivery_heap w))
                            (trace w) (tick w)))
              (delete i us)).
    { intros d'. apply Forall_forall. intros u' Hu'.
      apply (unit_owns_other w u' (of_delivery u) d'); [| reflexivity |].
      - intros Heq. apply Hfresh. rewrite <- Heq. now apply list_elem_of_fmap_2.
      - apply (proj1 (Forall_forall (unit_owns w) us) Hown).
        eapply elem_of_sublist; [exact Hu' | apply sublist_delete]. }
    assert (Hacc_d := Forall_lookup_1 _ _ _ _ Hacc Hd).
    destruct Hacc_d as (Hrange & _ & _ & Herr).
    destruct (succeeds o) eqn:Ho.
    + destruct (executeDelivery_settled_success o Ho) as (status & body & -> & _).
      rewrite (sendWebhook_settled_success JSON_stringify Date_now Math_random
                 u status body w d Hd Ho).
      unfold engaged. simpl. rewrite app_nil_r.
      split; [exact Hnd' | split].
      * eapply Forall_impl; [apply Hothers |]. intros u' Hu'.
        eapply unit_owns_heap; [| exact Hu']. reflexivity.
      * apply Forall_insert; [exact Hacc |]. unfold accounted. simpl.
        split; [exact Hrange | split; [discriminate | split; [| exact Herr]]].
        intros _. now eexists.
    + destruct (Nat.lt_ge_cases (attempt u) maxRetries) as [Hlt | Hge].
      * rewrite (sendWebhook_settled_retry JSON_stringify Date_now Math_random
                   u o w d Hd Ho Hlt).
        unfold engaged. simpl. split; [| split].
        -- rewrite fmap_app. simpl. apply NoDup_app.
           split; [exact Hnd' | split; [| apply NoDup_singleton]].
           intros r Hr ->%list_elem_of_singleton. contradiction.
        -- apply Forall_app. split.
           ++ eapply Forall_impl; [apply Hothers |]. intros u' Hu'.
              eapply unit_owns_heap; [| exact Hu']. reflexivity.
           ++ apply Forall_singleton. eexists. simpl.
              split; [apply list_lookup_insert_eq; eapply lookup_lt_Some, Hd |].
              simpl. repeat split; eauto.
        -- apply Forall_insert; [exact Hacc |]. unfold accounted. simpl.
           rewrite Hp. split; [exact Hrange |]. repeat split; discriminate.
      * rewrite (sendWebhook_settled_exhausted JSON_stringify Date_now Math_random
                   u o w d Hd Ho Hge).
        unfold engaged. simpl. rewrite app_nil_r.
        split; [exact Hnd' | split].
        -- eapply Forall_impl; [apply Hothers |]. intros u' Hu'.
           eapply unit_owns_heap; [| exact Hu']. reflexivity.
        -- apply Forall_insert; [exact Hacc |]. unfold accounted. simpl.
           split; [exact Hrange | split; [| split; discriminate]].
           intros _. unfold maxRetries in *. split; [lia | now eexists].
  - (* the timer of a unit fires *)
    apply sound_elim in Hs as (_ & _ & _ & Hus & _).
    destruct He as (Hnd & Hown & Hacc). simpl in Hnd, Hown, Hacc.
    destruct (NoDup_fmap_delete of_delivery us i u Hnd Hu) as [Hnd' Hfresh].
    assert (Hu_owns := Forall_lookup_1 _ _ _ _ Hown Hu).
    destruct Hu_owns as (d & Hd & Hp & Hn & Hk & Hdelay).
    destruct (Hdelay Haw) as [Hlt Herr].
    apply list_elem_of_lookup_2 in Hu as Hin. destruct (Hus u Hin) as [Hwr _].
    destruct (lookup_lt_is_Some_2 _ _ Hwr) as [config Hw].
    unfold sendWebhook_delayed.
    destruct (sendWebhook_loop_enters JSON_stringify Date_now Math_random
                (of_webhook u) (of_delivery u) (of_event u) (attempt u + 1)
                w config d Hw Hd) as [q ->]; [lia |].
    unfold engaged. simpl. split; [| split].
    + rewrite fmap_app. simpl. apply NoDup_app.
      split; [exact Hnd' | split; [| apply NoDup_singleton]].
      intros r Hr ->%list_elem_of_singleton. contradiction.
    + apply Forall_app. split.
      * apply Forall_forall. intros u' Hu'.
        eapply unit_owns_heap;
          [| apply (unit_owns_other w u' (of_delivery u)
                      (WebhookDelivery.with_attempts (attempt u + 1 + 1) d));
             [| reflexivity |]].
        -- reflexivity.
        -- intros Heq. apply Hfresh. rewrite <- Heq. now apply list_elem_of_fmap_2.
        -- apply (proj1 (Forall_forall (unit_owns w) us) Hown).
           eapply elem_of_sublist; [exact Hu' | apply sublist_delete].
      * apply Forall_singleton. eexists. simpl.
        split; [apply list_lookup_insert_eq; eapply lookup_lt_Some, Hd |].
        simpl. repeat split; eauto; try lia. discriminate.
    + apply Forall_insert; [exact Hacc |].
      apply (Forall_lookup_1 _ _ _ _ Hacc) in Hd as (_ & _ & _ & Hnone).
      unfold accounted. simpl. rewrite Hp. unfold maxRetries in *.
      split; [lia | split; [discriminate | split; [discriminate |]]].
      intros Hno. destruct Herr as [e He]. congruence.
Qed.

Lemma reachable_engaged c :
  reachable URL_parses JSON_stringify Date_now Math_random c → engaged c.
Proof.
  induction 1 as [| c c' Hreach IH Hstep]; [apply engaged_initial |].
  eapply step_engaged; [apply reachable_sound | |]; eassumption.
Qed.

(** Whatever else the service does meanwhile, a delivery is only ever
    marked [failed] after its fourth attempt, with the error of that
    attempt and a completed timestamp, and no delivery makes more than
    four attempts. *)
Lemma failed_after_four_attempts c (r : ref) (d : WebhookDelivery.t) :
  reachable URL_parses JSON_stringify Date_now Math_random c →
  delivery_heap (world c) !! r = Some d →
  (WebhookDelivery.attempts d ≤ 4)%nat ∧
  (WebhookDelivery.status d = failed →
   WebhookDelivery.attempts d = 4%nat ∧
   is_Some (WebhookDelivery.error d) ∧
   is_Some (WebhookDelivery.completedAt d)).
Proof.
  intros Hreach Hd.
  destruct (reachable_engaged c Hreach) as (_ & _ & Hacc).
  destruct (reachable_sound c Hreach) as (_ & _ & _ & Hc).
  apply (Forall_lookup_1 _ _ _ _ Hacc) in Hd as Ha.
  apply (Forall_lookup_1 _ _ _ _ Hc) in Hd as Hcons.
  destruct Ha as ([_ Hle] & Hfail & _). unfold maxRetries in *.
  split; [lia |]. intros Hf. destruct (Hfail Hf) as [Hn He].
  repeat split; auto. apply Hcons. now right.
Qed.

(** A registration that succeeds returns a new object, active, that
    [getWebhook] finds under its id and [listWebhooks] lists once. *)
Lemma registerWebhook_registers c (url : string) (events : list string)
    (secret : option string) (r : ref) w' :
  reachable URL_parses JSON_stringify Date_now Math_random c →
  registerWebhook URL_parses Date_now Math_random url events secret (world c) =
    (Normal r, w') →
  (r ∉ listWebhooks (world c)) ∧
  ∃ config,
    webhook_heap w' !! r = Some config ∧
    WebhookConfig.active config = true ∧
    WebhookConfig.url config = url ∧
    WebhookConfig.events config = events ∧
    WebhookConfig.secret config = secret ∧
    getWebhook (WebhookConfig.id config) w' = Some r ∧
    length (filter (λ x, x = r) (listWebhooks w')) = 1%nat.
Proof.
  intros Hreach Hrun. apply reachable_sound in Hreach. destruct c as [w us].
  apply sound_elim in Hreach as (Hnd & Hreg & _). simpl in Hrun.
  assert (Hok : URL_parses url = true ∧ events ≠ []).
  { destruct (URL_parses url) eqn:Hurl; [destruct events as [|e events] |].
    - rewrite registerWebhook_refuses in Hrun by now right. discriminate.
    - split; [reflexivity | discriminate].
    - rewrite registerWebhook_refuses in Hrun by now left. discriminate. }
  destruct Hok as [Hurl Hev].
  rewrite registerWebhook_stores in Hrun by assumption.
  injection Hrun as <- <-. simpl.
  assert (Hfresh : length (webhook_heap w) ∉ JSMap.values (webhooks w))
    by (intros Hin%Hreg; lia).
  split; [exact Hfresh |].
  eexists. split; [apply list_lookup_middle; reflexivity |]. simpl.
  repeat split.
  - unfold getWebhook. simpl. apply get_set_eq.
  - unfold listWebhooks. simpl.
    rewrite NoDup_count by now apply values_set_NoDup.
    rewrite decide_True; [reflexivity |].
    eapply get_Some_values, get_set_eq.
Qed.

(** The fan-out of [triggerEvent] on the delivery store: each call
    of [sendWebhook] stores its record under the id of the record; an
    id that a later call of the fan-out draws again is the later
    call's from then on. *)
Lemma sendWebhook_fan_out_store event (rs : list ref) w :
  Forall (λ r, is_Some (webhook_heap w !! r)) rs →
  let w' := (mapM (λ r, sendWebhook JSON_stringify Date_now Math_random r event) rs w).2 in
  ∃ news : list WebhookDelivery.t,
    delivery_heap w' = delivery_heap w ++ news ∧
    (∀ k, (∀ d, d ∈ news → WebhookDelivery.id d ≠ k) →
          getDelivery k w' = getDelivery k w) ∧
    (∀ i d, news !! i = Some d →
            (∀ j d', (i < j)%nat → news !! j = Some d' →
                     WebhookDelivery.id d' ≠ WebhookDelivery.id d) →
            getDelivery (WebhookDelivery.id d) w' =
              Some (length (delivery_heap w) + i)%nat).
Proof.
  unfold getDelivery. revert w. induction rs as [|r rs IH]; intros w Hrs.
  - exists []. simpl. rewrite app_nil_r. split; [reflexivity | split; [auto |]].
    intros i d Hd. discriminate.
  - apply Forall_cons in Hrs as [[config Hr] Hrs].
    destruct (sendWebhook_starts JSON_stringify Date_now Math_random
                r event w config Hr) as [q Hq].
    simpl in Hq.
    set (f := λ r, sendWebhook JSON_stringify Date_now Math_random r event) in *.
    match type of Hq with
    | _ = (_, ?w1) =>
        destruct (IH w1) as (news & Hdh & Hframe & Hlast); [exact Hrs |];
        assert (Hcons : (mapM f (r :: rs) w).2 = (mapM f rs w1).2)
          by (cbn [mapM]; unfold mbind, M_bind, mret, M_ret; subst f; simpl;
              rewrite Hq; now destruct (mapM _ rs _) as [[?|?] ?])
    end.
    simpl in Hdh, Hframe, Hlast. cbv zeta. rewrite Hcons.
    eexists (_ :: news). rewrite Hdh, <- app_assoc. simpl.
    split; [reflexivity | split].
    + intros k Hk. rewrite Hframe.
      * apply get_set_ne. apply (Hk _ (list_elem_of_here _ _)).
      * intros d Hd. apply Hk. now apply list_elem_of_further.
    + intros [|i] d Hd Hlater; simpl in Hd.
      * injection Hd as <-. simpl. rewrite Hframe.
        -- rewrite get_set_eq. f_equal. lia.
        -- intros d' [j Hj]%list_elem_of_lookup_1.
           apply (Hlater (S j) d'); [lia | exact Hj].
      * rewrite (Hlast i d Hd).
        -- f_equal. rewrite length_app. simpl. lia.
        -- intros j d' Hij Hj. apply (Hlater (S j) d'); [lia | exact Hj].
Qed.

(** [triggerEvent] up to its [await], on the delivery store. *)
Lemma triggerEvent_stores (type : string) (data : any) w :
  let w' := (triggerEvent JSON_stringify Date_now Math_random type data w).2 in
  ∃ news : list WebhookDelivery.t,
    delivery_heap w' = delivery_heap w ++ news ∧
    (∀ k, (∀ d, d ∈ news → WebhookDelivery.id d ≠ k) →
          getDelivery k w' = getDelivery k w) ∧
    (∀ i d, news !! i = Some d →
            (∀ j d', (i < j)%nat → news !! j = Some d' →
                     WebhookDelivery.id d' ≠ WebhookDelivery.id d) →
            getDelivery (WebhookDelivery.id d) w' =
              Some (length (delivery_heap w) + i)%nat).
Proof.
  unfold triggerEvent, now, generateId, random36, emit, listWebhooks. run.
  match goal with
  | |- context [mapM (λ r, sendWebhook _ _ _ r ?event) ?l ?w0] =>
      destruct (sendWebhook_fan_out_store event l w0) as (news & Hdh & Hframe & Hlast)
  end.
  { apply Forall_forall. intros r [Hr _]%list_elem_of_filter.
    now apply matches_allocated in Hr. }
  simpl in Hdh, Hframe, Hlast. exists news. auto.
Qed.

(** C5.  In a running service, [triggerEvent] starts a delivery for
    each stored subscription whose [active] flag is set and whose
    events include the type, and for no other: the calls of
    [sendWebhook] it makes are, in the order of the registry, those
    for the stored subscriptions with [active && events.includes(type)];
    each stored subscription gets one call when the two hold of it and
    none when one of them does not; each call has created one new
    delivery record of its own, pending, that names its webhook; and
    that record is stored in the deliveries map under its id, where
    [getDelivery] finds it unless a later call of the same fan-out has
    drawn the same id. *)
Theorem triggerEvent_starts_one_delivery_per_match c (type : string) (data : any) :
  reachable URL_parses JSON_stringify Date_now Math_random c →
  let w := world c in
  let result := triggerEvent JSON_stringify Date_now Math_random type data w in
  ∃ (ps : list Progress) (news : list WebhookDelivery.t),
    result.1 = Normal ps ∧
    length (suspended ps) = length ps ∧
    of_webhook <$> suspended ps =
      filter (λ r, from_option
                     (λ config, WebhookConfig.active config &&
                                bool_decide (type ∈ WebhookConfig.events config))
                     false (webhook_heap w !! r))
             (listWebhooks w) ∧
    (∀ (r : ref) config,
       r ∈ listWebhooks w → webhook_heap w !! r = Some config →
       length (filter (λ u, of_webhook u = r) (suspended ps)) =
         if WebhookConfig.active config && bool_decide (type ∈ WebhookConfig.events config)
         then 1%nat else 0%nat) ∧
    (∀ u, u ∈ suspended ps → of_webhook u ∈ listWebhooks w) ∧
    delivery_heap result.2 = delivery_heap w ++ news ∧
    length news = length ps ∧
    (∀ i u, suspended ps !! i = Some u →
            of_delivery u = (length (delivery_heap w) + i)%nat ∧
            WebhookEvent.type (of_event u) = type ∧
            ∃ d config,
              news !! i = Some d ∧
              webhook_heap w !! of_webhook u = Some config ∧
              WebhookConfig.active config = true ∧
              type ∈ WebhookConfig.events config ∧
              WebhookDelivery.webhookId d = WebhookConfig.id config ∧
              WebhookDelivery.status d = pending ∧
              ((∀ j d', (i < j)%nat → news !! j = Some d' →
                        WebhookDelivery.id d' ≠ WebhookDelivery.id d) →
               getDelivery (WebhookDelivery.id d) result.2 = Some (of_delivery u))).
Proof.
  intros Hreach w result. subst w result.
  apply reachable_sound in Hreach. destruct c as [w us].
  apply sound_elim in Hreach as (Hnd & _). simpl.
  destruct (triggerEvent_fans_out type data w)
    as (news & qs & Hres & _ & _ & Hdh & Hnew & _ & _ & _).
  destruct (triggerEvent_stores type data w) as (news' & Hdh' & _ & Hlast).
  simpl in Hdh'. rewrite Hdh in Hdh'. apply app_inv_head in Hdh'. subst news'.
  set (matching := filter (λ r, matches type w r) (listWebhooks w)) in *.
  eexists _, news. split; [exact Hres |].
  rewrite suspended_imap.
  assert (Hweb : of_webhook <$> imap
            (λ i r, mkUnit r
               (WebhookEvent.mk type data (Date_now (tick w))
                  (pretty (Date_now (S (tick w))) +:+ "-" +:+
                   substring 2 9 (Math_random (S (S (tick w))))))
               (length (delivery_heap w) + i)%nat 0 on_executeDelivery) matching
          = matching) by now apply of_webhook_imap.
  split; [now rewrite !length_imap |].
  split; [exact Hweb |].
  split; [| split; [| split; [exact Hdh | split]]].
  - intros r config Hr Hconfig.
    assert (Hm : matches type w r =
                 WebhookConfig.active config &&
                 bool_decide (type ∈ WebhookConfig.events config))
      by (unfold matches; now rewrite Hconfig).
    rewrite <- Hm.
    rewrite filter_fmap_length, Hweb, NoDup_count
      by (apply NoDup_filter, Hnd).
    destruct (decide (r ∈ matching)) as [Hin | Hnin].
    + apply list_elem_of_filter in Hin as [Hin _].
      now destruct (matches type w r).
    + destruct (matches type w r) eqn:Hmr; [| reflexivity].
      destruct Hnin. apply list_elem_of_filter. split; [now rewrite Hmr | exact Hr].
  - intros u Hu. apply (list_elem_of_fmap_2 of_webhook) in Hu.
    rewrite Hweb in Hu. now apply list_elem_of_filter in Hu as [_ Hu].
  - apply Forall2_length in Hnew. now rewrite length_imap.
  - intros i u Hu. apply list_lookup_imap_Some in Hu as (r & Hr & ->). simpl.
    split; [reflexivity | split; [reflexivity |]].
    destruct (Forall2_lookup_l _ _ _ _ _ Hnew Hr)
      as (d & Hd & config & Hc & Hid & _ & Hp & _).
    apply list_elem_of_lookup_2, list_elem_of_filter in Hr as [Hm _].
    unfold matches in Hm. rewrite Hc in Hm.
    apply andb_prop_elim in Hm as [Hactive Hsub].
    exists d, config.
    split; [exact Hd | split; [exact Hc | split; [now apply Is_true_true |]]].
    split; [exact (bool_decide_unpack _ Hsub) |].
    split; [exact Hid | split; [exact Hp |]].
    intros Hlater. now apply Hlast.
Qed.

(** C8.  In a running service, whatever has happened so far, every
    delivery that the store returns, by id or in a list, is a record
    whose completed timestamp is set exactly when its status is
    [success] or [failed]. *)
Theorem stored_delivery_consistent c (id : string) (webhookId : option string) (r : ref) :
  reachable URL_parses JSON_stringify Date_now Math_random c →
  getDelivery id (world c) = Some r ∨ r ∈ getDeliveries webhookId (world c) →
  ∃ d, delivery_heap (world c) !! r = Some d ∧
       (is_Some (WebhookDelivery.completedAt d) ↔
        WebhookDelivery.status d = success ∨ WebhookDelivery.status d = failed).
Proof.
  intros Hreach Hobs. apply reachable_sound in Hreach. destruct c as [w us].
  apply sound_elim in Hreach as (_ & _ & Hst & _ & Hc). simpl in *.
  assert (Hr : r ∈ JSMap.values (deliveries w)).
  { destruct Hobs as [Hget | Hin]; [now apply get_Some_values in Hget |].
    unfold getDeliveries in Hin. destruct webhookId as [wid |]; [| exact Hin].
    destruct (decide (wid = "")); [exact Hin |].
    now apply list_elem_of_filter in Hin as [_ Hin]. }
  destruct (lookup_lt_is_Some_2 _ _ (Hst r Hr)) as [d Hd].
  exists d. split; [exact Hd |]. eapply (Forall_lookup_1 consistent); eassumption.
Qed.

End Running.

(** ** On the sample service *)

(** C4.  The id of a new subscription need not differ from the ids
    already stored.  Two registrations within one millisecond whose
    draws of [Math.random()] agree get the same id: both succeed, the
    second is stored under the id of the first, and the first is no
    longer in the registry. *)
Theorem registerWebhook_reuses_id :
  let first :=
    registerWebhook Sample.URL_parses Sample.frozen_now Sample.frozen_random
      "https://a.example/hook" ["payout"] None (initial (any := string)) in
  let second :=
    registerWebhook Sample.URL_parses Sample.frozen_now Sample.frozen_random
      "https://b.example/hook" ["refund"] None first.2 in
  first.1 = Normal 0%nat ∧
  second.1 = Normal 1%nat ∧
  WebhookConfig.id <$> webhook_heap second.2 !! 0%nat = Some "1700000000000-i" ∧
  WebhookConfig.id <$> webhook_heap second.2 !! 1%nat = Some "1700000000000-i" ∧
  getWebhook "1700000000000-i" first.2 = Some 0%nat ∧
  listWebhooks first.2 = [0%nat] ∧
  getWebhook "1700000000000-i" second.2 = Some 1%nat ∧
  listWebhooks second.2 = [1%nat].
Proof. vm_compute. repeat split. Qed.

(** The sample service refuses [not-a-url]. *)
Lemma registerWebhook_rejects_invalid_input_witness :
  let result := registerWebhook Sample.URL_parses Sample.Date_now Sample.Math_random
                  "not-a-url" ["payout"] None Sample.one_webhook in
  ∃ e, result.1 = Throw e ∧
       ValidationError e ∧
       (Sample.URL_parses "not-a-url" = false → e = Error "Invalid webhook URL") ∧
       result.2 = Sample.one_webhook ∧
       listWebhooks result.2 = listWebhooks Sample.one_webhook.
Proof.
  apply (registerWebhook_rejects_invalid_input Sample.URL_parses Sample.Date_now
           Sample.Math_random "not-a-url" ["payout"] None Sample.one_webhook).
  left. reflexivity.
Defined.

(** The sample service has no subscription to [refund]. *)
Lemma triggerEvent_without_match_witness :
  let w' := (triggerEvent Sample.JSON_stringify Sample.Date_now Sample.Math_random
               "refund" "{}" Sample.one_webhook).2 in
  (triggerEvent Sample.JSON_stringify Sample.Date_now Sample.Math_random
     "refund" "{}" Sample.one_webhook).1 = Normal [] ∧
  webhooks w' = webhooks Sample.one_webhook ∧
  webhook_heap w' = webhook_heap Sample.one_webhook ∧
  deliveries w' = deliveries Sample.one_webhook ∧
  delivery_heap w' = delivery_heap Sample.one_webhook ∧
  ∃ event, WebhookEvent.type event = "refund" ∧ WebhookEvent.data event = "{}" ∧
           trace w' = trace Sample.one_webhook ++ [Emit (event_triggered event)].
Proof.
  apply (triggerEvent_without_match Sample.JSON_stringify Sample.Date_now
           Sample.Math_random "refund" "{}" Sample.one_webhook).
  vm_compute. reflexivity.
Defined.

(** The sample service dispatches [payout] to its subscription. *)
Lemma triggerEvent_starts_one_delivery_per_match_witness :
  let w := Sample.one_webhook in
  let result := triggerEvent Sample.JSON_stringify Sample.Date_now Sample.Math_random
                  "payout" "{}" w in
  ∃ (ps : list Progress) (news : list WebhookDelivery.t),
    result.1 = Normal ps ∧
    length (suspended ps) = length ps ∧
    of_webhook <$> suspended ps =
      filter (λ r, from_option
                     (λ config, WebhookConfig.active config &&
                                bool_decide ("payout" ∈ WebhookConfig.events config))
                     false (webhook_heap w !! r))
             (listWebhooks w) ∧
    (∀ (r : ref) config,
       r ∈ listWebhooks w → webhook_heap w !! r = Some config →
       length (filter (λ u, of_webhook u = r) (suspended ps)) =
         if WebhookConfig.active config &&
            bool_decide ("payout" ∈ WebhookConfig.events config)
         then 1%nat else 0%nat) ∧
    (∀ u, u ∈ suspended ps → of_webhook u ∈ listWebhooks w) ∧
    delivery_heap result.2 = delivery_heap w ++ news ∧
    length news = length ps ∧
    (∀ i u, suspended ps !! i = Some u →
            of_delivery u = (length (delivery_heap w) + i)%nat ∧
            WebhookEvent.type (of_event u) = "payout" ∧
            ∃ d config,
              news !! i = Some d ∧
              webhook_heap w !! of_webhook u = Some config ∧
              WebhookConfig.active config = true ∧
              "payout" ∈ WebhookConfig.events config ∧
              WebhookDelivery.webhookId d = WebhookConfig.id config ∧
              WebhookDelivery.status d = pending ∧
              ((∀ j d', (i < j)%nat → news !! j = Some d' →
                        WebhookDelivery.id d' ≠ WebhookDelivery.id d) →
               getDelivery (WebhookDelivery.id d) result.2 = Some (of_delivery u))).
Proof.
  apply (triggerEvent_starts_one_delivery_per_match Sample.URL_parses
           Sample.JSON_stringify Sample.Date_now Sample.Math_random
           (mkConfig Sample.one_webhook []) "payout" "{}").
  eapply reachable_step; [apply reachable_initial |].
  exact (step_registerWebhook _ _ _ _ initial []
           "https://example.org/hook" ["payout"] (Some "s3cret")).
Defined.

(** The delivery in flight in the sample service is pending, without
    a completed timestamp. *)
Lemma stored_delivery_consistent_witness :
  ∃ d, delivery_heap (world Sample.dispatched) !! 0%nat = Some d ∧
       (is_Some (WebhookDelivery.completedAt d) ↔
        WebhookDelivery.status d = success ∨ WebhookDelivery.status d = failed).
Proof.
  apply (stored_delivery_consistent Sample.URL_parses Sample.JSON_stringify
           Sample.Date_now Sample.Math_random Sample.dispatched
           "1700000000006-7k4fzyo82" None 0%nat).
  - eapply reachable_step; [eapply reachable_step; [apply reachable_initial |] |].
    + exact (step_registerWebhook _ _ _ _ initial []
               "https://example.org/hook" ["payout"] (Some "s3cret")).
    + exact (step_triggerEvent _ _ _ _ Sample.one_webhook [] "payout" "{}").
  - left. vm_compute. reflexivity.
Defined.

(** * Further properties of the service *)

Section Life.

Context {any : Type}.
Context (URL_parses : string → bool).
Context (JSON_stringify : WebhookEvent.t any → string).
Context (Date_now : nat → Z) (Math_random : nat → string).

Implicit Types (w : World (any := any)) (event : WebhookEvent.t any).
Implicit Types (c : Config (any := any)).

Ltac run := unfold mbind, M_bind, mret, M_ret, gets, modify, effect; simpl.

Lemma get_set (k k' : string) (v : ref) (m : JSMap.t ref) :
  JSMap.get k' (JSMap.set k v m) = if decide (k = k') then Some v else JSMap.get k' m.
Proof.
  destruct (decide (k = k')) as [<- | Hne]; [apply get_set_eq | now apply get_set_ne].
Qed.

(** The records and the store after the fan-out of [triggerEvent]. *)
Lemma fan_out_records event (rs : list ref) w :
  Forall (λ r, is_Some (webhook_heap w !! r)) rs →
  let w' := (mapM (λ r, sendWebhook JSON_stringify Date_now Math_random r event) rs w).2 in
  ∃ news : list WebhookDelivery.t,
    delivery_heap w' = delivery_heap w ++ news ∧
    length news = length rs ∧
    Forall fresh_record news ∧
    (∀ id, is_Some (JSMap.get id (deliveries w)) →
           is_Some (JSMap.get id (deliveries w'))) ∧
    (∀ k x, JSMap.get k (deliveries w') = Some x →
            JSMap.get k (deliveries w) = Some x ∨
            ∃ d, delivery_heap w' !! x = Some d ∧ WebhookDelivery.id d = k).
Proof.
  revert w. induction rs as [|r rs IH]; intros w Hrs.
  - exists []. simpl. rewrite app_nil_r. repeat split; auto.
  - apply Forall_cons in Hrs as [[config Hr] Hrs].
    destruct (sendWebhook_starts JSON_stringify Date_now Math_random
                r event w config Hr) as [q Hq].
    simpl in Hq.
    set (f := λ r, sendWebhook JSON_stringify Date_now Math_random r event) in *.
    match type of Hq with
    | _ = (_, ?w1) =>
        destruct (IH w1) as (news & Hdh & Hlen & Hfresh & Hkeys & Hent);
          [exact Hrs |];
        assert (Hcons : (mapM f (r :: rs) w).2 = (mapM f rs w1).2)
          by (cbn [mapM]; unfold mbind, M_bind, mret, M_ret; subst f; simpl;
              rewrite Hq; now destruct (mapM _ rs _) as [[?|?] ?])
    end.
    simpl in Hdh, Hkeys, Hent. cbv zeta. rewrite Hcons.
    eexists (_ :: news). rewrite Hdh, <- app_assoc. simpl.
    split; [reflexivity | split; [now rewrite Hlen | split; [| split]]].
    + constructor; [| exact Hfresh]. now repeat split.
    + intros id Hid. apply Hkeys. rewrite get_set.
      destruct (decide _); [now eexists | exact Hid].
    + intros k x Hx. destruct (Hent k x Hx) as [Hold | Hnew].
      * rewrite get_set in Hold. destruct (decide _) as [<- | Hne]; [| now left].
        injection Hold as <-. right. eexists.
        split; [apply list_lookup_middle; reflexivity | reflexivity].
      * right. destruct Hnew as (d & Hd & Hk). exists d.
        rewrite Hdh, <- app_assoc in Hd. simpl in Hd. auto.
Qed.

Lemma generated_id_nonempty (t : Z) (r : string) :
  pretty t +:+ "-" +:+ substring 2 9 r ≠ "".
Proof. destruct (pretty t); discriminate. Qed.

(** [triggerEvent] up to its [await], on the delivery store. *)
Lemma triggerEvent_records (type : string) (data : any) w :
  let w' := (triggerEvent JSON_stringify Date_now Math_random type data w).2 in
  ∃ news : list WebhookDelivery.t,
    delivery_heap w' = delivery_heap w ++ news ∧
    length news = length (filter (λ r, matches type w r) (listWebhooks w)) ∧
    Forall fresh_record news ∧
    (∀ id, is_Some (getDelivery id w) → is_Some (getDelivery id w')) ∧
    (∀ k x, getDelivery k w' = Some x →
            getDelivery k w = Some x ∨
            ∃ d, delivery_heap w' !! x = Some d ∧ WebhookDelivery.id d = k).
Proof.
  unfold triggerEvent, now, generateId, random36, emit, listWebhooks, getDelivery.
  run.
  match goal with
  | |- context [mapM (λ r, sendWebhook _ _ _ r ?event) ?l ?w0] =>
      destruct (fan_out_records event l w0) as (news & Hdh & Hlen & Hfresh & Hkeys & Hent)
  end.
  { apply Forall_forall. intros r [Hr _]%list_elem_of_filter.
    now apply matches_allocated in Hr. }
  simpl in Hdh, Hkeys, Hent. exists news. auto.
Qed.

(** [updateWebhookStatus] on a stored subscription. *)
Lemma updateWebhookStatus_writes (id : string) (active : bool) w (r : ref)
    (o : WebhookConfig.t) :
  getWebhook id w = Some r →
  webhook_heap w !! r = Some o →
  updateWebhookStatus id active w =
    (Normal (Some r),
     mkWorld (webhooks w) (deliveries w)
       (<[r := WebhookConfig.with_active active o]> (webhook_heap w))
       (delivery_heap w) (trace w ++ [Emit (webhook_updated r)]) (tick w)).
Proof.
  intros Hget Hr. unfold updateWebhookStatus, write_webhook, emit. run.
  rewrite Hget. simpl. rewrite Hr. reflexivity.
Qed.

(** [updateWebhookStatus] on an id that is not stored. *)
Lemma updateWebhookStatus_misses (id : string) (active : bool) w :
  getWebhook id w = None → updateWebhookStatus id active w = (Normal None, w).
Proof.
  intros Hget. unfold updateWebhookStatus. run. rewrite Hget. reflexivity.
Qed.

(** What one turn of the event loop does to the registry, and what it
    does to the delivery store. *)
Lemma step_effect c c' :
  sound c → engaged c →
  step URL_parses JSON_stringify Date_now Math_random c c' →
  let w := world c in
  let w' := world c' in
  ((webhooks w' = webhooks w ∧ webhook_heap w' = webhook_heap w) ∨
   (∃ o, validated URL_parses o ∧ WebhookConfig.active o = true ∧
         webhooks w' = JSMap.set (WebhookConfig.id o) (length (webhook_heap w)) (webhooks w) ∧
         webhook_heap w' = webhook_heap w ++ [o]) ∨
   (∃ id, webhooks w' = JSMap.delete id (webhooks w) ∧
          webhook_heap w' = webhook_heap w) ∨
   (∃ r o a, webhook_heap w !! r = Some o ∧ webhooks w' = webhooks w ∧
             webhook_heap w' = <[r := WebhookConfig.with_active a o]> (webhook_heap w))) ∧
  ((∃ news, delivery_heap w' = delivery_heap w ++ news ∧
            Forall fresh_record news ∧
            (∀ id, is_Some (getDelivery id w) → is_Some (getDelivery id w')) ∧
            (∀ k x, getDelivery k w' = Some x →
                    getDelivery k w = Some x ∨
                    ∃ d, delivery_heap w' !! x = Some d ∧ WebhookDelivery.id d = k)) ∨
   (∃ r d d', delivery_heap w !! r = Some d ∧ record_step d d' ∧
              delivery_heap w' = <[r := d']> (delivery_heap w) ∧
              deliveries w' = deliveries w)).
Proof.
  intros Hs He Hstep.
  assert (Hsame : ∀ (dl : JSMap.t ref) (h : list WebhookDelivery.t),
            ∃ news, h = h ++ news ∧
              Forall fresh_record news ∧
              (∀ id, is_Some (JSMap.get id dl) → is_Some (JSMap.get id dl)) ∧
              (∀ k x, JSMap.get k dl = Some x →
                      JSMap.get k dl = Some x ∨
                      ∃ d, h !! x = Some d ∧ WebhookDelivery.id d = k)).
  { intros dl h. exists []. rewrite app_nil_r. repeat split; auto. }
  destruct Hstep as
    [ w us url events secret | w us id | w us id active | w us type data
    | w us i u o Hu Haw | w us i u Hu Haw ]; unfold getDelivery; simpl.
  - (* registerWebhook *)
    destruct (registerWebhook_cases URL_parses Date_now Math_random
                url events secret w) as [-> | [Hurl Hev]];
      [split; [now left | left; apply Hsame] |].
    rewrite registerWebhook_stores by assumption. simpl.
    split; [| left; apply Hsame].
    right; left.
    exists (WebhookConfig.mk
              (pretty (Date_now (tick w)) +:+ "-" +:+
               substring 2 9 (Math_random (S (tick w))))
              url events secret true (Date_now (S (S (tick w)))) 0).
    split; [| repeat split].
    repeat split; simpl; auto using generated_id_nonempty.
  - (* deleteWebhook *)
    destruct (deleteWebhook_frame id w) as (Hw & Hd & Hwh & Hdh).
    destruct (deleteWebhook id w) as [res w1]. simpl in *. rewrite Hd, Hdh.
    split; [right; right; left; eauto | left; apply Hsame].
  - (* updateWebhookStatus *)
    split.
    + destruct (getWebhook id w) as [r|] eqn:Hget.
      * apply sound_elim in Hs as (_ & Hreg & _).
        destruct (lookup_lt_is_Some_2 (webhook_heap w) r) as [o Ho].
        { apply Hreg. eapply get_Some_values, Hget. }
        rewrite (updateWebhookStatus_writes id active w r o Hget Ho). simpl.
        right; right; right. eauto 10.
      * rewrite updateWebhookStatus_misses by exact Hget. now left.
    + destruct (updateWebhookStatus_frame id active w) as (_ & Hd & Hdh & _).
      destruct (updateWebhookStatus id active w) as [res w1]. simpl in *.
      rewrite Hd, Hdh. left. apply Hsame.
  - (* triggerEvent *)
    destruct (triggerEvent_fans_out JSON_stringify Date_now Math_random type data w)
      as (_ & _ & _ & Hw & Hwh & _).
    destruct (triggerEvent_records type data w) as (news & Hdh & _ & Hfresh & Hkeys & Hent).
    split; [now left | left; eauto 10].
  - (* the transport answers a unit *)
    destruct He as (_ & Hown & _). simpl in Hown.
    destruct (Forall_lookup_1 _ _ _ _ Hown Hu) as (d & Hd & Hp & Hn & Hk & _).
    destruct (succeeds o) eqn:Ho.
    + destruct (executeDelivery_settled_success o Ho) as (status & body & -> & _).
      rewrite (sendWebhook_settled_success JSON_stringify Date_now Math_random
                 u status body w d Hd Ho). simpl.
      split; [now left | right]. eexists _, d, _.
      split; [exact Hd | split; [| split; reflexivity]]. now constructor.
    + destruct (Nat.lt_ge_cases (attempt u) maxRetries) as [Hlt | Hge].
      * rewrite (sendWebhook_settled_retry JSON_stringify Date_now Math_random
                   u o w d Hd Ho Hlt). simpl.
        split; [now left | right]. eexists _, d, _.
        split; [exact Hd | split; [| split; reflexivity]].
        constructor; [exact Hp | lia].
      * rewrite (sendWebhook_settled_exhausted JSON_stringify Date_now Math_random
                   u o w d Hd Ho Hge). simpl.
        split; [now left | right]. eexists _, d, _.
        split; [exact Hd | split; [| split; reflexivity]].
        constructor; [exact Hp | lia].
  - (* the timer of a unit fires *)
    apply sound_elim in Hs as (_ & _ & _ & Hus & _).
    destruct He as (_ & Hown & _). simpl in Hown.
    destruct (Forall_lookup_1 _ _ _ _ Hown Hu) as (d & Hd & Hp & Hn & Hk & Hdelay).
    destruct (Hdelay Haw) as [Hlt Herr].
    apply list_elem_of_lookup_2 in Hu as Hin. destruct (Hus u Hin) as [Hwr _].
    destruct (lookup_lt_is_Some_2 _ _ Hwr) as [config Hw].
    unfold sendWebhook_delayed.
    destruct (sendWebhook_loop_enters JSON_stringify Date_now Math_random
                (of_webhook u) (of_delivery u) (of_event u) (attempt u + 1)
                w config d Hw Hd) as [q ->]; [lia |]. simpl.
    split; [now left | right]. eexists _, d, _.
    split; [exact Hd | split; [| split; reflexivity]].
    replace (attempt u + 1 + 1)%nat with (WebhookDelivery.attempts d + 1)%nat by lia.
    constructor; [exact Hp | exact Herr | lia].
Qed.

Lemma reachable_rtc c c' :
  reachable URL_parses JSON_stringify Date_now Math_random c →
  rtc (step URL_parses JSON_stringify Date_now Math_random) c c' →
  reachable URL_parses JSON_stringify Date_now Math_random c'.
Proof.
  intros Hc Hrtc. induction Hrtc as [| c1 c2 c3 Hstep _ IH]; [exact Hc |].
  apply IH. eapply reachable_step; eassumption.
Qed.

Lemma record_step_pending (d d' : WebhookDelivery.t) :
  record_step d d' → WebhookDelivery.status d = pending.
Proof. now destruct 1. Qed.

Lemma record_step_identity (d d' : WebhookDelivery.t) :
  record_step d d' →
  WebhookDelivery.id d' = WebhookDelivery.id d ∧
  WebhookDelivery.webhookId d' = WebhookDelivery.webhookId d ∧
  WebhookDelivery.eventId d' = WebhookDelivery.eventId d ∧
  WebhookDelivery.createdAt d' = WebhookDelivery.createdAt d ∧
  WebhookDelivery.responseBody d' = WebhookDelivery.responseBody d ∧
  (WebhookDelivery.attempts d ≤ WebhookDelivery.attempts d')%nat.
Proof. destruct 1; simpl; repeat split; lia. Qed.

(** What a turn does to the records that exist, in a running service. *)
Lemma step_records c c' :
  reachable URL_parses JSON_stringify Date_now Math_random c →
  step URL_parses JSON_stringify Date_now Math_random c c' →
  (∀ r d, delivery_heap (world c) !! r = Some d →
          ∃ d', delivery_heap (world c') !! r = Some d' ∧ (d' = d ∨ record_step d d')) ∧
  (∀ r d', delivery_heap (world c') !! r = Some d' →
           delivery_heap (world c) !! r = None → fresh_record d').
Proof.
  intros Hreach Hstep.
  destruct (step_effect c c' (reachable_sound _ _ _ _ c Hreach)
              (reachable_engaged _ _ _ _ c Hreach) Hstep)
    as [_ [(news & Hdh & Hfresh & _) | (r0 & d0 & d0' & Hd0 & Hrs & Hdh & _)]];
    rewrite Hdh.
  - split.
    + intros r d Hd. exists d. split; [| now left].
      rewrite lookup_app_l by (eapply lookup_lt_Some, Hd). exact Hd.
    + intros r d' Hd' Hnone. apply lookup_ge_None in Hnone.
      rewrite lookup_app_r in Hd' by exact Hnone.
      eapply Forall_lookup_1; eassumption.
  - split.
    + intros r d Hd. destruct (decide (r = r0)) as [-> | Hne].
      * exists d0'. split; [apply list_lookup_insert_eq; eapply lookup_lt_Some, Hd |].
        right. congruence.
      * exists d. rewrite list_lookup_insert_ne by congruence. auto.
    + intros r d' Hd' Hnone. apply lookup_ge_None in Hnone.
      apply lookup_lt_Some in Hd'. rewrite length_insert in Hd'. lia.
Qed.

(** A property of fresh records that the transitions keep holds of
    every record of a running service. *)
Lemma records_invariant (P : WebhookDelivery.t → Prop) c :
  (∀ d, fresh_record d → P d) →
  (∀ d d', P d → record_step d d' → P d') →
  reachable URL_parses JSON_stringify Date_now Math_random c →
  Forall P (delivery_heap (world c)).
Proof.
  intros Hfresh Hstep Hreach.
  induction Hreach as [| c c' Hreach IH Hs]; [apply Forall_nil_2 |].
  destruct (step_records c c' Hreach Hs) as [Hold Hnew].
  apply Forall_lookup_2. intros r d' Hd'.
  destruct (delivery_heap (world c) !! r) as [d|] eqn:Hd.
  - destruct (Hold r d Hd) as (d1 & Hd1 & Hcase).
    assert (d1 = d') by congruence. subst d1.
    pose proof (Forall_lookup_1 _ _ _ _ IH Hd) as HP.
    destruct Hcase as [-> | Hrs]; [exact HP | eauto].
  - apply Hfresh. eauto.
Qed.

(** X1.  In one turn of the event loop of a running service, each
    delivery record either stays as it is or makes one transition of
    the delivery state machine, always out of [pending]: an error is
    recorded before a retry, the next attempt is counted, the delivery
    succeeds, or it fails at its fourth attempt; and a record created
    in that turn is pending with one attempt and no outcome. *)
Theorem record_makes_one_transition c c' :
  reachable URL_parses JSON_stringify Date_now Math_random c →
  step URL_parses JSON_stringify Date_now Math_random c c' →
  (∀ r d, delivery_heap (world c) !! r = Some d →
          ∃ d', delivery_heap (world c') !! r = Some d' ∧ (d' = d ∨ record_step d d')) ∧
  (∀ r d', delivery_heap (world c') !! r = Some d' →
           delivery_heap (world c) !! r = None → fresh_record d').
Proof. apply step_records. Qed.

(** X2.  However the service goes on, a delivery record stays in
    the heap under its reference, keeps its id, webhook id, event id
    and creation time, never counts fewer attempts, and once it is
    [success] or [failed] it never changes again. *)
Theorem records_only_move_forward c c' (r : ref) (d : WebhookDelivery.t) :
  reachable URL_parses JSON_stringify Date_now Math_random c →
  rtc (step URL_parses JSON_stringify Date_now Math_random) c c' →
  delivery_heap (world c) !! r = Some d →
  ∃ d', delivery_heap (world c') !! r = Some d' ∧
        WebhookDelivery.id d' = WebhookDelivery.id d ∧
        WebhookDelivery.webhookId d' = WebhookDelivery.webhookId d ∧
        WebhookDelivery.eventId d' = WebhookDelivery.eventId d ∧
        WebhookDelivery.createdAt d' = WebhookDelivery.createdAt d ∧
        (WebhookDelivery.attempts d ≤ WebhookDelivery.attempts d')%nat ∧
        (terminal d → d' = d).
Proof.
  intros Hreach Hrtc. revert d.
  induction Hrtc as [c | c1 c2 c3 Hstep Hrtc IH]; intros d Hd.
  - exists d. repeat split; auto.
  - destruct (step_records c1 c2 Hreach Hstep) as [Hold _].
    destruct (Hold r d Hd) as (d2 & Hd2 & Hcase).
    destruct (IH (reachable_step _ _ _ _ _ _ Hreach Hstep) d2 Hd2)
      as (d3 & Hd3 & Hid & Hwid & Heid & Hcr & Hatt & Hterm).
    exists d3. split; [exact Hd3 |].
    destruct Hcase as [-> | Hrs]; [repeat split; auto |].
    destruct (record_step_identity d d2 Hrs) as (Hid' & Hwid' & Heid' & Hcr' & _ & Hatt').
    repeat split; try congruence; try lia.
    intros [Hterm' | Hterm']; apply record_step_pending in Hrs; congruence.
Qed.

Lemma answered_fresh (d : WebhookDelivery.t) : fresh_record d → answered d.
Proof.
  intros (Hp & _ & Hrs & Hrb & _). unfold answered. rewrite Hp, Hrs, Hrb.
  split; [reflexivity | split; [| discriminate]].
  split; [intros [x Hx]; discriminate | discriminate].
Qed.

Lemma answered_step (d d' : WebhookDelivery.t) :
  answered d → record_step d d' → answered d'.
Proof.
  intros (Hrb & Hiff & Hok) Hrs.
  assert (Hnone : WebhookDelivery.status d = pending →
                  WebhookDelivery.responseStatus d = None).
  { intros Hp. destruct (WebhookDelivery.responseStatus d) eqn:E; [| reflexivity].
    assert (WebhookDelivery.status d = success) by (apply Hiff; now eexists).
    congruence. }
  destruct Hrs as [d e Hp _ | d Hp _ _ | d s t Hp Hs | d e t Hp _];
    unfold answered; simpl.
  - auto.
  - auto.
  - split; [exact Hrb | split].
    + split; [reflexivity | intros _; now eexists].
    + intros s' [= <-]. exact Hs.
  - rewrite (Hnone Hp). split; [exact Hrb | split; [| discriminate]].
    split; [intros [x Hx]; discriminate | discriminate].
Qed.

(** X3.  In a running service no record ever carries a response
    body; a record carries a response status exactly when it is
    [success], and that status is then a 2xx code: the status of an
    answer that was not 2xx is only kept inside the error text. *)
Theorem response_fields_of_records c (r : ref) (d : WebhookDelivery.t) :
  reachable URL_parses JSON_stringify Date_now Math_random c →
  delivery_heap (world c) !! r = Some d →
  WebhookDelivery.responseBody d = None ∧
  (is_Some (WebhookDelivery.responseStatus d) ↔ WebhookDelivery.status d = success) ∧
  (∀ s, WebhookDelivery.responseStatus d = Some s → (200 ≤ s < 300)%Z).
Proof.
  intros Hreach Hd.
  pose proof (records_invariant answered c answered_fresh answered_step Hreach) as Hall.
  destruct (Forall_lookup_1 _ _ _ _ Hall Hd) as (Hrb & Hiff & Hok).
  split; [exact Hrb | split; [exact Hiff |]].
  intros s Hs. apply Hok in Hs. unfold ok in Hs.
  apply andb_true_iff in Hs as [H1 H2]. lia.
Qed.

(** *** The two maps *)

Lemma get_delete_Some (k id : string) (r : ref) (m : JSMap.t ref) :
  JSMap.get k (JSMap.delete id m) = Some r → JSMap.get k m = Some r.
Proof.
  destruct (decide (id = k)) as [-> | Hne].
  - rewrite get_delete_eq. discriminate.
  - now rewrite get_delete_ne.
Qed.

(** Every stored delivery is a record that carries the id it is
    stored under. *)
Lemma store_keyed c (k : string) (x : ref) :
  reachable URL_parses JSON_stringify Date_now Math_random c →
  getDelivery k (world c) = Some x →
  ∃ d, delivery_heap (world c) !! x = Some d ∧ WebhookDelivery.id d = k.
Proof.
  intros Hreach. revert k x.
  induction Hreach as [| c c' Hreach IH Hstep]; intros k x Hget; [discriminate |].
  destruct (step_effect c c' (reachable_sound _ _ _ _ c Hreach)
              (reachable_engaged _ _ _ _ c Hreach) Hstep)
    as [_ [(news & Hdh & _ & _ & Hent) | (r0 & d0 & d0' & Hd0 & Hrs & Hdh & Hdl)]].
  - destruct (Hent k x Hget) as [Hold | Hnew]; [| exact Hnew].
    destruct (IH k x Hold) as (d & Hd & Hid). exists d. split; [| exact Hid].
    rewrite Hdh, lookup_app_l by (eapply lookup_lt_Some, Hd). exact Hd.
  - unfold getDelivery in *. rewrite Hdl in Hget.
    destruct (IH k x Hget) as (d & Hd & Hid). rewrite Hdh.
    destruct (decide (x = r0)) as [-> | Hne].
    + exists d0'. split; [apply list_lookup_insert_eq; eapply lookup_lt_Some, Hd |].
      destruct (record_step_identity d0 d0' Hrs) as (Hid' & _).
      assert (Heq : Some d = Some d0)
        by (etransitivity; [symmetry; exact Hd | exact Hd0]).
      injection Heq as ->. now rewrite Hid'.
    + exists d. rewrite list_lookup_insert_ne by congruence. auto.
Qed.

(** Every webhook object passed validation, and every stored
    subscription is an object that carries the id it is stored under. *)
Lemma registry_keyed c :
  reachable URL_parses JSON_stringify Date_now Math_random c →
  Forall (validated URL_parses) (webhook_heap (world c)) ∧
  ∀ k r, getWebhook k (world c) = Some r →
         ∃ o, webhook_heap (world c) !! r = Some o ∧ WebhookConfig.id o = k.
Proof.
  induction 1 as [| c c' Hreach [IHv IHk] Hstep].
  - split; [apply Forall_nil_2 | discriminate].
  - unfold getWebhook in *.
    destruct (step_effect c c' (reachable_sound _ _ _ _ c Hreach)
                (reachable_engaged _ _ _ _ c Hreach) Hstep)
      as [[(Hw & Hh) | [(o & Hval & _ & Hw & Hh) | [(id & Hw & Hh)
          | (r0 & o0 & a & Ho0 & Hw & Hh)]]] _]; rewrite Hw, Hh.
    + now split.
    + split; [apply Forall_app; split; [exact IHv | now apply Forall_singleton] |].
      intros k r. rewrite get_set. destruct (decide _) as [<- | Hne].
      * intros [= <-]. exists o. split; [apply list_lookup_middle |]; reflexivity.
      * intros Hget. destruct (IHk k r Hget) as (o' & Ho' & Hid).
        exists o'. rewrite lookup_app_l by (eapply lookup_lt_Some, Ho'). auto.
    + split; [exact IHv |]. intros k r Hget%get_delete_Some. auto.
    + split.
      * apply Forall_insert; [exact IHv |].
        pose proof (Forall_lookup_1 _ _ _ _ IHv Ho0) as Hv. exact Hv.
      * intros k r Hget. destruct (IHk k r Hget) as (o' & Ho' & Hid).
        destruct (decide (r = r0)) as [-> | Hne].
        -- eexists. split; [apply list_lookup_insert_eq; eapply lookup_lt_Some, Ho0 |].
           assert (Heq : Some o' = Some o0)
             by (etransitivity; [symmetry; exact Ho' | exact Ho0]).
           injection Heq as ->. exact Hid.
        -- exists o'. rewrite list_lookup_insert_ne by congruence. auto.
Qed.

(** X4.  In a running service [getDelivery(id)] returns a record
    whose own id is [id]. *)
Theorem getDelivery_returns_record_of_that_id c (k : string) (x : ref) :
  reachable URL_parses JSON_stringify Date_now Math_random c →
  getDelivery k (world c) = Some x →
  ∃ d, delivery_heap (world c) !! x = Some d ∧ WebhookDelivery.id d = k.
Proof. apply store_keyed. Qed.

(** X5.  The delivery store never forgets an id: once
    [getDelivery(id)] returns a delivery it returns one ever after,
    whatever is registered, deleted, triggered or delivered. *)
Theorem delivery_ids_persist c c' (k : string) :
  reachable URL_parses JSON_stringify Date_now Math_random c →
  rtc (step URL_parses JSON_stringify Date_now Math_random) c c' →
  is_Some (getDelivery k (world c)) → is_Some (getDelivery k (world c')).
Proof.
  intros Hreach Hrtc. induction Hrtc as [c | c1 c2 c3 Hstep Hrtc IH]; [auto |].
  intros Hk. apply IH; [eapply reachable_step; eassumption |].
  destruct (step_effect c1 c2 (reachable_sound _ _ _ _ c1 Hreach)
              (reachable_engaged _ _ _ _ c1 Hreach) Hstep)
    as [_ [(news & _ & _ & Hkeys & _) | (r0 & d0 & d0' & _ & _ & _ & Hdl)]].
  - now apply Hkeys.
  - unfold getDelivery in *. now rewrite Hdl.
Qed.

(** X6.  In a running service every stored subscription is kept
    under its own id and still satisfies what registration checked:
    its URL parses and its list of events is not empty; its id is not
    empty and its retry count is 0, which nothing ever changes. *)
Theorem stored_webhook_is_valid c (k : string) (r : ref) :
  reachable URL_parses JSON_stringify Date_now Math_random c →
  getWebhook k (world c) = Some r →
  ∃ o, webhook_heap (world c) !! r = Some o ∧
       WebhookConfig.id o = k ∧
       URL_parses (WebhookConfig.url o) = true ∧
       WebhookConfig.events o ≠ [] ∧
       k ≠ "" ∧
       WebhookConfig.retryCount o = 0.
Proof.
  intros Hreach Hget. destruct (registry_keyed c Hreach) as [Hv Hk].
  destruct (Hk k r Hget) as (o & Ho & Hid). exists o.
  destruct (Forall_lookup_1 _ _ _ _ Hv Ho) as (Hu & He & Hne & Hrc).
  repeat split; auto. congruence.
Qed.

(** X7.  A webhook object is never removed from the heap and only
    its [active] flag is ever written: its id, URL, events, secret,
    creation time and retry count stay what registration made them,
    also after the subscription is deleted from the registry. *)
Theorem webhook_fields_are_immutable c c' (r : ref) (o : WebhookConfig.t) :
  reachable URL_parses JSON_stringify Date_now Math_random c →
  rtc (step URL_parses JSON_stringify Date_now Math_random) c c' →
  webhook_heap (world c) !! r = Some o →
  ∃ o', webhook_heap (world c') !! r = Some o' ∧
        o' = WebhookConfig.with_active (WebhookConfig.active o') o.
Proof.
  intros Hreach Hrtc. revert o.
  induction Hrtc as [c | c1 c2 c3 Hstep Hrtc IH]; intros o Ho.
  - exists o. split; [exact Ho | now destruct o].
  - assert (Hnext : ∃ o2, webhook_heap (world c2) !! r = Some o2 ∧
                          o2 = WebhookConfig.with_active (WebhookConfig.active o2) o).
    { destruct (step_effect c1 c2 (reachable_sound _ _ _ _ c1 Hreach)
                  (reachable_engaged _ _ _ _ c1 Hreach) Hstep)
        as [[(Hw & Hh) | [(o1 & _ & _ & Hw & Hh) | [(id & Hw & Hh)
            | (r0 & o0 & a & Ho0 & Hw & Hh)]]] _]; rewrite Hh.
      - exists o. split; [exact Ho | now destruct o].
      - exists o. rewrite lookup_app_l by (eapply lookup_lt_Some, Ho).
        split; [exact Ho | now destruct o].
      - exists o. split; [exact Ho | now destruct o].
      - destruct (decide (r = r0)) as [-> | Hne].
        + eexists. split; [apply list_lookup_insert_eq; eapply lookup_lt_Some, Ho |].
          assert (Heq : Some o0 = Some o)
            by (etransitivity; [symmetry; exact Ho0 | exact Ho]).
          injection Heq as ->. reflexivity.
        + exists o. rewrite list_lookup_insert_ne by congruence.
          split; [exact Ho | now destruct o]. }
    destruct Hnext as (o2 & Ho2 & Heq2).
    destruct (IH (reachable_step _ _ _ _ _ _ Hreach Hstep) o2 Ho2) as (o3 & Ho3 & Heq3).
    exists o3. split; [exact Ho3 |]. rewrite Heq3, Heq2. reflexivity.
Qed.

(** *** What holds along every run *)

Lemma elem_of_set (k k' : string) (v v' : ref) (m : JSMap.t ref) :
  (k', v') ∈ JSMap.set k v m → (k', v') = (k, v) ∨ (k', v') ∈ m.
Proof.
  induction m as [|[k0 v0] m IH]; simpl.
  - intros H%list_elem_of_singleton. now left.
  - destruct (decide (k = k0)); intros [H | H]%elem_of_cons.
    + now left.
    + right. now apply list_elem_of_further.
    + right. rewrite H. apply list_elem_of_here.
    + destruct (IH H) as [? | ?]; [now left | right; now apply list_elem_of_further].
Qed.

Lemma elem_of_delete (k k' : string) (v' : ref) (m : JSMap.t ref) :
  (k', v') ∈ JSMap.delete k m → k' ≠ k ∧ (k', v') ∈ m.
Proof.
  induction m as [|[k0 v0] m IH]; simpl; [intros H; inversion H |].
  destruct (decide (k = k0)) as [-> | Hne].
  - intros H. destruct (IH H). split; [assumption | now apply list_elem_of_further].
  - intros [H | H]%elem_of_cons.
    + injection H as -> ->. split; [congruence | apply list_elem_of_here].
    + destruct (IH H). split; [assumption | now apply list_elem_of_further].
Qed.

(** The ticks of the clock are no part of the invariants. *)
Lemma running_at_any_tick w (us : list DeliveryUnit) (t : nat) :
  sound (mkConfig w us) → engaged (mkConfig w us) → entries_keyed w →
  let w' := mkWorld (webhooks w) (deliveries w) (webhook_heap w) (delivery_heap w)
              (trace w) t in
  sound (mkConfig w' us) ∧ engaged (mkConfig w' us) ∧ entries_keyed w'.
Proof. intros Hs He Hk. split; [exact Hs | split; [exact He | exact Hk]]. Qed.

Lemma step_entries_keyed c c' :
  sound c → engaged c → entries_keyed (world c) →
  step URL_parses JSON_stringify Date_now Math_random c c' →
  entries_keyed (world c').
Proof.
  intros Hs He Hk Hstep. unfold entries_keyed in *.
  destruct (step_effect c c' Hs He Hstep)
    as [[(Hw & Hh) | [(o & _ & _ & Hw & Hh) | [(id & Hw & Hh)
        | (r0 & o0 & a & Ho0 & Hw & Hh)]]] _]; rewrite Hw, Hh.
  - exact Hk.
  - intros k r [[= -> ->] | Hin]%elem_of_set.
    + exists o. split; [apply list_lookup_middle |]; reflexivity.
    + destruct (Hk k r Hin) as (o' & Ho' & Hid).
      exists o'. rewrite lookup_app_l by (eapply lookup_lt_Some, Ho'). auto.
  - intros k r [_ Hin]%elem_of_delete. auto.
  - intros k r Hin. destruct (Hk k r Hin) as (o' & Ho' & Hid).
    destruct (decide (r = r0)) as [-> | Hne].
    + eexists. split; [apply list_lookup_insert_eq; eapply lookup_lt_Some, Ho0 |].
      assert (Heq : Some o' = Some o0)
        by (etransitivity; [symmetry; exact Ho' | exact Ho0]).
      injection Heq as ->. exact Hid.
    + exists o'. rewrite list_lookup_insert_ne by congruence. auto.
Qed.

Lemma reachable_entries_keyed c :
  reachable URL_parses JSON_stringify Date_now Math_random c → entries_keyed (world c).
Proof.
  induction 1 as [| c c' Hreach IH Hstep]; [intros k r Hin; inversion Hin |].
  eapply step_entries_keyed;
    [eapply reachable_sound | eapply reachable_engaged | |]; eassumption.
Qed.

Lemma run_keeps_invariants c c' :
  sound c → engaged c → entries_keyed (world c) →
  rtc (step URL_parses JSON_stringify Date_now Math_random) c c' →
  sound c' ∧ engaged c' ∧ entries_keyed (world c').
Proof.
  intros Hs He Hk Hrtc. induction Hrtc as [c | c1 c2 c3 Hstep _ IH]; [auto |].
  apply IH.
  - eapply step_sound; eassumption.
  - eapply step_engaged; eassumption.
  - eapply step_entries_keyed; eassumption.
Qed.

(** A webhook object stays in the heap, with its id. *)
Lemma webhook_id_stays c c' (r : ref) (o : WebhookConfig.t) :
  sound c → engaged c →
  rtc (step URL_parses JSON_stringify Date_now Math_random) c c' →
  webhook_heap (world c) !! r = Some o →
  ∃ o', webhook_heap (world c') !! r = Some o' ∧
        WebhookConfig.id o' = WebhookConfig.id o.
Proof.
  intros Hs He Hrtc. revert o.
  induction Hrtc as [c | c1 c2 c3 Hstep Hrtc IH]; intros o Ho; [eauto |].
  assert (Hnext : ∃ o2, webhook_heap (world c2) !! r = Some o2 ∧
                        WebhookConfig.id o2 = WebhookConfig.id o).
  { destruct (step_effect c1 c2 Hs He Hstep)
      as [[(Hw & Hh) | [(o1 & _ & _ & Hw & Hh) | [(id & Hw & Hh)
          | (r0 & o0 & a & Ho0 & Hw & Hh)]]] _]; rewrite Hh.
    - eauto.
    - exists o. rewrite lookup_app_l by (eapply lookup_lt_Some, Ho). auto.
    - eauto.
    - destruct (decide (r = r0)) as [-> | Hne].
      + eexists. split; [apply list_lookup_insert_eq; eapply lookup_lt_Some, Ho |].
        assert (Heq : Some o0 = Some o)
          by (etransitivity; [symmetry; exact Ho0 | exact Ho]).
        injection Heq as ->. reflexivity.
      + exists o. rewrite list_lookup_insert_ne by congruence. auto. }
  destruct Hnext as (o2 & Ho2 & Hid2).
  destruct (IH (step_sound _ _ _ _ _ _ Hs Hstep)
               (step_engaged _ _ _ _ _ _ Hs He Hstep) o2 Ho2) as (o3 & Ho3 & Hid3).
  exists o3. split; [exact Ho3 | congruence].
Qed.

(** An object that is not stored is never stored again: what a
    registration stores is a new object. *)
Lemma unlisted_stays c c' (r : ref) :
  sound c → engaged c →
  rtc (step URL_parses JSON_stringify Date_now Math_random) c c' →
  (r < length (webhook_heap (world c)))%nat →
  r ∉ listWebhooks (world c) →
  r ∉ listWebhooks (world c').
Proof.
  intros Hs He Hrtc. induction Hrtc as [c | c1 c2 c3 Hstep Hrtc IH]; [auto |].
  intros Hlt Hout.
  assert (Hnext : (r < length (webhook_heap (world c2)))%nat ∧
                  r ∉ listWebhooks (world c2)).
  { unfold listWebhooks in *.
    destruct (step_effect c1 c2 Hs He Hstep)
      as [[(Hw & Hh) | [(o1 & _ & _ & Hw & Hh) | [(id & Hw & Hh)
          | (r0 & o0 & a & Ho0 & Hw & Hh)]]] _]; rewrite Hw, Hh.
    - auto.
    - split; [rewrite length_app; lia |].
      intros [-> | Hin]%values_set_elem; [lia | contradiction].
    - split; [exact Hlt |]. intros Hin. apply Hout.
      eapply elem_of_sublist; [exact Hin | apply values_delete_sublist].
    - split; [now rewrite length_insert | exact Hout]. }
  destruct Hnext as [Hlt2 Hout2].
  apply IH; [eapply step_sound | eapply step_engaged | |]; eassumption.
Qed.

End Life.

(** ** Signature service, on every input *)

(** X8.  [verifySignature] throws exactly when the byte length of
    the signature is not 71, the length of [sha256=] and sixty-four
    digits; on the other signatures it returns whether the signature
    is the expected one. *)
Theorem verifySignature_result (payload signature secret : string) :
  verifySignature payload signature secret =
    if decide (String.length signature = 71%nat)
    then Normal (bool_decide (signature = generateSignature payload secret))
    else Throw (RangeError "Input buffers must have the same byte length").
Proof.
  destruct (decide _) as [Hlen | Hlen].
  - now apply verifySignature_same_length.
  - now apply verifySignature_other_length.
Qed.

(** ** Operations of the registry, composed *)

Lemma delete_set_fresh (k : string) (v : ref) (m : JSMap.t ref) :
  JSMap.get k m = None → JSMap.delete k (JSMap.set k v m) = m.
Proof.
  induction m as [|[k' v'] m IH]; simpl.
  - intros _. now destruct (decide (k = k)).
  - destruct (decide (k = k')) as [-> | Hne]; [discriminate |].
    intros Hget. simpl. destruct (decide (k = k')); [contradiction |].
    now rewrite IH.
Qed.

Lemma values_set_fresh (k : string) (v : ref) (m : JSMap.t ref) :
  JSMap.get k m = None → JSMap.values (JSMap.set k v m) = JSMap.values m ++ [v].
Proof.
  unfold JSMap.values. induction m as [|[k' v'] m IH]; simpl; [reflexivity |].
  destruct (decide (k = k')); [discriminate |]. intros Hget. simpl.
  f_equal. now apply IH.
Qed.

Lemma length_set_present (k : string) (v : ref) (m : JSMap.t ref) :
  is_Some (JSMap.get k m) → length (JSMap.set k v m) = length m.
Proof.
  induction m as [|[k' v'] m IH]; simpl; [intros [x Hx]; discriminate |].
  destruct (decide (k = k')); [reflexivity |]. intros H. simpl. now rewrite IH.
Qed.

Lemma values_delete_absent (k : string) (r : ref) (m : JSMap.t ref) :
  NoDup (JSMap.values m) → JSMap.get k m = Some r →
  r ∉ JSMap.values (JSMap.delete k m).
Proof.
  unfold JSMap.values. induction m as [|[k' v'] m IH]; simpl; [discriminate |].
  intros [Hv' Hnd]%NoDup_cons. destruct (decide (k = k')) as [-> | Hne].
  - intros [= ->] Hin. apply Hv'.
    eapply elem_of_sublist; [exact Hin | apply fmap_sublist, delete_sublist].
  - intros Hget. simpl. intros [-> | Hin]%elem_of_cons.
    + apply Hv'. eapply (get_Some_values (V := ref)), Hget.
    + now apply IH.
Qed.

Section Composition.

Context {any : Type}.
Context (URL_parses : string → bool).
Context (JSON_stringify : WebhookEvent.t any → string).
Context (Date_now : nat → Z) (Math_random : nat → string).

Implicit Types (w : World (any := any)) (event : WebhookEvent.t any).
Implicit Types (c : Config (any := any)).

Ltac run := unfold mbind, M_bind, mret, M_ret, gets, modify, effect; simpl.

(** X9.  A registration that passes validation leaves every other
    id as it was and every earlier object untouched; under an id that
    was free the new subscription comes last in [listWebhooks], and
    under an id that was taken it takes the place of the old one. *)
Theorem registerWebhook_keeps_the_others (url : string) (events : list string)
    (secret : option string) w :
  URL_parses url = true → events ≠ [] →
  let id := pretty (Date_now (tick w)) +:+ "-" +:+
            substring 2 9 (Math_random (S (tick w))) in
  let w' := (registerWebhook URL_parses Date_now Math_random url events secret w).2 in
  getWebhook id w' = Some (length (webhook_heap w)) ∧
  (∀ id', id' ≠ id → getWebhook id' w' = getWebhook id' w) ∧
  (getWebhook id w = None →
   listWebhooks w' = listWebhooks w ++ [length (webhook_heap w)]) ∧
  (is_Some (getWebhook id w) →
   length (listWebhooks w') = length (listWebhooks w)) ∧
  (∀ r o, webhook_heap w !! r = Some o → webhook_heap w' !! r = Some o).
Proof.
  intros Hurl Hev id w'. subst w'.
  rewrite registerWebhook_stores by assumption.
  unfold getWebhook, listWebhooks. simpl. fold id.
  split; [apply get_set_eq | split; [| split; [| split]]].
  - intros id' Hne. apply get_set_ne. congruence.
  - apply values_set_fresh.
  - intros Hsome. unfold JSMap.values. rewrite !length_fmap.
    now apply length_set_present.
  - intros r o Ho. rewrite lookup_app_l by (eapply lookup_lt_Some, Ho). exact Ho.
Qed.

(** X10.  Registering a subscription under a free id and deleting
    it again gives back the registry as it was: the deletion returns
    [true], and the two maps and the delivery records are those from
    before the registration. *)
Theorem register_then_delete (url : string) (events : list string)
    (secret : option string) w :
  URL_parses url = true → events ≠ [] →
  let id := pretty (Date_now (tick w)) +:+ "-" +:+
            substring 2 9 (Math_random (S (tick w))) in
  getWebhook id w = None →
  let w1 := (registerWebhook URL_parses Date_now Math_random url events secret w).2 in
  let result := deleteWebhook id w1 in
  result.1 = Normal true ∧
  webhooks result.2 = webhooks w ∧
  deliveries result.2 = deliveries w ∧
  delivery_heap result.2 = delivery_heap w ∧
  trace result.2 =
    trace w ++ [Emit (webhook_registered (length (webhook_heap w)));
                Emit (webhook_deleted id)].
Proof.
  intros Hurl Hev id Hfree w1 result. subst result w1.
  rewrite registerWebhook_stores by assumption. fold id.
  unfold deleteWebhook, webhooks_delete, emit, JSMap.has. run.
  rewrite get_set_eq. rewrite bool_decide_eq_true_2 by now eexists. simpl.
  rewrite delete_set_fresh by exact Hfree. rewrite <- app_assoc.
  repeat split.
Qed.

(** X11.  Deleting the same id a second time returns [false],
    emits nothing and changes nothing. *)
Theorem deleteWebhook_twice (id : string) w :
  deleteWebhook id (deleteWebhook id w).2 = (Normal false, (deleteWebhook id w).2).
Proof.
  destruct (deleteWebhook_frame id w) as (Hw & _).
  destruct (deleteWebhook id w) as [res w1]. simpl in *.
  unfold deleteWebhook, webhooks_delete, emit, JSMap.has. run.
  rewrite Hw, get_delete_eq.
  rewrite bool_decide_eq_false_2 by (intros [x Hx]; discriminate). simpl.
  rewrite delete_absent by apply get_delete_eq.
  rewrite <- Hw. now destruct w1.
Qed.

(** X12.  In a running service [updateWebhookStatus(id, active)]
    on a stored id returns the stored object, writes its [active] flag
    and nothing else: the other objects, the two maps and the delivery
    records are untouched and [webhook:updated] is emitted; on an id
    that is not stored it returns nothing, emits nothing and changes
    nothing. *)
Theorem updateWebhookStatus_effect c (id : string) (active : bool) :
  reachable URL_parses JSON_stringify Date_now Math_random c →
  let w := world c in
  let result := updateWebhookStatus id active w in
  match getWebhook id w with
  | Some r =>
      result.1 = Normal (Some r) ∧
      (∃ o, webhook_heap w !! r = Some o ∧
            webhook_heap result.2 !! r = Some (WebhookConfig.with_active active o)) ∧
      (∀ r', r' ≠ r → webhook_heap result.2 !! r' = webhook_heap w !! r') ∧
      webhooks result.2 = webhooks w ∧
      deliveries result.2 = deliveries w ∧
      delivery_heap result.2 = delivery_heap w ∧
      trace result.2 = trace w ++ [Emit (webhook_updated r)]
  | None => result = (Normal None, w)
  end.
Proof.
  intros Hreach w result. subst w result. destruct c as [w us]. simpl.
  apply reachable_sound, sound_elim in Hreach as (_ & Hreg & _).
  destruct (getWebhook id w) as [r|] eqn:Hget;
    [| now apply updateWebhookStatus_misses].
  destruct (lookup_lt_is_Some_2 (webhook_heap w) r) as [o Ho].
  { apply Hreg. eapply get_Some_values, Hget. }
  rewrite (updateWebhookStatus_writes id active w r o Hget Ho). simpl.
  split; [reflexivity | split; [| split; [| repeat split]]].
  - exists o. split; [exact Ho |].
    apply list_lookup_insert_eq. eapply lookup_lt_Some, Ho.
  - intros r' Hne. apply list_lookup_insert_ne. congruence.
Qed.

(** The units that [triggerEvent] starts for a stored object. *)
Lemma started_for (type : string) (data : any) w (r : ref) :
  NoDup (listWebhooks w) → r ∈ listWebhooks w →
  length (filter (λ u, of_webhook u = r)
            (started (triggerEvent JSON_stringify Date_now Math_random type data w).1)) =
    if matches type w r then 1%nat else 0%nat.
Proof.
  intros Hnd Hr.
  destruct (triggerEvent_fans_out JSON_stringify Date_now Math_random type data w)
    as (news & qs & Hres & _).
  rewrite Hres. unfold started. rewrite suspended_imap.
  rewrite filter_fmap_length, of_webhook_imap by reflexivity.
  rewrite NoDup_count by (apply NoDup_filter, Hnd).
  destruct (decide _) as [Hin | Hnin].
  - apply list_elem_of_filter in Hin as [Hm _]. now destruct (matches type w r).
  - destruct (matches type w r) eqn:Hm; [| reflexivity].
    destruct Hnin. apply list_elem_of_filter. split; [now rewrite Hm | exact Hr].
Qed.

Lemma started_are_stored (type : string) (data : any) w (u : DeliveryUnit) :
  u ∈ started (triggerEvent JSON_stringify Date_now Math_random type data w).1 →
  of_webhook u ∈ listWebhooks w ∧ matches type w (of_webhook u).
Proof.
  destruct (triggerEvent_fans_out JSON_stringify Date_now Math_random type data w)
    as (news & qs & Hres & _).
  rewrite Hres. unfold started. rewrite suspended_imap.
  intros (k & r & -> & Hk)%elem_of_lookup_imap. simpl.
  apply list_elem_of_lookup_2, list_elem_of_filter in Hk as [Hm Hr]. auto.
Qed.

(** X13.  The [active] flag decides who is served: after
    [updateWebhookStatus(id, active)] on a stored subscription, an
    event starts one delivery to it when [active] is [true] and the
    subscription lists the type of the event, and none otherwise. *)
Theorem activation_decides_delivery c (id : string) (active : bool) (r : ref)
    (type : string) (data : any) :
  reachable URL_parses JSON_stringify Date_now Math_random c →
  getWebhook id (world c) = Some r →
  let w1 := (updateWebhookStatus id active (world c)).2 in
  ∃ o, webhook_heap (world c) !! r = Some o ∧
       length (filter (λ u, of_webhook u = r)
                 (started (triggerEvent JSON_stringify Date_now Math_random
                             type data w1).1)) =
         if active && bool_decide (type ∈ WebhookConfig.events o)
         then 1%nat else 0%nat.
Proof.
  intros Hreach Hget w1. subst w1. destruct c as [w us]. simpl in *.
  apply reachable_sound, sound_elim in Hreach as (Hnd & Hreg & _).
  destruct (lookup_lt_is_Some_2 (webhook_heap w) r) as [o Ho].
  { apply Hreg. eapply get_Some_values, Hget. }
  exists o. split; [exact Ho |].
  rewrite (updateWebhookStatus_writes id active w r o Hget Ho). simpl.
  rewrite started_for.
  - unfold matches. simpl.
    rewrite list_lookup_insert_eq by (eapply lookup_lt_Some, Ho). reflexivity.
  - exact Hnd.
  - unfold listWebhooks. simpl. eapply get_Some_values, Hget.
Qed.

(** X14.  After [deleteWebhook(id)] the subscription that was
    stored under [id] is not found, and however the service goes on
    from there the deleted object is never stored again: no later
    event, whatever was registered, updated, triggered or delivered
    in between, starts a delivery to it. *)
Theorem deleted_webhook_gets_nothing c c' (id : string) (r : ref)
    (type : string) (data : any) :
  reachable URL_parses JSON_stringify Date_now Math_random c →
  getWebhook id (world c) = Some r →
  rtc (step URL_parses JSON_stringify Date_now Math_random)
      (mkConfig ((deleteWebhook id (world c)).2) (units c)) c' →
  getWebhook id (deleteWebhook id (world c)).2 = None ∧
  (r ∉ listWebhooks (world c')) ∧
  ∀ u, u ∈ started (triggerEvent JSON_stringify Date_now Math_random
                      type data (world c')).1 →
       of_webhook u ≠ r.
Proof.
  intros Hreach Hget Hrtc. destruct c as [w us]. simpl in *.
  assert (Hreach1 : reachable URL_parses JSON_stringify Date_now Math_random
                      (mkConfig ((deleteWebhook id w).2) us))
    by (eapply reachable_step; [exact Hreach | apply step_deleteWebhook]).
  apply reachable_sound in Hreach as Hs. apply sound_elim in Hs as (Hnd & Hreg & _).
  assert (Hout : r ∉ listWebhooks (world c')).
  { eapply (unlisted_stays URL_parses JSON_stringify Date_now Math_random);
      [eapply reachable_sound, Hreach1 | eapply reachable_engaged, Hreach1
      | exact Hrtc | |]; simpl.
    - destruct (deleteWebhook_frame id w) as (_ & _ & -> & _).
      apply Hreg. eapply get_Some_values, Hget.
    - unfold listWebhooks. destruct (deleteWebhook_frame id w) as (-> & _).
      now apply values_delete_absent. }
  split; [| split; [exact Hout |]].
  - unfold getWebhook. destruct (deleteWebhook_frame id w) as (-> & _).
    apply get_delete_eq.
  - intros u [Hin _]%started_are_stored Heq. apply Hout. now rewrite <- Heq.
Qed.

(** ** The delivery engine *)

(** The attempt of the service is the attempt with a serialiser that
    returns. *)
Lemma executeDelivery_serialises (webhook : ref) event w :
  Serialising.executeDelivery (λ e, Normal (JSON_stringify e)) Date_now Math_random
    webhook event w =
  executeDelivery JSON_stringify Date_now Math_random webhook event w.
Proof. reflexivity. Qed.

(** X15.  An attempt for a stored webhook first serialises the
    event.  When that throws, on data that cannot be serialised, the
    attempt throws the same error and has done nothing: no request is
    sent and the service is as it was.  When it returns, the attempt
    posts the serialised event to the URL of the webhook, with the ids
    of the webhook and of the event in its headers; the request
    carries a signature header exactly when the webhook has a secret
    that is not the empty string, and that signature verifies against
    the body under the secret. *)
Theorem executeDelivery_request (stringify : WebhookEvent.t any → Completion string)
    (webhook : ref) event w (config : WebhookConfig.t) :
  webhook_heap w !! webhook = Some config →
  let result := Serialising.executeDelivery stringify Date_now Math_random
                  webhook event w in
  match stringify event with
  | Throw error => result = (Throw error, w)
  | Normal payload =>
      result.1 = Normal tt ∧
      ∃ q, trace result.2 = trace w ++ [Fetch q] ∧
           Request.url q = WebhookConfig.url config ∧
           Request.method q = "POST" ∧
           Request.body q = payload ∧
           header "X-Webhook-ID" q = Some (WebhookConfig.id config) ∧
           header "X-Event-ID" q = Some (WebhookEvent.id event) ∧
           (is_Some (header "X-Webhook-Signature" q) ↔
            ∃ s, WebhookConfig.secret config = Some s ∧ s ≠ "") ∧
           (∀ s sig, WebhookConfig.secret config = Some s →
                     header "X-Webhook-Signature" q = Some sig →
                     verifySignature (Request.body q) sig s = Normal true)
  end.
Proof.
  intros Hw result. subst result.
  unfold Serialising.executeDelivery, read_webhook, generateId, now, random36, fetch.
  run. destruct (stringify event) as [payload | error]; [| reflexivity].
  rewrite Hw. simpl. split; [reflexivity |].
  eexists. split; [reflexivity |]. unfold header. simpl.
  split; [reflexivity | split; [reflexivity | split; [reflexivity |]]].
  destruct (WebhookConfig.secret config) as [s|]; [destruct (decide (s = "")) |].
  - repeat split; try reflexivity.
    + intros [x Hx]. discriminate.
    + intros (s' & [= <-] & Hne). contradiction.
    + intros s' sig _ Hsig. discriminate.
  - repeat split; try reflexivity.
    + intros _. now exists s.
    + intros _. now eexists.
    + intros s' sig [= <-] Hsig. simpl in Hsig. injection Hsig as <-.
      rewrite verifySignature_same_length by apply generateSignature_length.
      now rewrite bool_decide_eq_true_2.
  - repeat split; try reflexivity.
    + intros [x Hx]. discriminate.
    + intros (s' & Hs' & _). discriminate.
    + intros s' sig Hs'. discriminate.
Qed.

Lemma timers_app (a b : list (Effect any)) : timers (a ++ b) = timers a ++ timers b.
Proof. apply omap_app. Qed.

Lemma requests_app (a b : list (Effect any)) :
  requests (a ++ b) = requests a ++ requests b.
Proof. apply omap_app. Qed.

Ltac retry Hw q :=
  match goal with
  | |- context [answer _ _ _ ?u ?o ?w'] =>
      let H := fresh "Hstep" in
      edestruct (answer_retry JSON_stringify Date_now Math_random u o w') as [q H];
        [ exact Hw
        | simpl;
          first [ apply list_lookup_middle; reflexivity
                | apply list_lookup_insert_eq; rewrite length_app; simpl; lia ]
        | assumption
        | simpl; unfold maxRetries; lia
        | rewrite H; clear H; simpl; rewrite ?list_insert_insert_eq ]
  end.

Ltac succeed :=
  match goal with
  | |- context [answer _ _ _ ?u ?o ?w'] =>
      erewrite (answer_success JSON_stringify Date_now Math_random u _ _ w'),
               (sendWebhook_settled_success JSON_stringify Date_now Math_random u _ _ w');
        [ | simpl;
            first [ apply list_lookup_middle; reflexivity
                  | apply list_lookup_insert_eq; rewrite length_app; simpl; lia ]
          | assumption
          | simpl;
            first [ apply list_lookup_middle; reflexivity
                  | apply list_lookup_insert_eq; rewrite length_app; simpl; lia ]
          | assumption ]
  end.

(** X16.  When a delivery gets a 2xx answer after zero to three
    failed attempts, it ends in [success] with one attempt more than
    there were failures, the status code of the answer and a
    completed timestamp; the timers set are the first backoff delays,
    one for each failure, one request is sent for each attempt, and
    the record carries the message of the last failure, or no error
    when the first attempt succeeded. *)
Theorem delivery_succeeds_after_failures
    (webhook : ref) event (fails : list FetchOutcome) (status : Z) (body : string)
    (more : list FetchOutcome) w (config : WebhookConfig.t) :
  webhook_heap w !! webhook = Some config →
  Forall (λ o, succeeds o = false) fails →
  (length fails ≤ maxRetries)%nat →
  ok status = true →
  let result := deliver JSON_stringify Date_now Math_random webhook event
                  (fails ++ Responded status body :: more) w in
  let delivery := length (delivery_heap w) in
  result.1 = Normal (Returned delivery) ∧
  ∃ record,
    delivery_heap result.2 !! delivery = Some record ∧
    WebhookDelivery.status record = success ∧
    WebhookDelivery.attempts record = (length fails + 1)%nat ∧
    WebhookDelivery.responseStatus record = Some status ∧
    WebhookDelivery.error record = last (detail <$> fails) ∧
    is_Some (WebhookDelivery.completedAt record) ∧
    timers (trace result.2) =
      timers (trace w) ++ take (length fails) (Some <$> retryDelays) ∧
    length (requests (trace result.2)) =
      (length (requests (trace w)) + length fails + 1)%nat.
Proof.
  intros Hw Hfails Hlen Hok result delivery. subst result.
  unfold deliver, mbind, M_bind.
  destruct (sendWebhook_starts JSON_stringify Date_now Math_random
              webhook event w config Hw) as [q1 ->].
  destruct fails as [|o1 [|o2 [|o3 [|o4 rest]]]];
    [ | | | | simpl in Hlen; unfold maxRetries in Hlen; lia ];
    repeat match goal with
           | H : Forall _ (_ :: _) |- _ => apply Forall_cons in H as [? H]
           end;
    cbn [app drive]; unfold mbind, M_bind.
  - succeed. rewrite drive_returned. simpl. split; [reflexivity |].
    eexists. split; [apply list_lookup_insert_eq; rewrite length_app; simpl; lia |].
    simpl. rewrite <- !app_assoc, !timers_app, !requests_app, !length_app. simpl.
    rewrite app_nil_r. repeat split; eauto; lia.
  - retry Hw q2. succeed. rewrite drive_returned. simpl. split; [reflexivity |].
    rewrite list_insert_insert_eq.
    eexists. split; [apply list_lookup_insert_eq; rewrite length_app; simpl; lia |].
    simpl. rewrite <- !app_assoc, !timers_app, !requests_app, !length_app. simpl.
    repeat split; eauto; lia.
  - retry Hw q2. retry Hw q3. succeed. rewrite drive_returned. simpl.
    split; [reflexivity |]. rewrite list_insert_insert_eq.
    eexists. split; [apply list_lookup_insert_eq; rewrite length_app; simpl; lia |].
    simpl. rewrite <- !app_assoc, !timers_app, !requests_app, !length_app. simpl.
    repeat split; eauto; lia.
  - retry Hw q2. retry Hw q3. retry Hw q4. succeed. rewrite drive_returned. simpl.
    split; [reflexivity |]. rewrite list_insert_insert_eq.
    eexists. split; [apply list_lookup_insert_eq; rewrite length_app; simpl; lia |].
    simpl. rewrite <- !app_assoc, !timers_app, !requests_app, !length_app. simpl.
    repeat split; eauto; lia.
Qed.

(** X17.  In a running service delivering never throws and never
    touches the registry: [triggerEvent], the resumption of a unit
    with any answer of the transport, failures included, and the
    resumption of a unit after its timer all complete normally and
    leave the webhooks map and every webhook object as they were. *)
Theorem delivering_never_throws c :
  reachable URL_parses JSON_stringify Date_now Math_random c →
  let w := world c in
  (∀ type data,
     let result := triggerEvent JSON_stringify Date_now Math_random type data w in
     (∃ ps, result.1 = Normal ps) ∧
     webhooks result.2 = webhooks w ∧ webhook_heap result.2 = webhook_heap w) ∧
  (∀ u o, u ∈ units c →
     let result := sendWebhook_settled JSON_stringify Date_now Math_random u o w in
     (∃ p, result.1 = Normal p) ∧
     webhooks result.2 = webhooks w ∧ webhook_heap result.2 = webhook_heap w) ∧
  (∀ u, u ∈ units c →
     let result := sendWebhook_delayed JSON_stringify Date_now Math_random u w in
     (∃ p, result.1 = Normal p) ∧
     webhooks result.2 = webhooks w ∧ webhook_heap result.2 = webhook_heap w).
Proof.
  intros Hreach w. subst w. destruct c as [w us]. simpl.
  apply reachable_sound, sound_elim in Hreach as (_ & _ & _ & Hus & _).
  split; [| split].
  - intros type data.
    destruct (triggerEvent_fans_out JSON_stringify Date_now Math_random type data w)
      as (news & qs & Hres & Hw & Hwh & _).
    simpl. eauto.
  - intros u o Hin. destruct (Hus u Hin) as [_ Hdr].
    destruct (lookup_lt_is_Some_2 _ _ Hdr) as [d Hd].
    destruct (succeeds o) eqn:Ho.
    + destruct (executeDelivery_settled_success o Ho) as (status & body & -> & _).
      rewrite (sendWebhook_settled_success JSON_stringify Date_now Math_random
                 u status body w d Hd Ho). simpl. eauto.
    + destruct (Nat.lt_ge_cases (attempt u) maxRetries) as [Hk | Hk].
      * rewrite (sendWebhook_settled_retry JSON_stringify Date_now Math_random
                   u o w d Hd Ho Hk). simpl. eauto.
      * rewrite (sendWebhook_settled_exhausted JSON_stringify Date_now Math_random
                   u o w d Hd Ho Hk). simpl. eauto.
  - intros u Hin. destruct (Hus u Hin) as [Hwr Hdr].
    destruct (lookup_lt_is_Some_2 _ _ Hdr) as [d Hd].
    destruct (lookup_lt_is_Some_2 _ _ Hwr) as [config Hw].
    unfold sendWebhook_delayed.
    destruct (Nat.le_gt_cases (attempt u + 1) maxRetries) as [Hk | Hk].
    + destruct (sendWebhook_loop_enters JSON_stringify Date_now Math_random
                  (of_webhook u) (of_delivery u) (of_event u) (attempt u + 1)
                  w config d Hw Hd Hk) as [q ->]. simpl. eauto.
    + rewrite sendWebhook_loop_leaves by exact Hk. simpl. eauto.
Qed.

(** X18.  In a running service, under every interleaving, a record
    counts between one and four attempts; it carries no error only
    while its first attempt has not failed; and it is [failed] only
    with four attempts and an error. *)
Theorem attempts_are_accounted c (r : ref) (d : WebhookDelivery.t) :
  reachable URL_parses JSON_stringify Date_now Math_random c →
  delivery_heap (world c) !! r = Some d →
  (1 ≤ WebhookDelivery.attempts d ≤ 4)%nat ∧
  (WebhookDelivery.error d = None → WebhookDelivery.attempts d = 1%nat) ∧
  (WebhookDelivery.status d = failed →
   WebhookDelivery.attempts d = 4%nat ∧ is_Some (WebhookDelivery.error d)).
Proof.
  intros Hreach Hd.
  destruct (reachable_engaged _ _ _ _ c Hreach) as (_ & _ & Hacc).
  destruct (Forall_lookup_1 _ _ _ _ Hacc Hd) as (Hrange & Hfail & _ & Hnone).
  unfold maxRetries in *. simpl in *. auto.
Qed.

End Composition.

(** * The management API *)

Section Api.

Context {any : Type}.
Context (URL_parses : string → bool).
Context (JSON_stringify : WebhookEvent.t any → string).
Context (Date_now : nat → Z) (Math_random : nat → string).
Context (test_data : any).

Implicit Types (w : World (any := any)) (c : Config (any := any)).

Ltac run := unfold mbind, M_bind, mret, M_ret, gets, modify, effect; simpl.

(** The two ways in which [POST /] ends. *)
Lemma post_webhook_cases (url : option string) (events : option (list string))
    (secret : option string) w :
  let result := post_webhook URL_parses Date_now Math_random url events secret w in
  (result.1 = Normal (Response.mk 201 (success_webhook (length (webhook_heap w)))) ∧
   acceptable URL_parses url events = true) ∨
  (∃ body, result.1 = Normal (Response.mk 400 body)) ∧ result.2 = w ∧
  acceptable URL_parses url events = false.
Proof.
  intros result. subst result. unfold post_webhook, try_catch, acceptable, falsy.
  destruct url as [u|]; [| right; eauto].
  destruct events as [evs|]; [| right; eauto].
  destruct (bool_decide (u = "")) eqn:Hu; simpl.
  { right. split; [eauto | split; [reflexivity | now destruct evs]]. }
  destruct (URL_parses u) eqn:Hurl; [destruct evs as [|e evs] |].
  - run. rewrite registerWebhook_refuses by now right. rewrite Hurl. simpl.
    right. eauto.
  - run. rewrite registerWebhook_stores by (assumption || discriminate). simpl.
    left. eauto.
  - run. rewrite registerWebhook_refuses by now left. rewrite Hurl. simpl.
    right. split; [eauto | split; [reflexivity | now destruct evs]].
Qed.

(** X19.  [POST /] always answers: with 201 and the new webhook
    when the request is acceptable, the state being the one that
    [registerWebhook] leaves, and with 400 in every other case, the
    service then being left as it was. *)
Theorem post_webhook_answers (url : option string) (events : option (list string))
    (secret : option string) w :
  let result := post_webhook URL_parses Date_now Math_random url events secret w in
  ∃ answer,
    result.1 = Normal answer ∧
    if acceptable URL_parses url events
    then Response.status answer = 201 ∧
         Response.json answer = success_webhook (length (webhook_heap w)) ∧
         getWebhook (pretty (Date_now (tick w)) +:+ "-" +:+
                     substring 2 9 (Math_random (S (tick w)))) result.2 =
           Some (length (webhook_heap w))
    else Response.status answer = 400 ∧ result.2 = w.
Proof.
  intros result. subst result. unfold post_webhook, try_catch, acceptable, falsy.
  destruct url as [u|]; [| now eexists].
  destruct events as [evs|]; [| now eexists].
  destruct (bool_decide (u = "")) eqn:Hu; simpl.
  { eexists. split; [reflexivity |]. now destruct evs. }
  destruct (URL_parses u) eqn:Hurl; [destruct evs as [|e evs] |].
  - (* an empty array *)
    run. rewrite registerWebhook_refuses by now right. rewrite Hurl. simpl. eauto.
  - run. rewrite registerWebhook_stores by (assumption || discriminate). simpl.
    eexists. split; [reflexivity |]. repeat split. apply get_set_eq.
  - (* a URL that does not parse *)
    run. rewrite registerWebhook_refuses by now left. rewrite Hurl. simpl.
    eexists. split; [reflexivity |]. now destruct evs.
Qed.

(** What [getDeliveries] reads. *)
Lemma getDeliveries_reads (webhookId : option string) w w' :
  deliveries w' = deliveries w → delivery_heap w' = delivery_heap w →
  getDeliveries webhookId w' = getDeliveries webhookId w.
Proof. unfold getDeliveries. now intros -> ->. Qed.

(** X20.  What [POST /] has stored can be read back: [GET /:id]
    with the id of the new webhook answers 200 with the same object,
    which carries the URL, the events and the secret of the request
    and is active; [GET /] lists it last when its id was free; and its
    delivery history is served, with the records that name its id. *)
Theorem post_then_get (u : string) (evs : list string) (secret : option string) w :
  u ≠ "" → URL_parses u = true → evs ≠ [] →
  let posted := post_webhook URL_parses Date_now Math_random (Some u) (Some evs) secret w in
  let id := pretty (Date_now (tick w)) +:+ "-" +:+
            substring 2 9 (Math_random (S (tick w))) in
  let r := length (webhook_heap w) in
  posted.1 = Normal (Response.mk 201 (success_webhook r)) ∧
  webhook_heap posted.2 !! r =
    Some (WebhookConfig.mk id u evs secret true (Date_now (S (S (tick w)))) 0) ∧
  get_webhook id posted.2 = (Normal (Response.mk 200 (success_webhook r)), posted.2) ∧
  (getWebhook id w = None →
   get_webhooks posted.2 =
     (Normal (Response.mk 200 (success_webhooks (listWebhooks w ++ [r]))), posted.2)) ∧
  get_deliveries id posted.2 =
    (Normal (Response.mk 200 (success_deliveries (getDeliveries (Some id) w))), posted.2).
Proof.
  intros Hu Hurl Hev posted id r. subst posted.
  unfold post_webhook, try_catch, falsy.
  rewrite bool_decide_eq_false_2 by exact Hu. run.
  rewrite registerWebhook_stores by assumption. simpl. fold id r.
  split; [reflexivity | split; [| split; [| split]]].
  - subst r. now rewrite lookup_app_r, Nat.sub_diag by lia.
  - unfold get_webhook, getWebhook. run. now rewrite get_set_eq.
  - intros Hfree. unfold get_webhooks, listWebhooks. run.
    now rewrite values_set_fresh by exact Hfree.
  - unfold get_deliveries, getWebhook. run. now rewrite get_set_eq.
Qed.

(** X21.  The delivery history of a webhook is served while the
    webhook is stored and is out of reach once it is deleted: after
    [DELETE /:id] has answered 200, [GET /:id/deliveries] answers 404
    although the records are all kept, and a second [DELETE /:id]
    answers 404 too. *)
Theorem history_is_hidden_after_delete (id : string) (r : ref) w :
  getWebhook id w = Some r →
  let deleted := delete_webhook id w in
  get_deliveries id w =
    (Normal (Response.mk 200 (success_deliveries (getDeliveries (Some id) w))), w) ∧
  deleted.1 = Normal (Response.mk 200 (success_message "Webhook deleted successfully")) ∧
  get_deliveries id deleted.2 =
    (Normal (Response.mk 404 (failure "Webhook not found")), deleted.2) ∧
  getDeliveries (Some id) deleted.2 = getDeliveries (Some id) w ∧
  delete_webhook id deleted.2 =
    (Normal (Response.mk 404 (failure "Webhook not found")), deleted.2).
Proof.
  intros Hget deleted. subst deleted.
  split; [unfold get_deliveries; run; now rewrite Hget |].
  assert (Hdel : delete_webhook id w =
            (Normal (Response.mk 200 (success_message "Webhook deleted successfully")),
             mkWorld (JSMap.delete id (webhooks w)) (deliveries w) (webhook_heap w)
               (delivery_heap w) (trace w ++ [Emit (webhook_deleted id)]) (tick w))).
  { unfold delete_webhook, deleteWebhook, webhooks_delete, emit, JSMap.has. run.
    unfold getWebhook in Hget. rewrite Hget.
    now rewrite bool_decide_eq_true_2 by now eexists. }
  rewrite Hdel. simpl.
  split; [reflexivity | split; [| split]].
  - unfold get_deliveries, getWebhook. run. now rewrite get_delete_eq.
  - reflexivity.
  - unfold delete_webhook, deleteWebhook, webhooks_delete, emit, JSMap.has. run.
    rewrite get_delete_eq.
    rewrite bool_decide_eq_false_2 by (intros [x Hx]; discriminate). simpl.
    now rewrite delete_absent by apply get_delete_eq.
Qed.

(** X22.  In a running service every request of the routing table
    but one is answered, with 200, 201, 400 or 404; a request answered
    with 400 or 404 leaves the service as it was, and so does every
    [GET], which is never answered with 400.  The one that is not
    answered is [PATCH /:id] without a parsed body: its handler throws
    a [TypeError], whatever the id, and leaves the service as it
    was. *)
Theorem refused_requests_change_nothing c (call : Call) :
  reachable URL_parses JSON_stringify Date_now Math_random c →
  let result := serve URL_parses Date_now Math_random call (world c) in
  match call with
  | PATCH_id _ None =>
      ∃ error, result = (Throw error, world c) ∧ Exception.name error = "TypeError"
  | _ =>
      ∃ answer,
        result.1 = Normal answer ∧
        Response.status answer ∈ [200; 201; 400; 404] ∧
        (Response.status answer ∈ [400; 404] → result.2 = world c) ∧
        (is_GET call = true →
         result.2 = world c ∧ Response.status answer ∈ [200; 404])
  end.
Proof.
  intros Hreach result. subst result. destruct c as [w us]. simpl.
  apply reachable_sound, sound_elim in Hreach as (_ & Hreg & _).
  destruct call as [url events secret | | id | id | id [[active|]|] | id]; simpl.
  - destruct (post_webhook_cases url events secret w)
      as [[Hres _] | ([body Hres] & Hw & _)]; rewrite Hres.
    + eexists. split; [reflexivity |]. simpl.
      split; [set_solver | split; [| discriminate]].
      intros [Hin | Hin%list_elem_of_singleton]%elem_of_cons; discriminate.
    + eexists. split; [reflexivity |]. simpl.
      split; [set_solver | split; [| discriminate]]. intros _. exact Hw.
  - eexists. split; [reflexivity |]. simpl.
    split; [set_solver | split; [reflexivity |]]. intros _. split; [reflexivity | set_solver].
  - unfold get_webhook. run. destruct (getWebhook id w); simpl;
      (eexists; split; [reflexivity |]; simpl;
       split; [set_solver | split; [reflexivity |]];
       intros _; split; [reflexivity | set_solver]).
  - unfold delete_webhook, deleteWebhook, webhooks_delete, emit, JSMap.has. run.
    destruct (JSMap.get id (webhooks w)) as [r|] eqn:Hget.
    + rewrite bool_decide_eq_true_2 by now eexists. simpl.
      eexists. split; [reflexivity |]. simpl.
      split; [set_solver | split; [| discriminate]].
      intros [Hin | Hin%list_elem_of_singleton]%elem_of_cons; discriminate.
    + rewrite bool_decide_eq_false_2 by (intros [x Hx]; discriminate). simpl.
      rewrite delete_absent by exact Hget.
      eexists. split; [reflexivity |]. simpl.
      split; [set_solver | split; [| discriminate]]. now destruct w.
  - (* a boolean *)
    unfold patch_webhook. run.
    destruct (getWebhook id w) as [r|] eqn:Hget.
    + destruct (lookup_lt_is_Some_2 (webhook_heap w) r) as [o Ho].
      { apply Hreg. eapply get_Some_values, Hget. }
      rewrite (updateWebhookStatus_writes id active w r o Hget Ho). simpl.
      eexists. split; [reflexivity |]. simpl.
      split; [set_solver | split; [| discriminate]].
      intros [Hin | Hin%list_elem_of_singleton]%elem_of_cons; discriminate.
    + rewrite (updateWebhookStatus_misses id active w Hget). simpl.
      eexists. split; [reflexivity |]. simpl.
      split; [set_solver | split; [| discriminate]]. reflexivity.
  - (* not a boolean *)
    eexists. split; [reflexivity |]. simpl.
    split; [set_solver | split; [| discriminate]]. reflexivity.
  - (* no body *)
    eexists. split; reflexivity.
  - unfold get_deliveries. run. destruct (getWebhook id w); simpl;
      (eexists; split; [reflexivity |]; simpl;
       split; [set_solver | split; [reflexivity |]];
       intros _; split; [reflexivity | set_solver]).
Qed.

Lemma delete_set (k : string) (v : ref) (m : JSMap.t ref) :
  JSMap.delete k (JSMap.set k v m) = JSMap.delete k m.
Proof.
  induction m as [|[k' v'] m IH]; simpl.
  - now destruct (decide (k = k)).
  - destruct (decide (k = k')) as [-> | Hne]; simpl.
    + now destruct (decide (k' = k')).
    + destruct (decide (k = k')); [contradiction | now rewrite IH].
Qed.

(** [POST /test] up to its [await], on a URL that parses. *)
Lemma post_test_begins (u : string) (secret : option string) w :
  u ≠ "" → URL_parses u = true →
  let id := pretty (Date_now (S (S (tick w)))) +:+ "-" +:+
            substring 2 9 (Math_random (S (S (S (tick w))))) in
  let r := length (webhook_heap w) in
  let o := WebhookConfig.mk id u ["test"] secret true (Date_now (S (S (S (S (tick w)))))) 0 in
  let w1 := mkWorld (JSMap.set id r (webhooks w)) (deliveries w) (webhook_heap w ++ [o])
              (delivery_heap w) (trace w ++ [Emit (webhook_registered r)])
              (S (S (S (S (S (tick w)))))) in
  ∃ ps,
    (triggerEvent JSON_stringify Date_now Math_random "test" test_data w1).1 = Normal ps ∧
    post_test URL_parses JSON_stringify Date_now Math_random test_data (Some u) secret w =
      (Normal (inr (r, ps)),
       (triggerEvent JSON_stringify Date_now Math_random "test" test_data w1).2).
Proof.
  intros Hu Hurl id r o w1.
  unfold post_test, try_catch, falsy. rewrite bool_decide_eq_false_2 by exact Hu.
  unfold now. run.
  rewrite registerWebhook_stores by (assumption || discriminate). simpl.
  fold id r o w1.
  destruct (triggerEvent_fans_out JSON_stringify Date_now Math_random "test" test_data w1)
    as (news & qs & Hres & _).
  destruct (triggerEvent JSON_stringify Date_now Math_random "test" test_data w1)
    as [res w2]. simpl in Hres. subst res. simpl. eauto.
Qed.

(** X23.  [POST /test] with a URL that parses registers a temporary
    webhook for the URL, subscribed to [test] alone, and triggers a
    [test] event in the service: one delivery is started to the
    temporary webhook; and of the other stored webhooks, each one
    whose [active] flag is set and whose events include [test] gets
    one delivery, and each other one gets none. *)
Theorem post_test_reaches_every_test_subscriber c (u : string) (secret : option string) :
  reachable URL_parses JSON_stringify Date_now Math_random c →
  u ≠ "" → URL_parses u = true →
  let w := world c in
  let r := length (webhook_heap w) in
  ∃ ps w',
    post_test URL_parses JSON_stringify Date_now Math_random test_data (Some u) secret w =
      (Normal (inr (r, ps)), w') ∧
    (∃ o, webhook_heap w' !! r = Some o ∧
          WebhookConfig.url o = u ∧
          WebhookConfig.events o = ["test"] ∧
          WebhookConfig.secret o = secret ∧
          getWebhook (WebhookConfig.id o) w' = Some r) ∧
    length (filter (λ x, of_webhook x = r) (suspended ps)) = 1%nat ∧
    ∀ (r' : ref) o', r' ∈ listWebhooks w → r' ∈ listWebhooks w' →
          webhook_heap w !! r' = Some o' →
          length (filter (λ x, of_webhook x = r') (suspended ps)) =
            if WebhookConfig.active o' && bool_decide ("test" ∈ WebhookConfig.events o')
            then 1%nat else 0%nat.
Proof.
  intros Hreach Hu Hurl w r. subst w r. destruct c as [w us]. simpl.
  apply reachable_sound, sound_elim in Hreach as (Hnd & Hreg & _).
  destruct (post_test_begins u secret w Hu Hurl) as (ps & Hps & ->).
  set (id := pretty (Date_now (S (S (tick w)))) +:+ "-" +:+
             substring 2 9 (Math_random (S (S (S (tick w)))))) in *.
  set (r := length (webhook_heap w)) in *.
  set (o := WebhookConfig.mk id u ["test"] secret true _ 0) in *.
  set (w1 := mkWorld _ _ _ _ _ _) in *.
  assert (Hnd1 : NoDup (listWebhooks w1)).
  { apply values_set_NoDup; [exact Hnd |]. intros Hin%Hreg. subst r. lia. }
  assert (Hr : r ∈ listWebhooks w1) by (eapply get_Some_values, get_set_eq).
  assert (Ho : webhook_heap w1 !! r = Some o).
  { subst w1 r. simpl. now rewrite lookup_app_r, Nat.sub_diag by lia. }
  destruct (triggerEvent_fans_out JSON_stringify Date_now Math_random "test" test_data w1)
    as (news & qs & _ & Hwh & Hheap & _).
  exists ps, (triggerEvent JSON_stringify Date_now Math_random "test" test_data w1).2.
  split; [reflexivity | split; [| split]].
  - exists o. rewrite Hheap. split; [exact Ho |]. repeat split.
    unfold getWebhook. rewrite Hwh. apply get_set_eq.
  - pose proof (started_for JSON_stringify Date_now Math_random
                  "test" test_data w1 r Hnd1 Hr) as Hcount.
    rewrite Hps in Hcount. etransitivity; [exact Hcount |].
    unfold matches. subst w1 r o. simpl.
    rewrite lookup_app_r, Nat.sub_diag by lia. reflexivity.
  - intros r' o' Hold Hnew Ho'. unfold listWebhooks in Hnew. rewrite Hwh in Hnew.
    pose proof (started_for JSON_stringify Date_now Math_random
                  "test" test_data w1 r' Hnd1 Hnew) as Hcount.
    rewrite Hps in Hcount. etransitivity; [exact Hcount |].
    assert (Hm : matches "test" w r' =
                 WebhookConfig.active o' && bool_decide ("test" ∈ WebhookConfig.events o'))
      by (unfold matches; now rewrite Ho').
    rewrite <- Hm. unfold matches. subst w1. simpl.
    rewrite lookup_app_l by (apply Hreg, Hold). reflexivity.
Qed.

(** The service is running when [POST /test] waits for its
    deliveries. *)
Lemma post_test_runs c (u : string) (secret : option string) :
  reachable URL_parses JSON_stringify Date_now Math_random c →
  u ≠ "" → URL_parses u = true →
  let begun :=
    post_test URL_parses JSON_stringify Date_now Math_random test_data (Some u) secret
      (world c) in
  let id := pretty (Date_now (S (S (tick (world c))))) +:+ "-" +:+
            substring 2 9 (Math_random (S (S (S (tick (world c)))))) in
  let c1 := mkConfig (begun.2) (units c ++ awaited_by (begun.1)) in
  sound c1 ∧ engaged c1 ∧ entries_keyed (world c1) ∧
  webhooks (world c1) =
    JSMap.set id (length (webhook_heap (world c))) (webhooks (world c)) ∧
  ∃ o, webhook_heap (world c1) !! length (webhook_heap (world c)) = Some o ∧
       WebhookConfig.id o = id.
Proof.
  intros Hreach Hu Hurl begun id c1. subst begun c1. destruct c as [w us]. simpl in *.
  destruct (post_test_begins u secret w Hu Hurl) as (ps & Hps & ->). fold id.
  set (r := length (webhook_heap w)) in *.
  set (o := WebhookConfig.mk id u ["test"] secret true _ 0) in *.
  set (w1 := mkWorld _ _ _ _ _ _) in *.
  set (wt := mkWorld (webhooks w) (deliveries w) (webhook_heap w) (delivery_heap w)
               (trace w) (S (S (tick w)))).
  assert (Hw1 : (registerWebhook URL_parses Date_now Math_random
                   u ["test"] secret wt).2 = w1)
    by (rewrite registerWebhook_stores by (assumption || discriminate); reflexivity).
  destruct (running_at_any_tick w us (S (S (tick w))))
    as (Hst & Het & Hkt);
    [eapply reachable_sound, Hreach | eapply reachable_engaged, Hreach
    | exact (reachable_entries_keyed URL_parses JSON_stringify Date_now Math_random
               _ Hreach) |].
  fold wt in Hst, Het, Hkt.
  pose proof (step_registerWebhook URL_parses JSON_stringify Date_now Math_random
                wt us u ["test"] secret) as Hstep1.
  rewrite Hw1 in Hstep1.
  pose proof (step_triggerEvent URL_parses JSON_stringify Date_now Math_random
                w1 us "test" test_data) as Hstep2.
  rewrite Hps in Hstep2. simpl in Hstep2 |- *.
  pose proof (step_sound _ _ _ _ _ _ Hst Hstep1) as Hs1.
  pose proof (step_engaged _ _ _ _ _ _ Hst Het Hstep1) as He1.
  pose proof (step_entries_keyed _ _ _ _ _ _ Hst Het Hkt Hstep1) as Hk1.
  split; [eapply step_sound; eassumption |].
  split; [eapply step_engaged; eassumption |].
  split; [exact (step_entries_keyed _ _ _ _ _ _ Hs1 He1 Hk1 Hstep2) |].
  destruct (triggerEvent_fans_out JSON_stringify Date_now Math_random "test" test_data w1)
    as (news & qs & _ & Hwh & Hheap & _).
  rewrite Hwh, Hheap. split; [reflexivity |].
  exists o. subst w1 r. simpl.
  now rewrite lookup_app_r, Nat.sub_diag by lia.
Qed.

(** X24.  While [POST /test] waits for its deliveries the service
    goes on: deliveries are answered and retried, and other requests
    are served.  Whatever has happened when the handler resumes, and
    whatever has become of the deliveries, it answers 200 and what it
    deletes is the id of the temporary webhook: that id is removed
    from the registry as it then is, the temporary webhook is not
    stored any more, and the delivery records of the test and the
    webhook objects stay.  If the registry is then what it was at the
    suspension, as it is when only deliveries went on, the registry is
    left as it was before the request with that id removed, hence the
    same when the id was free. *)
Theorem post_test_cleans_up c c2 (u : string) (secret : option string) :
  reachable URL_parses JSON_stringify Date_now Math_random c →
  u ≠ "" → URL_parses u = true →
  let begun :=
    post_test URL_parses JSON_stringify Date_now Math_random test_data (Some u) secret
      (world c) in
  let id := pretty (Date_now (S (S (tick (world c))))) +:+ "-" +:+
            substring 2 9 (Math_random (S (S (S (tick (world c)))))) in
  let r := length (webhook_heap (world c)) in
  rtc (step URL_parses JSON_stringify Date_now Math_random)
      (mkConfig (begun.2) (units c ++ awaited_by (begun.1))) c2 →
  let result := post_test_done r (world c2) in
  result.1 = Normal (Response.mk 200 (success_message "Test event sent successfully")) ∧
  webhooks result.2 = JSMap.delete id (webhooks (world c2)) ∧
  getWebhook id result.2 = None ∧
  (r ∉ listWebhooks result.2) ∧
  deliveries result.2 = deliveries (world c2) ∧
  delivery_heap result.2 = delivery_heap (world c2) ∧
  webhook_heap result.2 = webhook_heap (world c2) ∧
  (webhooks (world c2) = webhooks begun.2 →
   webhooks result.2 = JSMap.delete id (webhooks (world c)) ∧
   (getWebhook id (world c) = None → webhooks result.2 = webhooks (world c))).
Proof.
  intros Hreach Hu Hurl begun id r Hrtc result. subst result.
  destruct (post_test_runs c u secret Hreach Hu Hurl)
    as (Hs1 & He1 & Hk1 & Hw1 & o & Ho & Hid).
  fold begun id r in Hs1, He1, Hk1, Hw1, Ho, Hid.
  destruct (run_keeps_invariants URL_parses JSON_stringify Date_now Math_random
              _ c2 Hs1 He1 Hk1 Hrtc) as (Hs2 & He2 & Hk2).
  destruct (webhook_id_stays URL_parses JSON_stringify Date_now Math_random
              _ c2 r o Hs1 He1 Hrtc Ho) as (o2 & Ho2 & Hid2).
  simpl in Hw1.
  assert (Hdone : post_test_done r (world c2) =
            (Normal (Response.mk 200 (success_message "Test event sent successfully")),
             (deleteWebhook id (world c2)).2)).
  { unfold post_test_done, try_catch, read_webhook. run.
    rewrite Ho2. simpl. rewrite Hid2, Hid.
    unfold deleteWebhook, webhooks_delete, emit. run.
    now destruct (JSMap.has id (webhooks (world c2))). }
  rewrite Hdone. simpl.
  destruct (deleteWebhook_frame id (world c2)) as (Hw & Hd & Hh & Hdh).
  rewrite Hw, Hd, Hh, Hdh. unfold getWebhook, listWebhooks. rewrite Hw.
  split; [reflexivity | split; [reflexivity | split; [apply get_delete_eq |]]].
  split; [| split; [reflexivity | split; [reflexivity | split; [reflexivity |]]]].
  - unfold JSMap.values. intros ([k x] & Hx & [Hne Hin]%elem_of_delete)%list_elem_of_fmap.
    simpl in Hx. subst x.
    destruct (Hk2 k r Hin) as (o3 & Ho3 & Hid3).
    assert (Heq : Some o3 = Some o2)
      by (etransitivity; [symmetry; exact Ho3 | exact Ho2]).
    injection Heq as ->. congruence.
  - intros ->. rewrite Hw1, delete_set. split; [reflexivity |].
    intros Hfree. now apply delete_absent.
Qed.


End Api.

(** * The properties on the sample service *)

Ltac registered_is_reachable :=
  eapply reachable_step;
  [ apply reachable_initial
  | exact (step_registerWebhook _ _ _ _ initial []
             "https://example.org/hook" ["payout"] (Some "s3cret")) ].

Ltac dispatched_is_reachable :=
  eapply reachable_step;
  [ registered_is_reachable
  | exact (step_triggerEvent _ _ _ _ Sample.one_webhook [] "payout" "{}") ].

Ltac endpoint_answers :=
  exact (step_settled Sample.URL_parses Sample.JSON_stringify Sample.Date_now
           Sample.Math_random
           (triggerEvent Sample.JSON_stringify Sample.Date_now Sample.Math_random
              "payout" "{}" Sample.one_webhook).2
           ([] ++ started
              (triggerEvent Sample.JSON_stringify Sample.Date_now Sample.Math_random
                 "payout" "{}" Sample.one_webhook).1)
           0%nat Scenario.in_flight (Responded 204 "")
           ltac:(vm_compute; reflexivity) eq_refl).

Ltac delivered_is_reachable :=
  eapply reachable_step; [dispatched_is_reachable | endpoint_answers].

Ltac subscription_is_deleted :=
  exact (step_deleteWebhook Sample.URL_parses Sample.JSON_stringify Sample.Date_now
           Sample.Math_random
           (triggerEvent Sample.JSON_stringify Sample.Date_now Sample.Math_random
              "payout" "{}" Sample.one_webhook).2
           ([] ++ started
              (triggerEvent Sample.JSON_stringify Sample.Date_now Sample.Math_random
                 "payout" "{}" Sample.one_webhook).1)
           Scenario.hook).

Lemma record_makes_one_transition_witness :
  (∀ r d, delivery_heap (world Sample.dispatched) !! r = Some d →
          ∃ d', delivery_heap (world Scenario.delivered) !! r = Some d' ∧
                (d' = d ∨ record_step d d')) ∧
  (∀ r d', delivery_heap (world Scenario.delivered) !! r = Some d' →
           delivery_heap (world Sample.dispatched) !! r = None → fresh_record d').
Proof.
  apply (record_makes_one_transition Sample.URL_parses Sample.JSON_stringify
           Sample.Date_now Sample.Math_random Sample.dispatched Scenario.delivered).
  - dispatched_is_reachable.
  - endpoint_answers.
Defined.

Lemma records_only_move_forward_witness :
  ∃ d', delivery_heap (world Scenario.delivered) !! 0%nat = Some d' ∧
        WebhookDelivery.id d' = WebhookDelivery.id Scenario.record ∧
        WebhookDelivery.webhookId d' = WebhookDelivery.webhookId Scenario.record ∧
        WebhookDelivery.eventId d' = WebhookDelivery.eventId Scenario.record ∧
        WebhookDelivery.createdAt d' = WebhookDelivery.createdAt Scenario.record ∧
        (WebhookDelivery.attempts Scenario.record ≤ WebhookDelivery.attempts d')%nat ∧
        (terminal Scenario.record → d' = Scenario.record).
Proof.
  apply (records_only_move_forward Sample.URL_parses Sample.JSON_stringify
           Sample.Date_now Sample.Math_random Sample.dispatched Scenario.delivered
           0%nat Scenario.record).
  - dispatched_is_reachable.
  - apply rtc_once. endpoint_answers.
  - vm_compute. reflexivity.
Defined.

Lemma response_fields_of_records_witness :
  WebhookDelivery.responseBody Scenario.delivered_record = None ∧
  (is_Some (WebhookDelivery.responseStatus Scenario.delivered_record) ↔
   WebhookDelivery.status Scenario.delivered_record = success) ∧
  (∀ s, WebhookDelivery.responseStatus Scenario.delivered_record = Some s →
        (200 ≤ s < 300)%Z).
Proof.
  apply (response_fields_of_records Sample.URL_parses Sample.JSON_stringify
           Sample.Date_now Sample.Math_random Scenario.delivered
           0%nat Scenario.delivered_record).
  - delivered_is_reachable.
  - vm_compute. reflexivity.
Defined.

Lemma getDelivery_returns_record_of_that_id_witness :
  ∃ d, delivery_heap (world Sample.dispatched) !! 0%nat = Some d ∧
       WebhookDelivery.id d = Scenario.delivery.
Proof.
  apply (getDelivery_returns_record_of_that_id Sample.URL_parses Sample.JSON_stringify
           Sample.Date_now Sample.Math_random Sample.dispatched Scenario.delivery 0%nat).
  - dispatched_is_reachable.
  - vm_compute. reflexivity.
Defined.

Lemma delivery_ids_persist_witness :
  is_Some (getDelivery Scenario.delivery (world Scenario.unsubscribed)).
Proof.
  apply (delivery_ids_persist Sample.URL_parses Sample.JSON_stringify
           Sample.Date_now Sample.Math_random Sample.dispatched Scenario.unsubscribed
           Scenario.delivery).
  - dispatched_is_reachable.
  - apply rtc_once. subscription_is_deleted.
  - exists 0%nat. vm_compute. reflexivity.
Defined.

Lemma stored_webhook_is_valid_witness :
  ∃ o, webhook_heap (world Scenario.registered) !! 0%nat = Some o ∧
       WebhookConfig.id o = Scenario.hook ∧
       Sample.URL_parses (WebhookConfig.url o) = true ∧
       WebhookConfig.events o ≠ [] ∧
       Scenario.hook ≠ "" ∧
       WebhookConfig.retryCount o = 0.
Proof.
  apply (stored_webhook_is_valid Sample.URL_parses Sample.JSON_stringify
           Sample.Date_now Sample.Math_random Scenario.registered Scenario.hook 0%nat).
  - registered_is_reachable.
  - vm_compute. reflexivity.
Defined.

Lemma webhook_fields_are_immutable_witness :
  ∃ o', webhook_heap (world Scenario.unsubscribed) !! 0%nat = Some o' ∧
        o' = WebhookConfig.with_active (WebhookConfig.active o') Scenario.subscription.
Proof.
  apply (webhook_fields_are_immutable Sample.URL_parses Sample.JSON_stringify
           Sample.Date_now Sample.Math_random Sample.dispatched Scenario.unsubscribed
           0%nat Scenario.subscription).
  - dispatched_is_reachable.
  - apply rtc_once. subscription_is_deleted.
  - vm_compute. reflexivity.
Defined.

Lemma registerWebhook_keeps_the_others_witness :
  let w := Sample.one_webhook in
  let id := pretty (Sample.Date_now (tick w)) +:+ "-" +:+
            substring 2 9 (Sample.Math_random (S (tick w))) in
  let w' := (registerWebhook Sample.URL_parses Sample.Date_now Sample.Math_random
               "https://example.org/other" ["refund"] None w).2 in
  getWebhook id w' = Some (length (webhook_heap w)) ∧
  (∀ id', id' ≠ id → getWebhook id' w' = getWebhook id' w) ∧
  (getWebhook id w = None →
   listWebhooks w' = listWebhooks w ++ [length (webhook_heap w)]) ∧
  (is_Some (getWebhook id w) →
   length (listWebhooks w') = length (listWebhooks w)) ∧
  (∀ r o, webhook_heap w !! r = Some o → webhook_heap w' !! r = Some o).
Proof.
  apply (registerWebhook_keeps_the_others Sample.URL_parses Sample.Date_now
           Sample.Math_random "https://example.org/other" ["refund"] None
           Sample.one_webhook).
  - reflexivity.
  - discriminate.
Defined.

Lemma register_then_delete_witness :
  let w := Sample.one_webhook in
  let id := pretty (Sample.Date_now (tick w)) +:+ "-" +:+
            substring 2 9 (Sample.Math_random (S (tick w))) in
  let w1 := (registerWebhook Sample.URL_parses Sample.Date_now Sample.Math_random
               "https://example.org/other" ["refund"] None w).2 in
  let result := deleteWebhook id w1 in
  result.1 = Normal true ∧
  webhooks result.2 = webhooks w ∧
  deliveries result.2 = deliveries w ∧
  delivery_heap result.2 = delivery_heap w ∧
  trace result.2 =
    trace w ++ [Emit (webhook_registered (length (webhook_heap w)));
                Emit (webhook_deleted id)].
Proof.
  apply (register_then_delete Sample.URL_parses Sample.Date_now
           Sample.Math_random "https://example.org/other" ["refund"] None
           Sample.one_webhook).
  - reflexivity.
  - discriminate.
  - vm_compute. reflexivity.
Defined.

Lemma updateWebhookStatus_effect_witness :
  let w := world Scenario.registered in
  let result := updateWebhookStatus Scenario.hook false w in
  match getWebhook Scenario.hook w with
  | Some r =>
      result.1 = Normal (Some r) ∧
      (∃ o, webhook_heap w !! r = Some o ∧
            webhook_heap result.2 !! r = Some (WebhookConfig.with_active false o)) ∧
      (∀ r', r' ≠ r → webhook_heap result.2 !! r' = webhook_heap w !! r') ∧
      webhooks result.2 = webhooks w ∧
      deliveries result.2 = deliveries w ∧
      delivery_heap result.2 = delivery_heap w ∧
      trace result.2 = trace w ++ [Emit (webhook_updated r)]
  | None => result = (Normal None, w)
  end.
Proof.
  apply (updateWebhookStatus_effect Sample.URL_parses Sample.JSON_stringify
           Sample.Date_now Sample.Math_random Scenario.registered Scenario.hook false).
  registered_is_reachable.
Defined.

Lemma activation_decides_delivery_witness :
  let w1 := (updateWebhookStatus Scenario.hook false (world Scenario.registered)).2 in
  ∃ o, webhook_heap (world Scenario.registered) !! 0%nat = Some o ∧
       length (filter (λ u, of_webhook u = 0%nat)
                 (started (triggerEvent Sample.JSON_stringify Sample.Date_now
                             Sample.Math_random "payout" "{}" w1).1)) =
         if false && bool_decide ("payout" ∈ WebhookConfig.events o)
         then 1%nat else 0%nat.
Proof.
  apply (activation_decides_delivery Sample.URL_parses Sample.JSON_stringify
           Sample.Date_now Sample.Math_random Scenario.registered Scenario.hook false
           0%nat "payout" "{}").
  - registered_is_reachable.
  - vm_compute. reflexivity.
Defined.

Lemma deleted_webhook_gets_nothing_witness :
  getWebhook Scenario.hook (deleteWebhook Scenario.hook (world Scenario.registered)).2 =
    None ∧
  (0%nat ∉ listWebhooks (world Scenario.resubscribed)) ∧
  ∀ u, u ∈ started (triggerEvent Sample.JSON_stringify Sample.Date_now
                      Sample.Math_random "payout" "{}"
                      (world Scenario.resubscribed)).1 →
       of_webhook u ≠ 0%nat.
Proof.
  apply (deleted_webhook_gets_nothing Sample.URL_parses Sample.JSON_stringify
           Sample.Date_now Sample.Math_random Scenario.registered Scenario.resubscribed
           Scenario.hook 0%nat "payout" "{}").
  - registered_is_reachable.
  - vm_compute. reflexivity.
  - apply rtc_once.
    exact (step_registerWebhook Sample.URL_parses Sample.JSON_stringify Sample.Date_now
             Sample.Math_random
             ((deleteWebhook Scenario.hook (world Scenario.registered)).2)
             (units Scenario.registered)
             "https://example.org/other" ["payout"] None).
Defined.

Lemma executeDelivery_request_witness :
  let result := Serialising.executeDelivery Scenario.stringify Sample.Date_now
                  Sample.Math_random 0%nat Sample.event Sample.one_webhook in
  match Scenario.stringify Sample.event with
  | Throw error => result = (Throw error, Sample.one_webhook)
  | Normal payload =>
      result.1 = Normal tt ∧
      ∃ q, trace result.2 = trace Sample.one_webhook ++ [Fetch q] ∧
           Request.url q = WebhookConfig.url Scenario.subscription ∧
           Request.method q = "POST" ∧
           Request.body q = payload ∧
           header "X-Webhook-ID" q = Some (WebhookConfig.id Scenario.subscription) ∧
           header "X-Event-ID" q = Some (WebhookEvent.id Sample.event) ∧
           (is_Some (header "X-Webhook-Signature" q) ↔
            ∃ s, WebhookConfig.secret Scenario.subscription = Some s ∧ s ≠ "") ∧
           (∀ s sig, WebhookConfig.secret Scenario.subscription = Some s →
                     header "X-Webhook-Signature" q = Some sig →
                     verifySignature (Request.body q) sig s = Normal true)
  end.
Proof.
  apply (executeDelivery_request Sample.Date_now Sample.Math_random Scenario.stringify
           0%nat Sample.event Sample.one_webhook Scenario.subscription).
  vm_compute. reflexivity.
Defined.

Lemma delivery_succeeds_after_failures_witness :
  let fails := [Responded 503 "busy"; Rejected (Error "socket hang up")] in
  let w := Sample.one_webhook in
  let result := deliver Sample.JSON_stringify Sample.Date_now Sample.Math_random
                  0%nat Sample.event (fails ++ Responded 200 "ok" :: []) w in
  let delivery := length (delivery_heap w) in
  result.1 = Normal (Returned delivery) ∧
  ∃ record,
    delivery_heap result.2 !! delivery = Some record ∧
    WebhookDelivery.status record = success ∧
    WebhookDelivery.attempts record = (length fails + 1)%nat ∧
    WebhookDelivery.responseStatus record = Some 200 ∧
    WebhookDelivery.error record = last (detail <$> fails) ∧
    is_Some (WebhookDelivery.completedAt record) ∧
    timers (trace result.2) =
      timers (trace w) ++ take (length fails) (Some <$> retryDelays) ∧
    length (requests (trace result.2)) =
      (length (requests (trace w)) + length fails + 1)%nat.
Proof.
  apply (delivery_succeeds_after_failures Sample.JSON_stringify Sample.Date_now
           Sample.Math_random 0%nat Sample.event
           [Responded 503 "busy"; Rejected (Error "socket hang up")] 200 "ok" []
           Sample.one_webhook Scenario.subscription).
  - vm_compute. reflexivity.
  - repeat constructor.
  - vm_compute. lia.
  - reflexivity.
Defined.

Lemma delivering_never_throws_witness :
  let c := Sample.dispatched in
  let w := world c in
  (∀ type data,
     let result := triggerEvent Sample.JSON_stringify Sample.Date_now Sample.Math_random
                     type data w in
     (∃ ps, result.1 = Normal ps) ∧
     webhooks result.2 = webhooks w ∧ webhook_heap result.2 = webhook_heap w) ∧
  (∀ u o, u ∈ units c →
     let result := sendWebhook_settled Sample.JSON_stringify Sample.Date_now
                     Sample.Math_random u o w in
     (∃ p, result.1 = Normal p) ∧
     webhooks result.2 = webhooks w ∧ webhook_heap result.2 = webhook_heap w) ∧
  (∀ u, u ∈ units c →
     let result := sendWebhook_delayed Sample.JSON_stringify Sample.Date_now
                     Sample.Math_random u w in
     (∃ p, result.1 = Normal p) ∧
     webhooks result.2 = webhooks w ∧ webhook_heap result.2 = webhook_heap w).
Proof.
  apply (delivering_never_throws Sample.URL_parses Sample.JSON_stringify
           Sample.Date_now Sample.Math_random Sample.dispatched).
  dispatched_is_reachable.
Defined.

Lemma attempts_are_accounted_witness :
  (1 ≤ WebhookDelivery.attempts Scenario.delivered_record ≤ 4)%nat ∧
  (WebhookDelivery.error Scenario.delivered_record = None →
   WebhookDelivery.attempts Scenario.delivered_record = 1%nat) ∧
  (WebhookDelivery.status Scenario.delivered_record = failed →
   WebhookDelivery.attempts Scenario.delivered_record = 4%nat ∧
   is_Some (WebhookDelivery.error Scenario.delivered_record)).
Proof.
  apply (attempts_are_accounted Sample.URL_parses Sample.JSON_stringify
           Sample.Date_now Sample.Math_random Scenario.delivered
           0%nat Scenario.delivered_record).
  - delivered_is_reachable.
  - vm_compute. reflexivity.
Defined.

Lemma post_then_get_witness :
  let w := Sample.one_webhook in
  let posted := post_webhook Sample.URL_parses Sample.Date_now Sample.Math_random
                  (Some "https://example.org/other") (Some ["refund"]) None w in
  let id := pretty (Sample.Date_now (tick w)) +:+ "-" +:+
            substring 2 9 (Sample.Math_random (S (tick w))) in
  let r := length (webhook_heap w) in
  posted.1 = Normal (Response.mk 201 (success_webhook r)) ∧
  webhook_heap posted.2 !! r =
    Some (WebhookConfig.mk id "https://example.org/other" ["refund"] None true
            (Sample.Date_now (S (S (tick w)))) 0) ∧
  get_webhook id posted.2 = (Normal (Response.mk 200 (success_webhook r)), posted.2) ∧
  (getWebhook id w = None →
   get_webhooks posted.2 =
     (Normal (Response.mk 200 (success_webhooks (listWebhooks w ++ [r]))), posted.2)) ∧
  get_deliveries id posted.2 =
    (Normal (Response.mk 200 (success_deliveries (getDeliveries (Some id) w))), posted.2).
Proof.
  apply (post_then_get Sample.URL_parses Sample.Date_now Sample.Math_random
           "https://example.org/other" ["refund"] None Sample.one_webhook).
  - discriminate.
  - reflexivity.
  - discriminate.
Defined.

Lemma history_is_hidden_after_delete_witness :
  let w := world Sample.dispatched in
  let deleted := delete_webhook Scenario.hook w in
  get_deliveries Scenario.hook w =
    (Normal (Response.mk 200 (success_deliveries (getDeliveries (Some Scenario.hook) w))),
     w) ∧
  deleted.1 = Normal (Response.mk 200 (success_message "Webhook deleted successfully")) ∧
  get_deliveries Scenario.hook deleted.2 =
    (Normal (Response.mk 404 (failure "Webhook not found")), deleted.2) ∧
  getDeliveries (Some Scenario.hook) deleted.2 = getDeliveries (Some Scenario.hook) w ∧
  delete_webhook Scenario.hook deleted.2 =
    (Normal (Response.mk 404 (failure "Webhook not found")), deleted.2).
Proof.
  apply (history_is_hidden_after_delete Scenario.hook 0%nat (world Sample.dispatched)).
  vm_compute. reflexivity.
Defined.

Lemma refused_requests_change_nothing_witness :
  let result := serve Sample.URL_parses Sample.Date_now Sample.Math_random
                  (PATCH_id "1700000000000-unknown00" (Some (Some false)))
                  (world Scenario.registered) in
  ∃ answer,
    result.1 = Normal answer ∧
    Response.status answer ∈ [200; 201; 400; 404] ∧
    (Response.status answer ∈ [400; 404] → result.2 = world Scenario.registered) ∧
    (is_GET (PATCH_id "1700000000000-unknown00" (Some (Some false))) = true →
     result.2 = world Scenario.registered ∧ Response.status answer ∈ [200; 404]).
Proof.
  apply (refused_requests_change_nothing Sample.URL_parses Sample.JSON_stringify
           Sample.Date_now Sample.Math_random Scenario.registered
           (PATCH_id "1700000000000-unknown00" (Some (Some false)))).
  registered_is_reachable.
Defined.

Lemma post_test_reaches_every_test_subscriber_witness :
  let w := world Scenario.registered in
  let r := length (webhook_heap w) in
  ∃ ps w',
    post_test Sample.URL_parses Sample.JSON_stringify Sample.Date_now Sample.Math_random
      Scenario.test_data (Some "https://example.org/probe") None w =
      (Normal (inr (r, ps)), w') ∧
    (∃ o, webhook_heap w' !! r = Some o ∧
          WebhookConfig.url o = "https://example.org/probe" ∧
          WebhookConfig.events o = ["test"] ∧
          WebhookConfig.secret o = None ∧
          getWebhook (WebhookConfig.id o) w' = Some r) ∧
    length (filter (λ x, of_webhook x = r) (suspended ps)) = 1%nat ∧
    ∀ (r' : ref) o', r' ∈ listWebhooks w → r' ∈ listWebhooks w' →
          webhook_heap w !! r' = Some o' →
          length (filter (λ x, of_webhook x = r') (suspended ps)) =
            if WebhookConfig.active o' && bool_decide ("test" ∈ WebhookConfig.events o')
            then 1%nat else 0%nat.
Proof.
  apply (post_test_reaches_every_test_subscriber Sample.URL_parses Sample.JSON_stringify
           Sample.Date_now Sample.Math_random Scenario.test_data Scenario.registered
           "https://example.org/probe" None).
  - registered_is_reachable.
  - discriminate.
  - reflexivity.
Defined.

Lemma post_test_cleans_up_witness :
  let begun :=
    post_test Sample.URL_parses Sample.JSON_stringify Sample.Date_now Sample.Math_random
      Scenario.test_data (Some "https://example.org/probe") None
      (world Scenario.registered) in
  let id := pretty (Sample.Date_now (S (S (tick (world Scenario.registered))))) +:+ "-" +:+
            substring 2 9
              (Sample.Math_random (S (S (S (tick (world Scenario.registered)))))) in
  let r := length (webhook_heap (world Scenario.registered)) in
  let result := post_test_done r (world Scenario.probed) in
  result.1 = Normal (Response.mk 200 (success_message "Test event sent successfully")) ∧
  webhooks result.2 = JSMap.delete id (webhooks (world Scenario.probed)) ∧
  getWebhook id result.2 = None ∧
  (r ∉ listWebhooks result.2) ∧
  deliveries result.2 = deliveries (world Scenario.probed) ∧
  delivery_heap result.2 = delivery_heap (world Scenario.probed) ∧
  webhook_heap result.2 = webhook_heap (world Scenario.probed) ∧
  (webhooks (world Scenario.probed) = webhooks begun.2 →
   webhooks result.2 = JSMap.delete id (webhooks (world Scenario.registered)) ∧
   (getWebhook id (world Scenario.registered) = None →
    webhooks result.2 = webhooks (world Scenario.registered))).
Proof.
  apply (post_test_cleans_up Sample.URL_parses Sample.JSON_stringify
           Sample.Date_now Sample.Math_random Scenario.test_data
           Scenario.registered Scenario.probed "https://example.org/probe" None).
  - registered_is_reachable.
  - discriminate.
  - reflexivity.
  - apply rtc_once.
    exact (step_settled Sample.URL_parses Sample.JSON_stringify Sample.Date_now
             Sample.Math_random
             ((post_test Sample.URL_parses Sample.JSON_stringify Sample.Date_now
                 Sample.Math_random Scenario.test_data
                 (Some "https://example.org/probe") None
                 (world Scenario.registered)).2)
             (units Scenario.registered ++
              awaited_by
                ((post_test Sample.URL_parses Sample.JSON_stringify Sample.Date_now
                    Sample.Math_random Scenario.test_data
                    (Some "https://example.org/probe") None
                    (world Scenario.registered)).1))
             0%nat Scenario.probe (Responded 200 "ok")
             ltac:(vm_compute; reflexivity) eq_refl).
Defined.

